(** * Duck-UI: the session store and the file importer

    A shallow embedding of [src/store/index.ts] (the zustand store: query
    execution, result normalisation, history ledger, tabs, connection
    registry, cleanup) and of the upload handler of
    [src/components/explorer/FileImporter.tsx], followed by the properties
    proved about them.

    Conventions of the embedding:
    - a JavaScript string is the list of its UTF-16 code units ([list N]);
    - [undefined]/[null] fields are [option]s;
    - a value whose type the source leaves open ([any]: a cell of a result,
      what [JSON.parse] returns) is a [jsval];
    - an object used as a dictionary ([Record<string, _>]) is a [gmap];
    - a store action is a computation over the store state that may throw
      and that leaves a trace of the effects it performs on the outside
      world (backend queries, HTTP requests, toasts);
    - what an awaited call to the outside world yields is read from a
      [World] record, so every action is a total function;
    - an action runs from start to end without another action in between;
      the one place where callbacks interleave, the upload handler, is a
      step relation over the suspended callbacks;
    - console logging is left out. *)

From Stdlib Require Import ZArith NArith Lia List String Ascii Permutation.
From stdpp Require Import base tactics option list numbers strings gmap sorting pretty.

(** ** JavaScript values and built-ins used by the sources *)

Module Js.

Abbreviation jsstring := (list N) (only parsing).

(** A string literal of the source, as code units. *)
Definition js (s : string) : jsstring := N_of_ascii <$> list_ascii_of_string s.

(** [ToBoolean] on a string: only the empty string is falsy. *)
Definition truthy (s : jsstring) : bool :=
  match s with
  | [] => false
  | _ :: _ => true
  end.

(** [ToBoolean] on [string | undefined]. *)
Definition truthy_opt (o : option jsstring) : bool :=
  match o with
  | Some s => truthy s
  | None => false
  end.

(** Template-literal interpolation of [string | undefined]. *)
Definition tmpl (o : option jsstring) : jsstring := default (js "undefined") o.

(** ECMAScript WhiteSpace and LineTerminator code points, the characters
    removed by [String.prototype.trim]. *)
Definition isWhiteSpace (c : N) : bool :=
  ((0x9 <=? c) && (c <=? 0xD) || (c =? 0x20) || (c =? 0xA0) || (c =? 0x1680)
   || (0x2000 <=? c) && (c <=? 0x200A) || (c =? 0x2028) || (c =? 0x2029)
   || (c =? 0x202F) || (c =? 0x205F) || (c =? 0x3000) || (c =? 0xFEFF))%N.

Fixpoint trimStart (s : jsstring) : jsstring :=
  match s with
  | c :: s' => if isWhiteSpace c then trimStart s' else s
  | [] => []
  end.

Definition trimEnd (s : jsstring) : jsstring := rev (trimStart (rev s)).

Definition trim (s : jsstring) : jsstring := trimEnd (trimStart s).

(** Case folding of a regular expression with the [i] flag and without the
    [u] flag, as far as ASCII patterns are concerned: a lower-case ASCII
    letter is compared through its upper-case form; a code unit of 128 or
    more never canonicalizes to an ASCII one, so it is left alone. *)
Definition canonicalize (c : N) : N :=
  if ((0x61 <=? c) && (c <=? 0x7A))%N then (c - 0x20)%N else c.

(** [kw] matches at the start of [s], case-insensitively. *)
Fixpoint prefix_ci (kw s : jsstring) : bool :=
  match kw, s with
  | [], _ => true
  | _ :: _, [] => false
  | k :: kw', c :: s' => (canonicalize c =? canonicalize k)%N && prefix_ci kw' s'
  end.

(** [/^(a|b|...)/i.test(s)] for literal alternatives. *)
Definition test_prefix_alt (alts : list jsstring) (s : jsstring) : bool :=
  existsb (fun kw => prefix_ci kw s) alts.

(** [/^[a-zA-Z0-9_]+$/.test(s)]. *)
Definition isWordChar (c : N) : bool :=
  ((0x61 <=? c) && (c <=? 0x7A) || (0x41 <=? c) && (c <=? 0x5A)
   || (0x30 <=? c) && (c <=? 0x39) || (c =? 0x5F))%N.

Definition test_word (s : jsstring) : bool := truthy s && forallb isWordChar s.

(** [Array.prototype.splice(start, deleteCount, ...items)] on integer
    arguments: the removed elements and the array after the call. A
    negative [start] counts from the end; both arguments are clamped. *)
Definition actualStart (len : nat) (start : Z) : nat :=
  if (start <? 0)%Z then Z.to_nat (Z.max (Z.of_nat len + start) 0)
  else Z.to_nat (Z.min start (Z.of_nat len)).

Definition splice {A} (l : list A) (start deleteCount : Z) (items : list A)
  : list A * list A :=
  let len := length l in
  let st := actualStart len start in
  let dc := Z.to_nat (Z.min (Z.max deleteCount 0) (Z.of_nat (len - st))) in
  (take dc (drop st l), take st l ++ items ++ drop (st + dc) l).

(** [Array.prototype.filter] with a callback that reads the index. *)
Fixpoint filteri_from {A} (p : A -> nat -> bool) (i : nat) (l : list A) : list A :=
  match l with
  | [] => []
  | x :: l' => if p x i then x :: filteri_from p (S i) l' else filteri_from p (S i) l'
  end.

Definition filteri {A} (p : A -> nat -> bool) (l : list A) : list A :=
  filteri_from p 0 l.

(** [Array.prototype.findIndex]; [None] stands for [-1]. *)
Fixpoint findIndex_from {A} (p : A -> bool) (i : nat) (l : list A) : option nat :=
  match l with
  | [] => None
  | x :: l' => if p x then Some i else findIndex_from p (S i) l'
  end.

Definition findIndex {A} (p : A -> bool) (l : list A) : option nat :=
  findIndex_from p 0 l.

(** [Array.prototype.forEach] with a callback that reads the index and
    updates an accumulator (the object being built). *)
Fixpoint forEachi_from {A Acc} (f : Acc -> A -> nat -> Acc) (i : nat) (l : list A) (s : Acc) : Acc :=
  match l with
  | [] => s
  | x :: l' => forEachi_from f (S i) l' (f s x i)
  end.

Definition forEachi {A Acc} (f : Acc -> A -> nat -> Acc) (l : list A) (s : Acc) : Acc :=
  forEachi_from f 0 l s.

(** The values that flow through query results and that [JSON.parse]
    returns: primitives, dates, arrays, and plain objects given by their own
    properties. *)
#[warnings="-register-all"] Inductive jsval :=
| VUndefined
| VNull
| VBool (b : bool)
| VNum (n : Z)
| VStr (s : jsstring)
| VDate (ms : Z)
| VArr (items : list jsval)
| VObj (props : gmap (list N) jsval).

(** A count ([data.length], [numRows], the literal [0]) as a value. *)
Definition VCount (n : N) : jsval := VNum (Z.of_N n).
Coercion VCount : N >-> jsval.

(** [ToBoolean] on a value: [undefined], [null], [false], [0] and the empty
    string are falsy. *)
Definition truthy_value (v : jsval) : bool :=
  match v with
  | VUndefined | VNull => false
  | VBool b => b
  | VNum n => negb (n =? 0)%Z
  | VStr s => truthy s
  | VDate _ | VArr _ | VObj _ => true
  end.

(** [Array.isArray]. *)
Definition isArray (v : jsval) : bool :=
  match v with
  | VArr _ => true
  | _ => false
  end.

(** The elements of an array (read only behind [Array.isArray]). *)
Definition elements (v : jsval) : list jsval :=
  match v with
  | VArr items => items
  | _ => []
  end.

(** Whether a value is an object (anything but a primitive and [null]). *)
Definition isObject (v : jsval) : bool :=
  match v with
  | VDate _ | VArr _ | VObj _ => true
  | _ => false
  end.

(** What a [throw] carries: an [Error] with its message, or any other value. *)
Inductive thrown :=
| ErrorObj (message : jsstring)
| NonError.

(** [error instanceof Error ? error.message : "Unknown error"]. *)
Definition error_message (e : thrown) : jsstring :=
  match e with
  | ErrorObj m => m
  | NonError => js "Unknown error"
  end.

(** How an evaluation ends: with a value or with a thrown exception
    (for an async function: a fulfilled or a rejected promise). *)
Inductive completion (A : Type) :=
| Normal (a : A)
| Throw (e : thrown).
Arguments Normal {A} a.
Arguments Throw {A} e.

(** Sequencing of evaluations that may throw. *)
Definition and_then {A B} (m : completion A) (k : A -> completion B) : completion B :=
  match m with
  | Normal a => k a
  | Throw e => Throw e
  end.

(** [Array.prototype.map] with a callback that may throw: the elements are
    visited in order and the first exception ends the loop. *)
Fixpoint map_throwing {A B} (f : A -> completion B) (l : list A) : completion (list B) :=
  match l with
  | [] => Normal []
  | x :: l' => and_then (f x) (fun y => and_then (map_throwing f l') (fun ys => Normal (y :: ys)))
  end.

(** The prototype of an object built by an object literal: [Object.prototype]
    until an assignment to [__proto__] replaces it by [null] or by an
    object. *)
Inductive Prototype :=
| ObjectPrototype
| NullPrototype
| ValuePrototype (v : jsval).

(** An ordinary object: its own properties and its prototype. *)
Record PlainObject := {
  own : gmap (list N) jsval;
  proto : Prototype;
}.

(** The object literal [{}]. *)
Definition empty_object : PlainObject := {| own := ∅; proto := ObjectPrototype |}.

(** Whether the [__proto__] accessor of [Object.prototype] is what an
    assignment to [__proto__] finds on the prototype chain: not below a
    [null] prototype, and not below an object that has a property of that
    name itself (one that [JSON.parse] created). *)
Definition inherits_proto_setter (p : Prototype) : bool :=
  match p with
  | ObjectPrototype => true
  | NullPrototype => false
  | ValuePrototype (VObj props) =>
      match props !! js "__proto__" with
      | Some _ => false
      | None => true
      end
  | ValuePrototype _ => true
  end.

(** [o[key] = v] on an ordinary extensible object whose properties are all
    writable data properties. Every key is stored as an own property, except
    [__proto__] while it is not an own property and the accessor of
    [Object.prototype] is inherited: the setter then replaces the prototype
    when [v] is an object or [null], and does nothing for any other [v]. *)
Definition assign (o : PlainObject) (key : jsstring) (v : jsval) : PlainObject :=
  if bool_decide (key = js "__proto__")
     && match own o !! key with Some _ => false | None => true end
     && inherits_proto_setter (proto o)
  then
    if isObject v then {| own := own o; proto := ValuePrototype v |}
    else match v with
         | VNull => {| own := own o; proto := NullPrototype |}
         | _ => o
         end
  else {| own := <[key := v]> (own o); proto := proto o |}.

End Js.
Import Js.

(** ** The store: data model ([src/store/index.ts], TYPES) *)

Module Store.

Inductive Scope := WASM | External.

(** [ConnectionProvider] and [CurrentConnection] have the same fields. *)
Record ConnectionProvider := {
  c_id : jsstring;
  c_name : jsstring;
  c_scope : Scope;
  c_host : option jsstring;
  c_port : option N;
  c_user : option jsstring;
  c_password : option jsstring;
  c_database : option jsstring;
  c_authMode : option jsstring;
}.

Abbreviation CurrentConnection := ConnectionProvider (only parsing).

Record ColumnInfo := {
  col_name : jsstring;
  col_type : jsstring;
  col_nullable : bool;
}.

Record TableInfo := {
  t_name : jsstring;
  t_schema : jsstring;
  t_columns : list ColumnInfo;
  t_rowCount : Z;
  t_createdAt : jsstring;
}.

Record DatabaseInfo := {
  d_name : jsstring;
  d_tables : list TableInfo;
}.

(** [QueryResult]. The source fills it from values typed [any], so the
    columns, the column types and the row count are values; a row is given
    by its own properties. *)
Record QueryResult := {
  columns : list jsval;
  columnTypes : list jsval;
  data : list (gmap (list N) jsval);
  rowCount : jsval;
  qr_error : option jsstring;
}.

Record QueryHistoryItem := {
  h_id : jsstring;
  h_query : jsstring;
  h_timestamp : N;
  h_error : option jsstring;
}.

Inductive EditorTabType := sql | home.

(** [content: string | { database?: string; table?: string }]. *)
Inductive TabContent :=
| ContentText (text : jsstring)
| ContentRef (database table : option jsstring).

Record EditorTab := {
  tab_id : jsstring;
  tab_title : jsstring;
  tab_type : EditorTabType;
  tab_content : TabContent;
  tab_result : option QueryResult;
}.

(** The two backend handles. [validateConnection] looks at whether the
    connection object has a [query] function. *)
Record AsyncDuckDB := { db_handle : N }.
Record AsyncDuckDBConnection := { conn_handle : N; conn_has_query : bool }.

Record DuckStoreState := {
  db : option AsyncDuckDB;
  connection : option AsyncDuckDBConnection;
  isInitialized : bool;
  currentDatabase : jsstring;
  currentConnection : option CurrentConnection;
  connectionList : list ConnectionProvider;
  databases : list DatabaseInfo;
  queryHistory : list QueryHistoryItem;
  isExecuting : bool;
  tabs : list EditorTab;
  activeTabId : option jsstring;
  isLoading : bool;
  error : option jsstring;
  isLoadingDbTablesFetch : bool;
  isLoadingExternalConnection : bool;
}.

(** Field updates, the pieces of a zustand [set({ ... })]. *)
Definition with_db v s :=
  {| db := v; connection := connection s; isInitialized := isInitialized s;
     currentDatabase := currentDatabase s; currentConnection := currentConnection s;
     connectionList := connectionList s; databases := databases s;
     queryHistory := queryHistory s; isExecuting := isExecuting s; tabs := tabs s;
     activeTabId := activeTabId s; isLoading := isLoading s; error := error s;
     isLoadingDbTablesFetch := isLoadingDbTablesFetch s;
     isLoadingExternalConnection := isLoadingExternalConnection s |}.
Definition with_connection v s :=
  {| db := db s; connection := v; isInitialized := isInitialized s;
     currentDatabase := currentDatabase s; currentConnection := currentConnection s;
     connectionList := connectionList s; databases := databases s;
     queryHistory := queryHistory s; isExecuting := isExecuting s; tabs := tabs s;
     activeTabId := activeTabId s; isLoading := isLoading s; error := error s;
     isLoadingDbTablesFetch := isLoadingDbTablesFetch s;
     isLoadingExternalConnection := isLoadingExternalConnection s |}.
Definition with_isInitialized v s :=
  {| db := db s; connection := connection s; isInitialized := v;
     currentDatabase := currentDatabase s; currentConnection := currentConnection s;
     connectionList := connectionList s; databases := databases s;
     queryHistory := queryHistory s; isExecuting := isExecuting s; tabs := tabs s;
     activeTabId := activeTabId s; isLoading := isLoading s; error := error s;
     isLoadingDbTablesFetch := isLoadingDbTablesFetch s;
     isLoadingExternalConnection := isLoadingExternalConnection s |}.
Definition with_currentDatabase v s :=
  {| db := db s; connection := connection s; isInitialized := isInitialized s;
     currentDatabase := v; currentConnection := currentConnection s;
     connectionList := connectionList s; databases := databases s;
     queryHistory := queryHistory s; isExecuting := isExecuting s; tabs := tabs s;
     activeTabId := activeTabId s; isLoading := isLoading s; error := error s;
     isLoadingDbTablesFetch := isLoadingDbTablesFetch s;
     isLoadingExternalConnection := isLoadingExternalConnection s |}.
Definition with_currentConnection v s :=
  {| db := db s; connection := connection s; isInitialized := isInitialized s;
     currentDatabase := currentDatabase s; currentConnection := v;
     connectionList := connectionList s; databases := databases s;
     queryHistory := queryHistory s; isExecuting := isExecuting s; tabs := tabs s;
     activeTabId := activeTabId s; isLoading := isLoading s; error := error s;
     isLoadingDbTablesFetch := isLoadingDbTablesFetch s;
     isLoadingExternalConnection := isLoadingExternalConnection s |}.
Definition with_connectionList v s :=
  {| db := db s; connection := connection s; isInitialized := isInitialized s;
     currentDatabase := currentDatabase s; currentConnection := currentConnection s;
     connectionList := v; databases := databases s;
     queryHistory := queryHistory s; isExecuting := isExecuting s; tabs := tabs s;
     activeTabId := activeTabId s; isLoading := isLoading s; error := error s;
     isLoadingDbTablesFetch := isLoadingDbTablesFetch s;
     isLoadingExternalConnection := isLoadingExternalConnection s |}.
Definition with_databases v s :=
  {| db := db s; connection := connection s; isInitialized := isInitialized s;
     currentDatabase := currentDatabase s; currentConnection := currentConnection s;
     connectionList := connectionList s; databases := v;
     queryHistory := queryHistory s; isExecuting := isExecuting s; tabs := tabs s;
     activeTabId := activeTabId s; isLoading := isLoading s; error := error s;
     isLoadingDbTablesFetch := isLoadingDbTablesFetch s;
     isLoadingExternalConnection := isLoadingExternalConnection s |}.
Definition with_queryHistory v s :=
  {| db := db s; connection := connection s; isInitialized := isInitialized s;
     currentDatabase := currentDatabase s; currentConnection := currentConnection s;
     connectionList := connectionList s; databases := databases s;
     queryHistory := v; isExecuting := isExecuting s; tabs := tabs s;
     activeTabId := activeTabId s; isLoading := isLoading s; error := error s;
     isLoadingDbTablesFetch := isLoadingDbTablesFetch s;
     isLoadingExternalConnection := isLoadingExternalConnection s |}.
Definition with_isExecuting v s :=
  {| db := db s; connection := connection s; isInitialized := isInitialized s;
     currentDatabase := currentDatabase s; currentConnection := currentConnection s;
     connectionList := connectionList s; databases := databases s;
     queryHistory := queryHistory s; isExecuting := v; tabs := tabs s;
     activeTabId := activeTabId s; isLoading := isLoading s; error := error s;
     isLoadingDbTablesFetch := isLoadingDbTablesFetch s;
     isLoadingExternalConnection := isLoadingExternalConnection s |}.
Definition with_tabs v s :=
  {| db := db s; connection := connection s; isInitialized := isInitialized s;
     currentDatabase := currentDatabase s; currentConnection := currentConnection s;
     connectionList := connectionList s; databases := databases s;
     queryHistory := queryHistory s; isExecuting := isExecuting s; tabs := v;
     activeTabId := activeTabId s; isLoading := isLoading s; error := error s;
     isLoadingDbTablesFetch := isLoadingDbTablesFetch s;
     isLoadingExternalConnection := isLoadingExternalConnection s |}.
Definition with_activeTabId v s :=
  {| db := db s; connection := connection s; isInitialized := isInitialized s;
     currentDatabase := currentDatabase s; currentConnection := currentConnection s;
     connectionList := connectionList s; databases := databases s;
     queryHistory := queryHistory s; isExecuting := isExecuting s; tabs := tabs s;
     activeTabId := v; isLoading := isLoading s; error := error s;
     isLoadingDbTablesFetch := isLoadingDbTablesFetch s;
     isLoadingExternalConnection := isLoadingExternalConnection s |}.
Definition with_error v s :=
  {| db := db s; connection := connection s; isInitialized := isInitialized s;
     currentDatabase := currentDatabase s; currentConnection := currentConnection s;
     connectionList := connectionList s; databases := databases s;
     queryHistory := queryHistory s; isExecuting := isExecuting s; tabs := tabs s;
     activeTabId := activeTabId s; isLoading := isLoading s; error := v;
     isLoadingDbTablesFetch := isLoadingDbTablesFetch s;
     isLoadingExternalConnection := isLoadingExternalConnection s |}.
Definition with_isLoadingDbTablesFetch v s :=
  {| db := db s; connection := connection s; isInitialized := isInitialized s;
     currentDatabase := currentDatabase s; currentConnection := currentConnection s;
     connectionList := connectionList s; databases := databases s;
     queryHistory := queryHistory s; isExecuting := isExecuting s; tabs := tabs s;
     activeTabId := activeTabId s; isLoading := isLoading s; error := error s;
     isLoadingDbTablesFetch := v;
     isLoadingExternalConnection := isLoadingExternalConnection s |}.
Definition with_isLoadingExternalConnection v s :=
  {| db := db s; connection := connection s; isInitialized := isInitialized s;
     currentDatabase := currentDatabase s; currentConnection := currentConnection s;
     connectionList := connectionList s; databases := databases s;
     queryHistory := queryHistory s; isExecuting := isExecuting s; tabs := tabs s;
     activeTabId := activeTabId s; isLoading := isLoading s; error := error s;
     isLoadingDbTablesFetch := isLoadingDbTablesFetch s;
     isLoadingExternalConnection := v |}.

(** The home tab and the store's initial state. *)
Definition home_tab : EditorTab :=
  {| tab_id := js "home"; tab_title := js "Home"; tab_type := home;
     tab_content := ContentText []; tab_result := None |}.

Definition wasm_descriptor : ConnectionProvider :=
  {| c_id := js "WASM"; c_name := js "WASM"; c_scope := WASM;
     c_host := None; c_port := None; c_user := None; c_password := None;
     c_database := None; c_authMode := None |}.

Definition initial_state : DuckStoreState :=
  {| db := None; connection := None; isInitialized := false;
     currentDatabase := js "memory"; currentConnection := None;
     connectionList := [wasm_descriptor]; databases := [];
     queryHistory := []; isExecuting := false; tabs := [home_tab];
     activeTabId := Some (js "home"); isLoading := false; error := None;
     isLoadingDbTablesFetch := true; isLoadingExternalConnection := false |}.

(** ** What the backends hand back *)

(** The embedded engine's result ([result.schema.fields], [result.toArray()]
    with every row already passed through [toJSON()], [result.numRows]). *)
Record Field := {
  f_name : jsstring;
  f_type : jsstring;
}.

Record ArrowTable := {
  schema_fields : list Field;
  table_rows : list (gmap (list N) jsval);
  numRows : N;
}.

(** An HTTP response as far as the store reads it. *)
Record Response := {
  resp_ok : bool;
  resp_status : N;
  resp_text : jsstring;
}.

(** The outside world of one action: what each awaited or platform call
    yields. [w_JSON_parse] gives the parsed value, any JSON value, or what
    [JSON.parse] throws; [w_TypeError_read v name] is the message of the
    [TypeError] thrown when property [name] is read from [v], a [null] or
    an [undefined]; [w_ToString] is the conversion of a number or an object
    to a string, which may throw for an object. *)
Record World := {
  w_randomUUID : jsstring;
  w_now : N;
  w_query : jsstring -> completion ArrowTable;
  w_fetch : jsstring -> jsstring -> jsstring -> completion Response;
  w_btoa : jsstring -> completion jsstring;
  w_JSON_parse : jsstring -> completion jsval;
  w_TypeError_read : jsval -> jsstring -> jsstring;
  w_ToString : jsval -> completion jsstring;
  w_fetchWasmDatabases : completion (list DatabaseInfo);
  w_close : completion unit;
  w_terminate : completion unit;
  w_newDate : jsval -> jsval;
  w_toLocaleDateString : jsval -> jsstring;
}.

(** The effects an action leaves behind, in order. *)
Inductive event :=
| EvQuery (sqltext : jsstring)
| EvFetch (url authorization body : jsstring)
| EvSchemaRefresh
| EvClose
| EvTerminate
| EvToastSuccess (msg : jsstring)
| EvToastError (msg : jsstring).

(** ** Actions as state-passing computations that may throw *)

Definition Eff (A : Type) : Type :=
  DuckStoreState -> completion A * DuckStoreState * list event.

Definition ret {A} (a : A) : Eff A := fun s => (Normal a, s, []).

Definition bind {A B} (m : Eff A) (k : A -> Eff B) : Eff B :=
  fun s =>
    match m s with
    | (Normal a, s1, t1) => let '(r, s2, t2) := k a s1 in (r, s2, t1 ++ t2)
    | (Throw e, s1, t1) => (Throw e, s1, t1)
    end.

Definition throw {A} (e : thrown) : Eff A := fun s => (Throw e, s, []).

(** [get()] and [set(state => ...)]. *)
Definition get : Eff DuckStoreState := fun s => (Normal s, s, []).

Definition set (f : DuckStoreState -> DuckStoreState) : Eff unit :=
  fun s => (Normal tt, f s, []).

Definition emit (e : event) : Eff unit := fun s => (Normal tt, s, [e]).

(** An awaited call whose outcome the world decides. *)
Definition await {A} (c : completion A) : Eff A := fun s => (c, s, []).

(** [try { body } catch (error) { handler }]. *)
Definition try_catch {A} (body : Eff A) (handler : thrown -> Eff A) : Eff A :=
  fun s =>
    match body s with
    | (Normal a, s1, t1) => (Normal a, s1, t1)
    | (Throw e, s1, t1) => let '(r, s2, t2) := handler e s1 in (r, s2, t1 ++ t2)
    end.

(** [try { body } finally { fin }]: [fin] always runs; the completion of
    [body] stands unless [fin] itself throws. *)
Definition try_finally {A} (body : Eff A) (fin : Eff unit) : Eff A :=
  fun s =>
    let '(r, s1, t1) := body s in
    match fin s1 with
    | (Normal _, s2, t2) => (r, s2, t1 ++ t2)
    | (Throw e, s2, t2) => (Throw e, s2, t1 ++ t2)
    end.

Declare Scope eff_scope.
Delimit Scope eff_scope with eff.
Bind Scope eff_scope with Eff.
Notation "x <- m ;; k" := (bind m (fun x => k))
  (at level 100, m at next level, right associativity) : eff_scope.
Notation "m ;; k" := (bind m (fun _ => k))
  (at level 100, right associativity) : eff_scope.

(** The three observations of a finished action. *)
Definition outcome {A} (r : completion A * DuckStoreState * list event) : completion A := r.1.1.
Definition final {A} (r : completion A * DuckStoreState * list event) : DuckStoreState := r.1.2.
Definition trace {A} (r : completion A * DuckStoreState * list event) : list event := r.2.

(** ** Helper functions *)

Section Actions.
Variable w : World.
#[local] Open Scope eff_scope.

(** [validateConnection]: the connection must exist and have a [query]
    function. *)
Definition validateConnection (c : option AsyncDuckDBConnection)
  : completion AsyncDuckDBConnection :=
  match c with
  | Some conn =>
      if conn_has_query conn then Normal conn
      else Throw (ErrorObj (js "Database connection is not valid"))
  | None => Throw (ErrorObj (js "Database connection is not valid"))
  end.

(** [v.name] for one of the names the store reads ([meta], [data], [rows],
    [name], [type]; no built-in prototype defines them): a [TypeError] on
    [null] and [undefined], with the platform's message; the own property
    of a plain object; [undefined] in every other case. *)
Definition get_named (v : jsval) (name : jsstring) : completion jsval :=
  match v with
  | VUndefined | VNull => Throw (ErrorObj (w_TypeError_read w v name))
  | VObj props => Normal (default VUndefined (props !! name))
  | _ => Normal VUndefined
  end.

(** [v[index]] for an index [0, 1, ...]: a [TypeError] on [null] and
    [undefined]; the element of an array; the code unit of a string, as a
    string; the own property of a plain object named by the index in
    decimal; [undefined] when there is none, and on any other value. *)
Definition get_index (v : jsval) (index : nat) : completion jsval :=
  match v with
  | VUndefined | VNull => Throw (ErrorObj (w_TypeError_read w v (js (pretty index))))
  | VArr cells => Normal (default VUndefined (cells !! index))
  | VStr s => Normal (from_option (fun c => VStr [c]) VUndefined (s !! index))
  | VObj props => Normal (default VUndefined (props !! js (pretty index)))
  | _ => Normal VUndefined
  end.

(** [ToPropertyKey]: a string is its own key; numbers and objects are
    converted by the platform, which may throw for an object. *)
Definition toPropertyKey (v : jsval) : completion jsstring :=
  match v with
  | VStr s => Normal s
  | VUndefined => Normal (js "undefined")
  | VNull => Normal (js "null")
  | VBool true => Normal (js "true")
  | VBool false => Normal (js "false")
  | _ => w_ToString w v
  end.

(** One row object of [rawResultToJSON]: [rowObject[col] = row[index]] for
    every column in turn, on an object that starts as [{}]. The right-hand
    side is read before the key is converted; the first exception ends the
    loop. *)
Definition assign_cell (row : jsval) (acc : completion PlainObject) (col : jsval)
    (index : nat) : completion PlainObject :=
  and_then acc (fun rowObject =>
  and_then (get_index row index) (fun cell =>
  and_then (toPropertyKey col) (fun key =>
  Normal (assign rowObject key cell)))).

Definition rowObject_of (columns : list jsval) (row : jsval) : completion PlainObject :=
  forEachi (assign_cell row) columns (Normal empty_object).

(** [rawResultToJSON]: the remote envelope as a [QueryResult]; any failure
    is rethrown with the prefix of the catch block. *)
Definition rawResultToJSON (rawResult : jsstring) : completion QueryResult :=
  let body :=
    and_then (w_JSON_parse w rawResult) (fun parsed =>
    and_then (get_named parsed (js "meta")) (fun meta =>
    and_then (get_named parsed (js "data")) (fun data_ =>
    if negb (truthy_value meta) || negb (truthy_value data_)
       || negb (isArray meta) || negb (isArray data_)
    then Throw (ErrorObj (js "Invalid raw result format: meta or data are missing or have the wrong format"))
    else
      and_then (map_throwing (fun m => get_named m (js "name")) (elements meta)) (fun columns =>
      and_then (map_throwing (fun m => get_named m (js "type")) (elements meta)) (fun columnTypes =>
      and_then (map_throwing (rowObject_of columns) (elements data_)) (fun rowObjects =>
      and_then (get_named parsed (js "rows")) (fun rows =>
      let data := own <$> rowObjects in
      Normal {| columns := columns;
                columnTypes := columnTypes;
                data := data;
                rowCount := if truthy_value rows then rows
                            else N.of_nat (length data);
                qr_error := None |}))))))) in
  match body with
  | Normal r => Normal r
  | Throw e => Throw (ErrorObj (js "Failed to parse raw result: " ++ error_message e))
  end.

(** The per-field step of [resultToJSON]: temporal columns are
    materialised, null and undefined cells are left alone. *)
Definition convert_field (jsonRow : gmap (list N) jsval) (field : Field)
  : gmap (list N) jsval :=
  let col := f_name field in
  let type := f_type field in
  match jsonRow !! col with
  | None | Some VNull | Some VUndefined => jsonRow
  | Some value =>
      let '(value, jsonRow) :=
        if bool_decide (type = js "Date32<DAY>")
        then let v := VStr (w_toLocaleDateString w (w_newDate w value)) in
             (v, <[col := v]> jsonRow)
        else (value, jsonRow) in
      if bool_decide (type = js "Date64<MILLISECOND>")
         || bool_decide (type = js "Timestamp<MICROSECOND>")
      then <[col := w_newDate w value]> jsonRow
      else jsonRow
  end.

(** [resultToJSON]: the embedded engine's result as a [QueryResult]. *)
Definition resultToJSON (result : ArrowTable) : QueryResult :=
  let data :=
    (fun jsonRow => fold_left convert_field (schema_fields result) jsonRow)
      <$> table_rows result in
  {| columns := VStr ∘ f_name <$> schema_fields result;
     columnTypes := VStr ∘ f_type <$> schema_fields result;
     data := data;
     rowCount := numRows result;
     qr_error := None |}.

(** [`${connection.host}:${connection.port}/`]. *)
Definition endpoint_url (c : ConnectionProvider) : jsstring :=
  tmpl (c_host c) ++ js ":" ++ tmpl (js ∘ pretty <$> c_port c) ++ js "/".

(** [btoa(`${connection.user}:${connection.password}`)]. *)
Definition basic_credentials (c : ConnectionProvider) : jsstring :=
  tmpl (c_user c) ++ js ":" ++ tmpl (c_password c).

(** The POST request both remote paths send. *)
Definition post (c : ConnectionProvider) (body : jsstring) : Eff Response :=
  authHeader <- await (w_btoa w (basic_credentials c));;
  let authorization := js "Basic " ++ authHeader in
  emit (EvFetch (endpoint_url c) authorization body);;
  await (w_fetch w (endpoint_url c) authorization body).

(** [executeExternalQuery]. *)
Definition executeExternalQuery (query : jsstring) (c : CurrentConnection)
  : Eff QueryResult :=
  if negb (truthy_opt (c_host c))
     || match c_port c with Some p => (p =? 0)%N | None => true end
  then throw (ErrorObj (js "Host and port must be defined for external connections."))
  else
    response <- post c query;;
    if negb (resp_ok response)
    then throw (ErrorObj (js "HTTP error! Status: " ++ js (pretty (resp_status response))
                          ++ js ", Message: " ++ resp_text response))
    else await (rawResultToJSON (resp_text response)).

(** [testExternalConnection]: the liveness probe. *)
Definition testExternalConnection (c : ConnectionProvider) : Eff unit :=
  response <- post c (js "SELECT 1");;
  if negb (resp_ok response)
  then throw (ErrorObj (js "Connection test failed! Status: "
                        ++ js (pretty (resp_status response))
                        ++ js ", Message: " ++ resp_text response))
  else ret tt.

(** [updateHistory]. The new item carries an [error] only for a truthy
    [errorMsg]. *)
Definition updateHistory (currentHistory : list QueryHistoryItem)
    (query : jsstring) (errorMsg : option jsstring) : list QueryHistoryItem :=
  let newItem :=
    {| h_id := w_randomUUID w;
       h_query := query;
       h_timestamp := w_now w;
       h_error := if truthy_opt errorMsg then errorMsg else None |} in
  let existingIndex :=
    findIndex (fun item => bool_decide (h_query item = query)) currentHistory in
  let newHistory :=
    match existingIndex with
    | Some i =>
        newItem :: filteri (fun _ idx => negb (bool_decide (idx = i))) currentHistory
    | None => newItem :: currentHistory
    end in
  take 15 newHistory.

(** [fetchWasmDatabases]: the introspection queries are the engine's
    business; their joint outcome is the world's. *)
Definition fetchWasmDatabases (c : AsyncDuckDBConnection) : Eff (list DatabaseInfo) :=
  emit (EvQuery (js "PRAGMA database_list"));;
  await (w_fetchWasmDatabases w).

Definition is_external (c : option CurrentConnection) : bool :=
  match c with
  | Some cc => match c_scope cc with External => true | WASM => false end
  | None => false
  end.

(** ** Store actions *)

(** [fetchDatabasesAndTablesInfo]: never throws; a failure is recorded in
    [error]. *)
Definition fetchDatabasesAndTablesInfo : Eff unit :=
  emit EvSchemaRefresh;;
  s0 <- get;;
  try_finally
    (try_catch
       (set (fun s => with_error None (with_isLoadingDbTablesFetch true s));;
        dbs <- (if is_external (currentConnection s0) then ret []
                else wasmConnection <- await (validateConnection (connection s0));;
                     fetchWasmDatabases wasmConnection);;
        set (fun s => with_error None (with_databases dbs s)))
       (fun error =>
          set (with_error (Some (js "Failed to load schema: " ++ error_message error)))))
    (set (with_isLoadingDbTablesFetch false)).

(** [/^(CREATE|ALTER|DROP|ATTACH)/i.test(query.trim())]. *)
Definition isDDL (query : jsstring) : bool :=
  test_prefix_alt [js "CREATE"; js "ALTER"; js "DROP"; js "ATTACH"] (trim query).

(** [tabs.map(tab => tab.id === tabId ? { ...tab, result } : tab)]. *)
Definition attach_result (tabId : option jsstring) (r : QueryResult) (tab : EditorTab)
  : EditorTab :=
  if bool_decide (Some (tab_id tab) = tabId)
  then {| tab_id := tab_id tab; tab_title := tab_title tab; tab_type := tab_type tab;
          tab_content := tab_content tab; tab_result := Some r |}
  else tab.

(** The routing of [executeQuery] (the [if]/[else] on
    [currentConnection?.scope]): the remote path for an external
    connection, the embedded engine otherwise. [s0] is the state read by
    the [get()] at the top of [executeQuery]. *)
Definition dispatchQuery (s0 : DuckStoreState) (query : jsstring) : Eff QueryResult :=
  let viaWasm :=
    wasmConnection <- await (validateConnection (connection s0));;
    emit (EvQuery query);;
    result <- await (w_query w query);;
    ret (resultToJSON result) in
  match currentConnection s0 with
  | Some cc =>
      match c_scope cc with
      | External => executeExternalQuery query cc
      | WASM => viaWasm
      end
  | None => viaWasm
  end.

(** [executeQuery(query, tabId?)]; [None] is the [undefined] it resolves to. *)
Definition executeQuery (query : jsstring) (tabId : option jsstring)
  : Eff (option QueryResult) :=
  s0 <- get;;
  try_catch
    (set (fun s => with_error None (with_isExecuting true s));;
     queryResult <- dispatchQuery s0 query;;
     set (fun state =>
            with_isExecuting false
              (with_tabs (attach_result tabId queryResult <$> tabs state)
                 (with_queryHistory (updateHistory (queryHistory state) query None) state)));;
     (if isDDL query then fetchDatabasesAndTablesInfo else ret tt);;
     ret (if truthy_opt tabId then None else Some queryResult))
    (fun error =>
       let errorMessage := error_message error in
       let errorResult :=
         {| columns := []; columnTypes := []; data := []; rowCount := 0%N;
            qr_error := Some errorMessage |} in
       set (fun state =>
              with_error (Some errorMessage)
                (with_isExecuting false
                   (with_tabs (attach_result tabId errorResult <$> tabs state)
                      (with_queryHistory
                         (updateHistory (queryHistory state) query (Some errorMessage))
                         state))));;
       ret None).

(** [createTab(type = "sql", content, title)]: appended and activated. *)
Definition createTab (type : EditorTabType) (content : TabContent)
    (title : option jsstring) : Eff unit :=
  let newTab :=
    {| tab_id := w_randomUUID w;
       tab_title := default (js "Untitled Query") title;
       tab_type := type; tab_content := content; tab_result := None |} in
  set (fun state =>
         with_activeTabId (Some (tab_id newTab)) (with_tabs (tabs state ++ [newTab]) state)).

(** [updatedTabs[0]?.id || null]. *)
Definition first_id_or_null (updatedTabs : list EditorTab) : option jsstring :=
  match head updatedTabs with
  | Some t => if truthy (tab_id t) then Some (tab_id t) else None
  | None => None
  end.

(** [closeTab(tabId)]. *)
Definition closeTab (tabId : jsstring) : Eff unit :=
  set (fun state =>
         let updatedTabs := filter (fun tab => tab_id tab <> tabId) (tabs state) in
         if bool_decide (length updatedTabs = 0)
         then
           let newTab :=
             {| tab_id := w_randomUUID w; tab_title := js "Query 1"; tab_type := sql;
                tab_content := ContentText []; tab_result := None |} in
           with_activeTabId (Some (tab_id newTab)) (with_tabs [newTab] state)
         else
           let newActiveTabId :=
             if bool_decide (activeTabId state = Some tabId)
             then first_id_or_null updatedTabs
             else activeTabId state in
           with_activeTabId newActiveTabId (with_tabs updatedTabs state)).

(** [setActiveTab(tabId)]. *)
Definition setActiveTab (tabId : jsstring) : Eff unit :=
  set (with_activeTabId (Some tabId)).

(** [moveTab(oldIndex, newIndex)], on the array it stores back into [tabs]:
    a copy of the tabs, one element spliced out at [oldIndex] and the first
    removed element spliced in at [newIndex]. A slot is [None] where the
    array holds [undefined], which is what [movedTab] is when the first
    splice removed nothing. *)
Definition moveTab (tabs : list EditorTab) (oldIndex newIndex : Z)
  : completion (list (option EditorTab)) :=
  let newTabs := Some <$> tabs in
  let '(removed, newTabs) := splice newTabs oldIndex 1 [] in
  let movedTab := default None (head removed) in
  let '(_, newTabs) := splice newTabs newIndex 0 [movedTab] in
  Normal newTabs.

(** [clearHistory()]. *)
Definition clearHistory : Eff unit := set (with_queryHistory []).

(** [cleanup()]: the handles are released inside [try], the session state
    is reset inside [finally]. *)
Definition cleanup : Eff unit :=
  s0 <- get;;
  try_finally
    ((match connection s0 with
      | Some _ => emit EvClose;; await (w_close w)
      | None => ret tt
      end);;
     (match db s0 with
      | Some _ => emit EvTerminate;; await (w_terminate w)
      | None => ret tt
      end))
    (set (fun s =>
            with_currentConnection None
              (with_activeTabId (Some (js "home"))
                 (with_tabs [home_tab]
                    (with_queryHistory []
                       (with_error None
                          (with_currentDatabase (js "memory")
                             (with_databases []
                                (with_isInitialized false
                                   (with_connection None (with_db None s))))))))))).

(** [addConnection(connection)]: every failure is caught, stored in [error]
    and shown as a toast. *)
Definition addConnection (c : ConnectionProvider) : Eff unit :=
  try_catch
    (set (fun s => with_error None (with_isLoadingExternalConnection true s));;
     s1 <- get;;
     (if existsb (fun c' => bool_decide (c_name c' = c_name c)) (connectionList s1)
      then throw (ErrorObj (js "A connection with the name " ++ [0x22%N] ++ c_name c
                            ++ [0x22%N] ++ js " already exists."))
      else ret tt);;
     (match c_scope c with
      | External => testExternalConnection c
      | WASM => ret tt
      end);;
     set (fun state => with_connectionList (connectionList state ++ [c]) state);;
     emit (EvToastSuccess (js "Connection " ++ [0x22%N] ++ c_name c ++ [0x22%N]
                           ++ js " added successfully!")))
    (fun error =>
       set (with_error (Some (js "Failed to add connection: " ++ error_message error)));;
       emit (EvToastError (js "Failed to add connection: " ++ error_message error))).

(** [updateConnection(connection)]. *)
Definition updateConnection (c : ConnectionProvider) : Eff unit :=
  set (fun state =>
         with_connectionList
           ((fun c' => if bool_decide (c_id c' = c_id c) then c else c')
              <$> connectionList state)
           state).

(** [deleteConnection(id)]. *)
Definition deleteConnection (id : jsstring) : Eff unit :=
  set (fun state =>
         with_connectionList (filter (fun c => c_id c <> id) (connectionList state)) state).

(** [getConnection(connectionId)]. *)
Definition getConnection (connectionId : jsstring) (s : DuckStoreState)
  : option ConnectionProvider :=
  snd <$> list_find (fun c => c_id c = connectionId) (connectionList s).

End Actions.

End Store.
Import Store.

(** ** The Connections page ([src/pages/Connections.tsx])

    The page is the only caller of [updateConnection] and
    [deleteConnection]. Each row of the table carries an edit and a delete
    control, both rendered with [disabled={connection.id === "WASM"}]. *)

Module Connections.

Definition controls_disabled (row : ConnectionProvider) : bool :=
  bool_decide (c_id row = js "WASM").

(** The delete control of a row, followed by the confirmation of the
    dialog: [deleteConnection(connection.id)]. A disabled control opens no
    dialog. *)
Definition confirm_delete (row : ConnectionProvider) : Eff unit :=
  if controls_disabled row then ret tt else deleteConnection (c_id row).

(** The edit control of a row ([onEdit(connection.id)]) followed by the
    submission of the form: [handleUpdateConnection] sends the form values
    under the id of the row being edited. *)
Definition handleUpdateConnection (editingConnectionId : jsstring)
    (values : ConnectionProvider) : Eff unit :=
  updateConnection
    {| c_id := editingConnectionId; c_name := c_name values; c_scope := c_scope values;
       c_host := c_host values; c_port := c_port values; c_user := c_user values;
       c_password := c_password values; c_database := c_database values;
       c_authMode := c_authMode values |}.

Definition submit_edit (row values : ConnectionProvider) : Eff unit :=
  if controls_disabled row then ret tt else handleUpdateConnection (c_id row) values.

End Connections.

(** ** The file importer ([src/components/explorer/FileImporter.tsx]) *)

Module FileImporter.

Definition MAX_CONCURRENT_UPLOADS : nat := 3.

Inductive Status := Pending | Uploading | Processing | Success | Error.

Record File := {
  file_name : jsstring;
  file_size : N;
}.

Record FileImportState := {
  fileName : option jsstring;
  status : Status;
  progress : option N;
  fis_error : option jsstring;
}.

Record UploadError := {
  ue_message : jsstring;
  ue_file : option jsstring;
}.

(** The React state cells of the component. *)
Record Importer := {
  files : list File;
  tableNames : gmap (list N) (list N);
  isUploading : bool;
  errors : list UploadError;
  importStates : gmap (list N) FileImportState;
  isSheetOpen : bool;
}.

Definition with_importStates v (c : Importer) : Importer :=
  {| files := files c; tableNames := tableNames c; isUploading := isUploading c;
     errors := errors c; importStates := v; isSheetOpen := isSheetOpen c |}.
Definition with_errors v (c : Importer) : Importer :=
  {| files := files c; tableNames := tableNames c; isUploading := isUploading c;
     errors := v; importStates := importStates c; isSheetOpen := isSheetOpen c |}.
Definition with_isUploading v (c : Importer) : Importer :=
  {| files := files c; tableNames := tableNames c; isUploading := v;
     errors := errors c; importStates := importStates c; isSheetOpen := isSheetOpen c |}.

(** [tableNameSchema.parse]: a string, trimmed, non-empty, made of letters,
    digits and underscores; otherwise the message of the first issue. *)
Definition tableNameSchema_parse (v : option jsstring) : jsstring + jsstring :=
  match v with
  | None => inl (js "Required")
  | Some s =>
      let t := trim s in
      if negb (truthy t) then inl (js "Table name cannot be empty")
      else if negb (test_word t)
           then inl (js "Table name can only contain letters, numbers, and underscores")
           else inr t
  end.

(** [updateImportState(fileName, state)] with the two shapes of [state] the
    handler passes: [{status}] and [{status, error}]. The previous entry is
    spread first, so its other fields survive. *)
Definition updateImportState (fileName_ : jsstring) (st : Status)
    (err : option jsstring) (c : Importer) : Importer :=
  let prev := importStates c !! fileName_ in
  with_importStates
    (<[fileName_ :=
         {| fileName := prev ≫= fileName;
            status := st;
            progress := prev ≫= progress;
            fis_error := match err with
                         | Some e => Some e
                         | None => prev ≫= fis_error
                         end |}]> (importStates c))
    c.

Definition push_error (msg : jsstring) (file : option jsstring) (c : Importer) : Importer :=
  with_errors (errors c ++ [{| ue_message := msg; ue_file := file |}]) c.

(** Where the async callback of one file is suspended. *)
Inductive pc :=
| AwaitArrayBuffer
| AwaitImportFile
| Settled.

Record Task := {
  task_file : File;
  task_pc : pc;
}.

(** The callback of [files.map(async (file) => ...)] up to its first
    [await]: an async function runs synchronously until then. [closure]
    holds the [importStates] and [tableNames] of the render the handler was
    created in; [live] is the state the updates are applied to. *)
Definition start_upload (closure : Importer) (live : Importer) (file : File)
  : Importer * Task :=
  let settled := {| task_file := file; task_pc := Settled |} in
  match status <$> (importStates closure !! file_name file) with
  | Some Success => (live, settled)
  | _ =>
      match tableNameSchema_parse (tableNames closure !! file_name file) with
      | inl errorMessage =>
          (updateImportState (file_name file) Error (Some errorMessage)
             (push_error errorMessage (Some (file_name file)) live),
           settled)
      | inr _ =>
          (updateImportState (file_name file) Processing None live,
           {| task_file := file; task_pc := AwaitArrayBuffer |})
      end
  end.

(** [files.map(callback)]: the callbacks are started one after the other,
    each one up to its first [await]. *)
Fixpoint map_async (closure live : Importer) (fs : list File) : Importer * list Task :=
  match fs with
  | [] => (live, [])
  | file :: fs' =>
      let '(live1, t) := start_upload closure live file in
      let '(live2, ts) := map_async closure live1 fs' in
      (live2, t :: ts)
  end.

(** The loop [for (i = 0; i < n; i += MAX_CONCURRENT_UPLOADS)] that slices
    the promises into chunks; [fuel] bounds the number of iterations. *)
Fixpoint chunk_loop {A} (fuel i : nat) (uploadPromises : list A) : list (list A) :=
  match fuel with
  | 0 => []
  | S fuel' =>
      if bool_decide (i < length uploadPromises)
      then take MAX_CONCURRENT_UPLOADS (drop i uploadPromises)
           :: chunk_loop fuel' (i + MAX_CONCURRENT_UPLOADS) uploadPromises
      else []
  end.

Definition concurrencyQueue {A} (uploadPromises : list A) : list (list A) :=
  chunk_loop (length uploadPromises) 0 uploadPromises.

(** A run of [handleFileUpload]: the live state and the promises. *)
Record Run := {
  live : Importer;
  uploadPromises : list Task;
}.

(** [handleFileUpload] up to [await Promise.all(concurrencyQueue)]. The
    chunks are built from promises that [files.map] has already started;
    building them starts nothing and changes no state. *)
Definition handleFileUpload (c : Importer) : Run :=
  let '(live1, promises) := map_async c (with_errors [] (with_isUploading true c)) (files c) in
  let _ := concurrencyQueue promises in
  {| live := live1; uploadPromises := promises |}.

(** The continuation of a task when the promise it awaits settles. *)
Definition fail_task (file : File) (e : thrown) (c : Importer) : Importer :=
  let errorMessage := error_message e in
  push_error errorMessage
    (if bool_decide (errorMessage = js "File processing aborted") then None
     else Some (file_name file))
    (updateImportState (file_name file) Error (Some errorMessage) c).

Definition settle (i : nat) (t : Task) (next : pc) (r : Run) (c : Importer) : Run :=
  {| live := c;
     uploadPromises := <[i := {| task_file := task_file t; task_pc := next |}]> (uploadPromises r) |}.

(** One turn of the event loop: some awaited promise settles and its task
    runs to its next suspension point. *)
Inductive step : Run -> Run -> Prop :=
| arrayBuffer_fulfilled r i t :
    uploadPromises r !! i = Some t -> task_pc t = AwaitArrayBuffer ->
    step r (settle i t AwaitImportFile r (live r))
| arrayBuffer_rejected r i t e :
    uploadPromises r !! i = Some t -> task_pc t = AwaitArrayBuffer ->
    step r (settle i t Settled r (fail_task (task_file t) e (live r)))
| importFile_fulfilled r i t :
    uploadPromises r !! i = Some t -> task_pc t = AwaitImportFile ->
    step r (settle i t Settled r (updateImportState (file_name (task_file t)) Success None (live r)))
| importFile_rejected r i t e :
    uploadPromises r !! i = Some t -> task_pc t = AwaitImportFile ->
    step r (settle i t Settled r (fail_task (task_file t) e (live r))).

(** The instants of a run of [handleFileUpload] on [c]. *)
Inductive reachable (c : Importer) : Run -> Prop :=
| reach_start : reachable c (handleFileUpload c)
| reach_step r r' : reachable c r -> step r r' -> reachable c r'.

(** A job is in flight while its status is [uploading] or [processing]. *)
Definition busy (st : FileImportState) : bool :=
  match status st with
  | Uploading | Processing => true
  | _ => false
  end.

Definition in_flight (c : Importer) : nat :=
  size (filter (fun kv => busy kv.2 = true) (importStates c)).

(** The component once [onFileChange] has accepted the files [fs]: every
    file pending, under the table names [names] (the derived defaults or
    what the user typed over them). *)
Definition pending_state (f : File) : FileImportState :=
  {| fileName := Some (file_name f); status := Pending; progress := None;
     fis_error := None |}.

Definition submitted (fs : list File) (names : list jsstring) : Importer :=
  {| files := fs;
     tableNames := list_to_map (zip (file_name <$> fs) names);
     isUploading := false;
     errors := [];
     importStates := list_to_map ((fun f => (file_name f, pending_state f)) <$> fs);
     isSheetOpen := true |}.

(** Ten valid files, [f0.csv] to [f9.csv], of 500 KB each. *)
Definition ten_names : list jsstring :=
  (fun d => js "f" ++ [d]) <$> [0x30; 0x31; 0x32; 0x33; 0x34; 0x35; 0x36; 0x37; 0x38; 0x39]%N.

Definition ten_files : list File :=
  (fun n => {| file_name := n ++ js ".csv"; file_size := 512000%N |}) <$> ten_names.

Definition ten_submitted : Importer := submitted ten_files ten_names.

End FileImporter.

Import FileImporter Connections.

(** ** Vocabulary of the statements *)

(** Most recent first: no entry is older than one that follows it. *)
Definition newer_first (a b : QueryHistoryItem) : Prop :=
  (h_timestamp b <= h_timestamp a)%N.

(** The ledger invariant: one entry per query text, most recent first. *)
Definition ledger (h : list QueryHistoryItem) : Prop :=
  NoDup (h_query <$> h) /\ StronglySorted newer_first h.

(** The entry [updateHistory] creates. *)
Definition new_entry (w : World) (query : jsstring) (errorMsg : option jsstring)
  : QueryHistoryItem :=
  {| h_id := w_randomUUID w; h_query := query; h_timestamp := w_now w;
     h_error := if truthy_opt errorMsg then errorMsg else None |}.

(** The ledgers the store can hold: the empty one, and any ledger after one
    more recorded query, the clock never running backwards. *)
Inductive recorded : list QueryHistoryItem -> Prop :=
| recorded_empty : recorded []
| recorded_update w h q err :
    recorded h ->
    Forall (fun it => (h_timestamp it <= w_now w)%N) h ->
    recorded (updateHistory w h q err).

(** Worlds for the examples. In [world0] every call to the engine or to the
    network is rejected, the handles are released without trouble, and the
    platform functions are placeholders ([btoa] hands its argument back). *)
Definition world0 : World :=
  {| w_randomUUID := js "uuid-0"; w_now := 1000%N;
     w_query := fun _ => Throw NonError;
     w_fetch := fun _ _ _ => Throw NonError;
     w_btoa := fun s => Normal s;
     w_JSON_parse := fun _ => Throw NonError;
     w_TypeError_read := fun _ name => js "Cannot read properties of null (reading '" ++ name ++ js "')";
     w_ToString := fun _ => Normal (js "[object Object]");
     w_fetchWasmDatabases := Normal [];
     w_close := Normal tt; w_terminate := Normal tt;
     w_newDate := fun v => v; w_toLocaleDateString := fun _ => js "1/1/1970" |}.



(** What the backend call of [executeQuery] yields in state [s]: the
    normalised result of a successful call, or what a failing call throws. *)
Definition query_outcome (w : World) (s : DuckStoreState) (query : jsstring)
  : completion QueryResult :=
  outcome (dispatchQuery w s query s).

(** The result [executeQuery] builds for a failure with message [msg]. *)
Definition error_result (msg : jsstring) : QueryResult :=
  {| columns := []; columnTypes := []; data := []; rowCount := 0%N;
     qr_error := Some msg |}.

(** The number of schema refreshes an action triggers. *)
Definition is_refresh (e : event) : bool :=
  match e with
  | EvSchemaRefresh => true
  | _ => false
  end.

Definition refreshes (t : list event) : nat := length (List.filter is_refresh t).

(** The number of HTTP requests an action sends. *)
Definition is_fetch (e : event) : bool :=
  match e with
  | EvFetch _ _ _ => true
  | _ => false
  end.

Definition requests (t : list event) : nat := length (List.filter is_fetch t).

(** A session connected to the embedded engine. *)
Definition connected_state : DuckStoreState :=
  with_currentConnection (Some wasm_descriptor)
    (with_isInitialized true
       (with_connection (Some {| conn_handle := 1%N; conn_has_query := true |})
          (with_db (Some {| db_handle := 1%N |}) initial_state))).

(** A world whose engine answers every query with an empty table and whose
    schema introspection fails. *)
Definition empty_table : ArrowTable :=
  {| schema_fields := []; table_rows := []; numRows := 0%N |}.

Definition world_ok : World :=
  {| w_randomUUID := js "uuid-0"; w_now := 1000%N;
     w_query := fun _ => Normal empty_table;
     w_fetch := w_fetch world0; w_btoa := w_btoa world0;
     w_JSON_parse := w_JSON_parse world0;
     w_TypeError_read := w_TypeError_read world0; w_ToString := w_ToString world0;
     w_fetchWasmDatabases := Throw (ErrorObj (js "catalog unavailable"));
     w_close := w_close world0; w_terminate := w_terminate world0;
     w_newDate := w_newDate world0;
     w_toLocaleDateString := w_toLocaleDateString world0 |}.


(** A keyword none of whose characters is matched by a whitespace
    character. *)
Definition solid (kw : jsstring) : Prop :=
  Forall (fun k => isWhiteSpace (canonicalize k) = false) kw.

(** The alternatives of the DDL pattern. *)
Definition ddl_keywords : list jsstring :=
  [js "CREATE"; js "ALTER"; js "DROP"; js "ATTACH"].

(** The session-scoped part of the state at its initial values. *)
Definition session_reset (s : DuckStoreState) : Prop :=
  db s = None /\ connection s = None /\ isInitialized s = false /\
  databases s = [] /\ queryHistory s = [] /\
  tabs s = [home_tab] /\ activeTabId s = Some (js "home") /\
  currentDatabase s = js "memory" /\ currentConnection s = None /\
  error s = None.

(** A world whose handles refuse to be released. *)
Definition world_stuck : World :=
  {| w_randomUUID := js "uuid-0"; w_now := 1000%N;
     w_query := w_query world0; w_fetch := w_fetch world0; w_btoa := w_btoa world0;
     w_JSON_parse := w_JSON_parse world0;
     w_TypeError_read := w_TypeError_read world0; w_ToString := w_ToString world0;
     w_fetchWasmDatabases := w_fetchWasmDatabases world0;
     w_close := Throw (ErrorObj (js "connection busy"));
     w_terminate := Throw (ErrorObj (js "worker gone"));
     w_newDate := w_newDate world0;
     w_toLocaleDateString := w_toLocaleDateString world0 |}.

(** The message [addConnection] stores and toasts for a name already taken. *)
Definition duplicate_name_error (name : jsstring) : jsstring :=
  js "Failed to add connection: "
  ++ (js "A connection with the name " ++ [0x22%N] ++ name ++ [0x22%N]
      ++ js " already exists.").

(** A remote descriptor under a given id and name. *)
Definition remote_descriptor (id name : jsstring) : ConnectionProvider :=
  {| c_id := id; c_name := name; c_scope := External;
     c_host := Some (js "http://localhost"); c_port := Some 8123%N;
     c_user := Some (js "duck"); c_password := Some (js "secret");
     c_database := None; c_authMode := Some (js "password") |}.

(** The tab [closeTab] creates when it would otherwise leave none. *)
Definition default_query_tab (w : World) : EditorTab :=
  {| tab_id := w_randomUUID w; tab_title := js "Query 1"; tab_type := sql;
     tab_content := ContentText []; tab_result := None |}.

(** Tab ids are ["home"] or UUIDs, never the empty string. *)
Definition tab_ids_nonempty (ts : list EditorTab) : Prop :=
  Forall (fun t => tab_id t <> []) ts.

(** A remote envelope of two columns and two rows, the second row one cell
    short, and a world whose [JSON.parse] yields it. *)
Definition meta_entry (name type : jsstring) : jsval :=
  VObj {[ js "name" := VStr name; js "type" := VStr type ]}.

Definition envelope2 : jsval :=
  VObj {[ js "meta" := VArr [meta_entry (js "id") (js "Int32");
                             meta_entry (js "name") (js "String")];
          js "data" := VArr [VArr [VNum 1; VStr (js "duck")]; VArr [VNum 2]];
          js "rows" := VNum 2 ]}.

Definition world_remote : World :=
  {| w_randomUUID := js "uuid-0"; w_now := 1000%N;
     w_query := w_query world0;
     w_fetch := fun _ _ _ => Normal {| resp_ok := true; resp_status := 200%N;
                                       resp_text := js "{...}" |};
     w_btoa := w_btoa world0;
     w_JSON_parse := fun _ => Normal envelope2;
     w_TypeError_read := w_TypeError_read world0; w_ToString := w_ToString world0;
     w_fetchWasmDatabases := w_fetchWasmDatabases world0;
     w_close := w_close world0; w_terminate := w_terminate world0;
     w_newDate := w_newDate world0;
     w_toLocaleDateString := w_toLocaleDateString world0 |}.

(** A remote envelope with a column named [__proto__]: the parsed form of
    [{"meta": [{"name": "__proto__", "type": "Int32"},
               {"name": "id", "type": "Int32"}],
      "data": [[1, 2]], "rows": 1}],
    what the endpoint answers to [SELECT 1 AS "__proto__", 2 AS id]; and a
    world whose [JSON.parse] yields it. *)
Definition envelope_proto : jsval :=
  VObj {[ js "meta" := VArr [meta_entry (js "__proto__") (js "Int32");
                             meta_entry (js "id") (js "Int32")];
          js "data" := VArr [VArr [VNum 1; VNum 2]];
          js "rows" := VNum 1 ]}.

Definition world_proto : World :=
  {| w_randomUUID := js "uuid-0"; w_now := 1000%N;
     w_query := w_query world0;
     w_fetch := fun _ _ _ => Normal {| resp_ok := true; resp_status := 200%N;
                                       resp_text := js "{...}" |};
     w_btoa := w_btoa world0;
     w_JSON_parse := fun _ => Normal envelope_proto;
     w_TypeError_read := w_TypeError_read world0; w_ToString := w_ToString world0;
     w_fetchWasmDatabases := w_fetchWasmDatabases world0;
     w_close := w_close world0; w_terminate := w_terminate world0;
     w_newDate := w_newDate world0;
     w_toLocaleDateString := w_toLocaleDateString world0 |}.

(** A batch of one file. *)
Definition one_submitted : Importer :=
  submitted [{| file_name := js "sales.csv"; file_size := 512000%N |}] [js "sales"].

(** A batch ready for upload: distinct file names, no job in flight and
    none already imported, every table name accepted by the schema. *)
Definition ready (c : Importer) : Prop :=
  NoDup (file_name <$> files c) /\
  (forall k st, importStates c !! k = Some st -> busy st = false) /\
  Forall (fun f =>
            status <$> (importStates c !! file_name f) <> Some Success /\
            exists t, tableNameSchema_parse (tableNames c !! file_name f) = inr t)
         (files c).

(** Closes a goal [exists r t, refreshes t = 0 /\ forall s', m s' = (r, s', t)]
    once [m] has been reduced to a single result. *)
Ltac pure_result :=
  eexists _, _; split; [|intros; reflexivity]; reflexivity.

(** ** The rest of the store: boot, connection switch, tables, tabs *)

Module Session.

(** What the platform decides beyond [World]: the boot of the embedded
    engine ([selectBundle] up to [db.connect()]), which rejection a
    [Promise.all] reports when several promises reject, the virtual file
    system of the engine, the cell [toArray()[0][0]] of a result, and the
    message of the [TypeError] raised by a call on something that is not a
    function. Calls to the file system leave no event in the trace. *)
Record Engine := {
  e_boot : completion (AsyncDuckDB * AsyncDuckDBConnection);
  e_first_rejection : list thrown -> thrown;
  e_dropFile : jsstring -> completion unit;
  e_registerFileBuffer : jsstring -> list N -> completion unit;
  e_first_cell : ArrowTable -> completion jsval;
  e_not_a_function : jsstring;
  e_toLowerCase : jsstring -> jsstring;
}.

#[global] Instance EditorTabType_eq_dec : EqDecision EditorTabType.
Proof. solve_decision. Defined.

Definition with_isLoading v s :=
  {| db := db s; connection := connection s; isInitialized := isInitialized s;
     currentDatabase := currentDatabase s; currentConnection := currentConnection s;
     connectionList := connectionList s; databases := databases s;
     queryHistory := queryHistory s; isExecuting := isExecuting s; tabs := tabs s;
     activeTabId := activeTabId s; isLoading := v; error := error s;
     isLoadingDbTablesFetch := isLoadingDbTablesFetch s;
     isLoadingExternalConnection := isLoadingExternalConnection s |}.

Section Actions.
Variable w : World.
Variable en : Engine.
#[local] Open Scope eff_scope.

(** [Promise.all] over promises that are already running: the values when
    all fulfil, else one of the rejections. *)
Definition rejections {A} (cs : list (completion A)) : list thrown :=
  omap (fun c => match c with Throw e => Some e | Normal _ => None end) cs.

Definition fulfilments {A} (cs : list (completion A)) : list A :=
  omap (fun c => match c with Normal a => Some a | Throw _ => None end) cs.

Definition promise_all {A} (cs : list (completion A)) : completion (list A) :=
  match rejections cs with
  | [] => Normal (fulfilments cs)
  | e :: es => Throw (e_first_rejection en (e :: es))
  end.

(** [connection.query(sql)] on a connection that has not been validated. *)
Definition query (c : AsyncDuckDBConnection) (sqltext : jsstring) : Eff ArrowTable :=
  if conn_has_query c
  then emit (EvQuery sqltext);; await (w_query w sqltext)
  else throw (ErrorObj (e_not_a_function en)).

(** [Promise.all(sqls.map(sql => connection.query(sql)))]: every query is
    sent before any answer is awaited. *)
Definition query_all (c : AsyncDuckDBConnection) (sqls : list jsstring)
  : Eff (list ArrowTable) :=
  if conn_has_query c
  then
    fold_right (fun sqltext k => emit (EvQuery sqltext);; k) (ret tt) sqls;;
    await (promise_all (w_query w <$> sqls))
  else throw (ErrorObj (e_not_a_function en)).

(** [initializeWasmConnection]. *)
Definition initializeWasmConnection : Eff (AsyncDuckDB * AsyncDuckDBConnection) :=
  booted <- await (e_boot en);;
  _ <- await (validateConnection (Some booted.2));;
  _ <- query_all booted.2 [js "INSTALL excel"; js "LOAD excel"];;
  ret booted.

(** [initialize()]. *)
Definition initialize : Eff unit :=
  state <- get;;
  if isInitialized state then ret tt
  else
    try_catch
      (set (fun s => with_error None (with_isLoading true s));;
       booted <- initializeWasmConnection;;
       set (fun s =>
              with_currentConnection (Some wasm_descriptor)
                (with_currentDatabase (js "memory")
                   (with_isLoading false
                      (with_isInitialized true
                         (with_connection (Some booted.2)
                            (with_db (Some booted.1) s))))));;
       fetchDatabasesAndTablesInfo w)
      (fun error =>
         set (fun s =>
                with_connection None
                  (with_db None
                     (with_isInitialized false
                        (with_isLoading false
                           (with_error
                              (Some (js "Initialization failed: " ++ error_message error))
                              s)))))).

(** The common part of the [try] block of [setCurrentConnection]: which
    handle the descriptor is served by. *)
Definition connection_for (provider : ConnectionProvider)
  : Eff (option AsyncDuckDBConnection) :=
  match c_scope provider with
  | WASM =>
      s <- get;;
      if negb (isInitialized s)
      then
        booted <- initializeWasmConnection;;
        set (fun s =>
               with_currentDatabase (js "memory")
                 (with_isInitialized true
                    (with_connection (Some booted.2) (with_db (Some booted.1) s))));;
        _ <- query_all booted.2
               [js "SET enable_http_metadata_cache=true"; js "INSTALL arrow";
                js "INSTALL parquet"];;
        ret (Some booted.2)
      else
        s' <- get;;
        ret (connection s')
  | External =>
      set (with_isLoading true);;
      s' <- get;;
      ret (connection s')
  end.

(** [setCurrentConnection(connectionId)]. *)
Definition setCurrentConnection (connectionId : jsstring) : Eff unit :=
  try_finally
    (try_catch
       (set (with_isLoading true);;
        s <- get;;
        match list_find (fun c => c_id c = connectionId) (connectionList s) with
        | None =>
            throw (ErrorObj (js "Connection with ID " ++ connectionId ++ js " not found."))
        | Some (_, connectionProvider) =>
            newConnection <- connection_for connectionProvider;;
            match newConnection with
            | Some nc =>
                set (fun s =>
                       with_isLoading false
                         (with_currentConnection
                            (Some {| c_id := c_id connectionProvider;
                                     c_name := c_name connectionProvider;
                                     c_scope := c_scope connectionProvider;
                                     c_host := c_host connectionProvider;
                                     c_port := c_port connectionProvider;
                                     c_user := c_user connectionProvider;
                                     c_password := c_password connectionProvider;
                                     c_database := c_database connectionProvider;
                                     c_authMode := c_authMode connectionProvider |})
                            (with_connection (Some nc) s)));;
                fetchDatabasesAndTablesInfo w;;
                emit (EvToastSuccess (js "Connected to " ++ c_name connectionProvider))
            | None => throw (ErrorObj (js "Failed to establish a new connection."))
            end
        end)
       (fun error =>
          set (fun s =>
                 with_isLoading false
                   (with_error
                      (Some (js "Failed to set current connection: " ++ error_message error))
                      s))))
    (set (with_isLoading false)).

(** [try { await db.dropFile(fileName); } catch {}]. *)
Definition dropFile_quietly (fileName_ : jsstring) : Eff unit :=
  try_catch (await (e_dropFile en fileName_)) (fun _ => ret tt).

(** The three statements [importFile] sends, as the template literals
    spell them. *)
Definition attach_sql (fileName_ tableName : jsstring) : jsstring :=
  js "ATTACH DATABASE '" ++ fileName_ ++ js "' AS " ++ tableName.

Definition create_sql (fileName_ tableName fileType : jsstring) : jsstring :=
  [0xA%N] ++ js "              CREATE OR REPLACE TABLE " ++ [0x22%N] ++ tableName
  ++ [0x22%N] ++ js " AS " ++ [0xA%N]
  ++ js "              SELECT * FROM read_" ++ e_toLowerCase en fileType
  ++ js "('" ++ fileName_ ++ js "')" ++ [0xA%N] ++ js "            ".

Definition verify_sql (tableName database : jsstring) : jsstring :=
  [0xA%N] ++ js "              SELECT COUNT(*) AS count " ++ [0xA%N]
  ++ js "              FROM information_schema.tables " ++ [0xA%N]
  ++ js "              WHERE table_name = '" ++ tableName ++ js "'" ++ [0xA%N]
  ++ js "                AND table_schema = '" ++ database ++ js "'" ++ [0xA%N]
  ++ js "            ".

(** [importFile(fileName, fileContent, tableName, fileType, database)]. *)
Definition importFile (fileName_ : jsstring) (fileContent : list N)
    (tableName fileType database : jsstring) : Eff unit :=
  try_catch
    (s <- get;;
     match db s, connection s with
     | Some _, Some conn =>
         dropFile_quietly fileName_;;
         await (e_registerFileBuffer en fileName_ fileContent);;
         if bool_decide (fileType = js "duckdb")
         then
           _ <- query conn (attach_sql fileName_ tableName);;
           fetchDatabasesAndTablesInfo w
         else
           _ <- query conn (create_sql fileName_ tableName fileType);;
           verification <- query conn (verify_sql tableName database);;
           count <- await (e_first_cell en verification);;
           (match count with
            | VNum 0 => throw (ErrorObj (js "Table creation verification failed"))
            | _ => ret tt
            end);;
           fetchDatabasesAndTablesInfo w
     | _, _ => throw (ErrorObj (js "Database not initialized"))
     end)
    (fun error =>
       fetchDatabasesAndTablesInfo w;;
       throw (ErrorObj (js "Import failed: " ++ error_message error))).

(** [deleteTable(tableName, database)]. *)
Definition drop_sql (tableName database : jsstring) : jsstring :=
  js "DROP TABLE IF EXISTS " ++ [0x22%N] ++ database ++ [0x22%N] ++ js "."
  ++ [0x22%N] ++ tableName ++ [0x22%N].

Definition deleteTable (tableName database : jsstring) : Eff unit :=
  try_catch
    (s <- get;;
     conn <- await (validateConnection (connection s));;
     set (with_isLoading true);;
     emit (EvQuery (drop_sql tableName database));;
     _ <- await (w_query w (drop_sql tableName database));;
     fetchDatabasesAndTablesInfo w;;
     set (with_isLoading false))
    (fun error =>
       set (fun s =>
              with_error (Some (js "Failed to delete table: " ++ error_message error))
                (with_isLoading false s));;
       throw error).

(** [updateTabQuery(tabId, query)]: only the content of a query tab. *)
Definition updateTabQuery (tabId query_ : jsstring) : Eff unit :=
  set (fun state =>
         with_tabs
           ((fun tab =>
               if bool_decide (tab_id tab = tabId)
                  && match tab_type tab with sql => true | home => false end
               then {| tab_id := tab_id tab; tab_title := tab_title tab;
                       tab_type := tab_type tab; tab_content := ContentText query_;
                       tab_result := tab_result tab |}
               else tab) <$> tabs state)
           state).

(** [updateTabTitle(tabId, title)]. *)
Definition updateTabTitle (tabId title : jsstring) : Eff unit :=
  set (fun state =>
         with_tabs
           ((fun tab =>
               if bool_decide (tab_id tab = tabId)
               then {| tab_id := tab_id tab; tab_title := title;
                       tab_type := tab_type tab; tab_content := tab_content tab;
                       tab_result := tab_result tab |}
               else tab) <$> tabs state)
           state).

(** [closeAllTabs()]: the [set] cannot throw, so the success toast always
    follows. *)
Definition closeAllTabs : Eff unit :=
  set (fun state =>
         with_activeTabId (Some (js "home"))
           (with_tabs (filter (fun tab => tab_type tab = home) (tabs state)) state));;
  emit (EvToastSuccess (js "All tabs closed successfully!")).

End Actions.

(** [partialize]: what is persisted, the tabs without their results. *)
Definition strip_result (tab : EditorTab) : EditorTab :=
  {| tab_id := tab_id tab; tab_title := tab_title tab; tab_type := tab_type tab;
     tab_content := tab_content tab; tab_result := None |}.

Record Snapshot := {
  p_queryHistory : list QueryHistoryItem;
  p_databases : list DatabaseInfo;
  p_tabs : list EditorTab;
  p_currentDatabase : jsstring;
  p_currentConnection : option CurrentConnection;
  p_connectionList : list ConnectionProvider;
}.

Definition partialize (state : DuckStoreState) : Snapshot :=
  {| p_queryHistory := queryHistory state;
     p_databases := databases state;
     p_tabs := strip_result <$> tabs state;
     p_currentDatabase := currentDatabase state;
     p_currentConnection := currentConnection state;
     p_connectionList := connectionList state |}.

End Session.
Import Session.

(** ** The rest of the file importer: intake, removal, retry, the end of a run *)

Module Intake.

Definition MAX_FILE_SIZE : N := (2 * 1024 * 1024 * 1024)%N.

Definition SUPPORTED_FILE_EXTENSIONS : list jsstring :=
  [js "csv"; js "json"; js "parquet"; js "arrow"; js "duckdb"].

(** The string before and the string after the last ["."], if there is one. *)
Fixpoint split_last_dot (s : jsstring) : option (jsstring * jsstring) :=
  match s with
  | [] => None
  | c :: s' =>
      match split_last_dot s' with
      | Some (pre, suf) => Some (c :: pre, suf)
      | None => if (c =? 0x2E)%N then Some ([], s') else None
      end
  end.

(** [name.split(".").pop()]: what follows the last dot, the whole name when
    it has no dot. *)
Definition last_segment (s : jsstring) : jsstring :=
  match split_last_dot s with
  | Some (_, suf) => suf
  | None => s
  end.

(** [name.replace(/\.[^/.]+$/, "")]: a final dot followed by at least one
    character, none of them a slash, is cut off. *)
Definition strip_extension (s : jsstring) : jsstring :=
  match split_last_dot s with
  | Some (pre, suf) =>
      if truthy suf && forallb (fun c => negb (c =? 0x2F)%N) suf then pre else s
  | None => s
  end.

(** [.replace(/[^a-zA-Z0-9_]/g, "_")]. *)
Definition sanitize (s : jsstring) : jsstring :=
  (fun c => if isWordChar c then c else 0x5F%N) <$> s.

(** What [String.prototype.toLowerCase] does to a letter, digit or
    underscore. *)
Definition ascii_lower (c : N) : N :=
  if ((0x41 <=? c) && (c <=? 0x5A))%N then (c + 0x20)%N else c.

Definition with_files v (c : Importer) : Importer :=
  {| files := v; tableNames := tableNames c; isUploading := isUploading c;
     errors := errors c; importStates := importStates c; isSheetOpen := isSheetOpen c |}.
Definition with_tableNames v (c : Importer) : Importer :=
  {| files := files c; tableNames := v; isUploading := isUploading c;
     errors := errors c; importStates := importStates c; isSheetOpen := isSheetOpen c |}.
Definition with_isSheetOpen v (c : Importer) : Importer :=
  {| files := files c; tableNames := tableNames c; isUploading := isUploading c;
     errors := errors c; importStates := importStates c; isSheetOpen := v |}.

(** The component when the sheet opens. *)
Definition empty_importer : Importer :=
  {| files := []; tableNames := ∅; isUploading := false; errors := [];
     importStates := ∅; isSheetOpen := true |}.

Section Platform.
(** [String.prototype.toLowerCase]. *)
Variable toLowerCase : jsstring -> jsstring.

(** The default table name of a file. *)
Definition default_table_name (name : jsstring) : jsstring :=
  toLowerCase (sanitize (strip_extension name)).

Definition extension_of (file : File) : jsstring :=
  toLowerCase (last_segment (file_name file)).

(** [validateFile(file)]; [formatFileSize(MAX_FILE_SIZE)] is ["2 GB"]. *)
Definition validateFile (file : File) : list UploadError :=
  let extension := extension_of file in
  (if negb (truthy extension)
      || negb (bool_decide (extension ∈ SUPPORTED_FILE_EXTENSIONS))
   then [{| ue_message := js "Unsupported file type: ." ++ extension;
            ue_file := Some (file_name file) |}]
   else [])
  ++ (if (MAX_FILE_SIZE <? file_size file)%N
      then [{| ue_message := js "File exceeds maximum size of 2 GB";
               ue_file := Some (file_name file) |}]
      else []).

(** The [forEach] of [onFileChange]: errors of the rejected files, and the
    accepted files, both in the order of arrival. *)
Fixpoint sort_files (newFiles : list File) (newErrors : list UploadError)
    (validFiles : list File) : list UploadError * list File :=
  match newFiles with
  | [] => (newErrors, validFiles)
  | file :: rest =>
      match validateFile file with
      | [] => sort_files rest newErrors (validFiles ++ [file])
      | fileErrors => sort_files rest (newErrors ++ fileErrors) validFiles
      end
  end.

(** [onFileChange(newFiles)]. *)
Definition onFileChange (newFiles : list File) (c : Importer) : Importer :=
  let '(newErrors, validFiles) := sort_files newFiles [] [] in
  let newTableNames : gmap (list N) (list N) :=
    fold_left (fun acc file => <[file_name file := default_table_name (file_name file)]> acc)
              validFiles ∅ in
  let initialImportStates : gmap (list N) FileImportState :=
    fold_left (fun acc file => <[file_name file := pending_state file]> acc)
              validFiles ∅ in
  with_importStates (initialImportStates ∪ importStates c)
    (with_tableNames (newTableNames ∪ tableNames c)
       (with_files (files c ++ validFiles)
          (with_errors newErrors c))).

End Platform.

(** [removeFile(fileName)]. *)
Definition removeFile (fileName_ : jsstring) (c : Importer) : Importer :=
  with_importStates (delete fileName_ (importStates c))
    (with_errors (filter (fun e => ue_file e <> Some fileName_) (errors c))
       (with_tableNames (delete fileName_ (tableNames c))
          (with_files (filter (fun file => file_name file <> fileName_) (files c)) c))).

(** [retryFileUpload(fileName)]. *)
Definition retryFileUpload (fileName_ : jsstring) (c : Importer) : Importer :=
  let prev := importStates c !! fileName_ in
  with_importStates
    (<[fileName_ := {| fileName := prev ≫= fileName; status := Pending;
                       progress := prev ≫= progress; fis_error := None |}]>
       (importStates c))
    c.

(** The memo [allFilesSuccess]. *)
Definition allFilesSuccess (c : Importer) : bool :=
  if bool_decide (length (files c) = 0) then false
  else forallb (fun file =>
                  match status <$> (importStates c !! file_name file) with
                  | Some Success => true
                  | _ => false
                  end)
               (files c).

(** All the promises of a run have settled: [Promise.all] fulfils. *)
Definition all_settled (r : Run) : Prop :=
  Forall (fun t => task_pc t = Settled) (uploadPromises r).

(** [handleFileUpload] after [await Promise.all(concurrencyQueue)]: the
    sheet is closed and the queue cleared when [allFilesSuccess] held in
    the render the handler comes from; [isUploading] is reset in any
    case. *)
Definition finish (closure : Importer) (lv : Importer) : Importer :=
  with_isUploading false
    (if allFilesSuccess closure
     then with_tableNames ∅ (with_files [] (with_isSheetOpen false lv))
     else lv).

End Intake.
Import Intake.

(** ** Vocabulary of the further statements *)

(** The number of statements an action sends to the embedded engine. *)
Definition is_engine_query (e : event) : bool :=
  match e with
  | EvQuery _ => true
  | _ => false
  end.

Definition engine_queries (t : list event) : nat :=
  length (List.filter is_engine_query t).

(** The field types [resultToJSON] materialises. *)
Definition temporal (type : jsstring) : Prop :=
  type = js "Date32<DAY>" \/ type = js "Date64<MILLISECOND>"
  \/ type = js "Timestamp<MICROSECOND>".

(** An initialized session holds both handles, and its connection can be
    queried. *)
Definition handles_ready (s : DuckStoreState) : Prop :=
  isInitialized s = true ->
  is_Some (db s) /\ exists c, connection s = Some c /\ conn_has_query c = true.

(** The active tab is one of the tabs. *)
Definition active_tab_exists (s : DuckStoreState) : Prop :=
  exists t, t ∈ tabs s /\ activeTabId s = Some (tab_id t).

(** [null] or [undefined]. *)
Definition nullish (v : jsval) : bool :=
  match v with
  | VNull | VUndefined => true
  | _ => false
  end.

(** The own property of a plain object; [undefined] when it has none of
    that name, and on every other value. *)
Definition property (v : jsval) (name : jsstring) : jsval :=
  match v with
  | VObj props => default VUndefined (props !! name)
  | _ => VUndefined
  end.

(** A [meta] entry whose [name] is a string. *)
Definition named_entry (m : jsval) : Prop :=
  exists name, property m (js "name") = VStr name.

(** The message of [rawResultToJSON] about the format. *)
Definition format_message : jsstring :=
  js "Invalid raw result format: meta or data are missing or have the wrong format".

(** A world whose [JSON.parse] yields a given value, and an envelope of one
    column whose only row is [null]. *)
Definition world_parsing (parsed : jsval) : World :=
  {| w_randomUUID := js "uuid-0"; w_now := 1000%N;
     w_query := w_query world0; w_fetch := w_fetch world_remote;
     w_btoa := w_btoa world0;
     w_JSON_parse := fun _ => Normal parsed;
     w_TypeError_read := w_TypeError_read world0; w_ToString := w_ToString world0;
     w_fetchWasmDatabases := w_fetchWasmDatabases world0;
     w_close := w_close world0; w_terminate := w_terminate world0;
     w_newDate := w_newDate world0;
     w_toLocaleDateString := w_toLocaleDateString world0 |}.

Definition envelope_null_row : jsval :=
  VObj {[ js "meta" := VArr [meta_entry (js "id") (js "Int32")];
          js "data" := VArr [VNull] ]}.

(** A lower-case letter, a digit or an underscore. *)
Definition isLowerWordChar (c : N) : bool :=
  ((0x61 <=? c) && (c <=? 0x7A) || (0x30 <=? c) && (c <=? 0x39) || (c =? 0x5F))%N.

(** [toLowerCase] on strings of letters, digits and underscores. *)
Definition lowers_words (toLowerCase : jsstring -> jsstring) : Prop :=
  forall s, forallb isWordChar s = true -> toLowerCase s = ascii_lower <$> s.

(** A platform for the examples: ASCII lower-casing, an engine that boots,
    a file system that accepts every file. *)
Definition lower_ascii (s : jsstring) : jsstring := ascii_lower <$> s.

Definition engine0 : Engine :=
  {| e_boot := Normal ({| db_handle := 1%N |},
                       {| conn_handle := 1%N; conn_has_query := true |});
     e_first_rejection := fun es => default NonError (head es);
     e_dropFile := fun _ => Throw NonError;
     e_registerFileBuffer := fun _ _ => Normal tt;
     e_first_cell := fun _ => Normal (VNum 1);
     e_not_a_function := js "connection.query is not a function";
     e_toLowerCase := lower_ascii |}.

(** A registry with one remote descriptor beside the embedded one. *)
Definition two_connections : DuckStoreState :=
  with_connectionList [wasm_descriptor; remote_descriptor (js "id-1") (js "prod")]
    connected_state.

(** A session whose current connection is the remote descriptor. *)
Definition remote_state : DuckStoreState :=
  with_currentConnection (Some (remote_descriptor (js "id-1") (js "prod")))
    two_connections.

(** The request the remote path sends for [body] once [btoa] has encoded
    the credentials as [encoded]. *)
Definition request_of (c : ConnectionProvider) (encoded body : jsstring) : event :=
  EvFetch (endpoint_url c) (js "Basic " ++ encoded) body.

(** [!connection.host || !connection.port]. *)
Definition endpoint_missing (c : ConnectionProvider) : bool :=
  negb (truthy_opt (c_host c))
  || match c_port c with Some p => (p =? 0)%N | None => true end.

(** A result of one row with a date column and an integer column. *)
Definition dated_table : ArrowTable :=
  {| schema_fields := [ {| f_name := js "day"; f_type := js "Date32<DAY>" |};
                        {| f_name := js "n"; f_type := js "Int32" |} ];
     table_rows := [ {[ js "day" := VNum 19000; js "n" := VNum 7 ]} ];
     numRows := 1%N |}.

(** Descriptor names are unique. *)
Definition names_unique (s : DuckStoreState) : Prop :=
  NoDup (c_name <$> connectionList s).

(** A world whose endpoint answers every request with [200 OK]. *)
Definition world_online : World := world_remote.

(** The embedded descriptor under another id. *)
Definition local_descriptor (id name : jsstring) : ConnectionProvider :=
  {| c_id := id; c_name := name; c_scope := WASM;
     c_host := None; c_port := None; c_user := None; c_password := None;
     c_database := None; c_authMode := None |}.

(** A computation triggers [ok] schema refreshes when it completes and
    [err] before it throws, whatever the state it starts in. *)
Definition counts {A} (m : Eff A) (ok err : nat) : Prop :=
  forall s,
    match m s with
    | (Normal _, _, t) => refreshes t = ok
    | (Throw _, _, t) => refreshes t = err
    end.

(** A file passes the intake: its extension, lower-cased, is a supported
    one and its size is within the ceiling. *)
Definition passes (toLowerCase : jsstring -> jsstring) (file : File) : bool :=
  bool_decide (extension_of toLowerCase file ∈ SUPPORTED_FILE_EXTENSIONS)
  && (file_size file <=? MAX_FILE_SIZE)%N.

(** The messages of [tableNameSchema]. *)
Definition schema_messages : list jsstring :=
  [js "Required"; js "Table name cannot be empty";
   js "Table name can only contain letters, numbers, and underscores"].

(** The file of a given name in the examples. *)
Definition sales_csv : File := {| file_name := js "sales.csv"; file_size := 512000%N |}.

(** Counts the events of a trace that is known down to its elements. *)
Ltac count_events :=
  unfold engine_queries, requests, refreshes; simpl;
  repeat split; try done; try lia.

(** * Properties *)

(** ** Facts about the JavaScript built-ins *)

Section JsFacts.
Context {A : Type}.
Implicit Types (l : list A) (i k : nat).

Lemma filteri_from_keep_all k i l :
  k < i ->
  filteri_from (fun _ idx => negb (bool_decide (idx = k))) i l = l.
Proof.
  revert i. induction l as [|x l IH]; intros i Hik; simpl; [done|].
  case_bool_decide; [lia|]. simpl. f_equal. apply IH. lia.
Qed.

Lemma filteri_from_drop_index k i l :
  i <= k ->
  filteri_from (fun _ idx => negb (bool_decide (idx = k))) i l = delete (k - i) l.
Proof.
  revert i. induction l as [|x l IH]; intros i Hik; simpl; [done|].
  case_bool_decide as Heq; simpl.
  - subst i. rewrite Nat.sub_diag. simpl. apply filteri_from_keep_all. lia.
  - destruct (k - i) as [|n] eqn:Hd; [lia|].
    simpl. f_equal. rewrite IH by lia. f_equal. lia.
Qed.

Lemma filteri_drop_index k l :
  filteri (fun _ idx => negb (bool_decide (idx = k))) l = delete k l.
Proof.
  unfold filteri. rewrite filteri_from_drop_index by lia. f_equal. lia.
Qed.

Lemma findIndex_from_Some (p : A -> bool) i l k :
  findIndex_from p i l = Some k ->
  i <= k /\ exists x, l !! (k - i) = Some x /\ p x = true.
Proof.
  revert i. induction l as [|x l IH]; intros i; simpl; [done|].
  destruct (p x) eqn:Hp.
  - intros [= <-]. split; [lia|]. exists x. by rewrite Nat.sub_diag.
  - intros H. apply IH in H as [Hle (y & Hy & Hpy)]. split; [lia|].
    exists y. split; [|done].
    replace (k - i) with (S (k - S i)) by lia. done.
Qed.

Lemma findIndex_Some (p : A -> bool) l k :
  findIndex p l = Some k -> exists x, l !! k = Some x /\ p x = true.
Proof.
  intros H. apply findIndex_from_Some in H as [_ (x & Hx & Hp)].
  exists x. by rewrite Nat.sub_0_r in Hx.
Qed.

Lemma findIndex_from_None (p : A -> bool) i l :
  findIndex_from p i l = None -> Forall (fun x => p x = false) l.
Proof.
  revert i. induction l as [|x l IH]; intros i; simpl; [by constructor|].
  destruct (p x) eqn:Hp; [done|]. intros H. constructor; eauto.
Qed.

Lemma StronglySorted_sublist (R : A -> A -> Prop) l1 l2 :
  l1 `sublist_of` l2 -> StronglySorted R l2 -> StronglySorted R l1.
Proof.
  induction 1 as [|x l1 l2 Hsub IH|x l1 l2 Hsub IH]; intros Hs.
  - constructor.
  - apply StronglySorted_inv in Hs as [Hs Hall]. constructor; [by apply IH|].
    rewrite Forall_forall in Hall |- *.
    intros y Hy. apply Hall. by eapply elem_of_sublist.
  - apply StronglySorted_inv in Hs as [Hs _]. by apply IH.
Qed.

End JsFacts.

(** ** The history ledger *)

(** [updateHistory] puts the new entry in front of what is left of the old
    ledger once the entry of the same query text, if any, is taken out. *)
Lemma updateHistory_shape w h q err :
  exists rest,
    updateHistory w h q err = new_entry w q err :: rest /\
    rest `sublist_of` h /\
    (NoDup (h_query <$> h) -> q ∉ h_query <$> rest).
Proof.
  unfold updateHistory. fold (new_entry w q err).
  destruct (findIndex _ h) as [i|] eqn:Hfind.
  - rewrite filteri_drop_index. simpl. eexists. split; [done|]. split.
    + etrans; [apply sublist_take|apply sublist_delete].
    + intros Hnd Hin.
      apply findIndex_Some in Hfind as (x & Hx & Hq).
      apply bool_decide_eq_true in Hq.
      assert (q ∈ delete i (h_query <$> h)) as Hin'.
      { rewrite <- list_fmap_delete.
        eapply elem_of_sublist; [exact Hin|].
        apply fmap_sublist, sublist_take. }
      assert ((h_query <$> h) !! i = Some q) as Hi
        by (by rewrite list_lookup_fmap, Hx; simpl; rewrite Hq).
      pose proof (delete_Permutation _ _ _ Hi) as Hperm.
      rewrite Hperm in Hnd. apply NoDup_cons in Hnd as [Hni _]. done.
  - simpl. eexists. split; [done|]. split; [apply sublist_take|].
    intros _ Hin.
    apply findIndex_from_None in Hfind.
    apply list_elem_of_fmap in Hin as (x & -> & Hx).
    assert (x ∈ h) as Hxh by (eapply elem_of_sublist; [exact Hx|apply sublist_take]).
    rewrite Forall_forall in Hfind. apply Hfind in Hxh.
    by apply bool_decide_eq_false in Hxh.
Qed.

Lemma updateHistory_length w h q err : length (updateHistory w h q err) <= 15.
Proof. unfold updateHistory. rewrite length_take. lia. Qed.

(** The ledger invariant is kept, and the query text recorded occurs once. *)
Lemma updateHistory_keeps_ledger w h q err :
  ledger h ->
  Forall (fun it => (h_timestamp it <= w_now w)%N) h ->
  exists rest,
    updateHistory w h q err = new_entry w q err :: rest /\
    rest `sublist_of` h /\
    (q ∉ h_query <$> rest) /\
    ledger (new_entry w q err :: rest).
Proof.
  intros [Hnd Hsorted] Hclock.
  destruct (updateHistory_shape w h q err) as (rest & Heq & Hsub & Hfresh).
  specialize (Hfresh Hnd). exists rest. repeat split; try done.
  - simpl. apply NoDup_cons. split; [done|].
    eapply sublist_NoDup; [exact Hnd|by apply fmap_sublist].
  - constructor; [by eapply StronglySorted_sublist|].
    rewrite Forall_forall in Hclock |- *. intros y Hy.
    unfold newer_first. simpl. apply Hclock. by eapply elem_of_sublist.
Qed.

(** Every ledger the store can hold satisfies the invariant and the cap. *)
Lemma recorded_ledger h : recorded h -> ledger h /\ length h <= 15.
Proof.
  induction 1 as [|w h q err _ [IH _] Hclock].
  - split; [split; constructor|simpl; lia].
  - split; [|apply updateHistory_length].
    destruct (updateHistory_keeps_ledger w h q err IH Hclock) as (rest & -> & _ & _ & Hl).
    exact Hl.
Qed.





(** Without the invariant the cap still holds, and sixteen distinct queries
    leave fifteen entries. *)
Example updateHistory_cap :
  length (updateHistory world0
            ((fun n => {| h_id := [n]; h_query := [n]; h_timestamp := 0%N; h_error := None |})
               <$> [1; 2; 3; 4; 5; 6; 7; 8; 9; 10; 11; 12; 13; 14; 15]%N)
            (js "SELECT 16") None) = 15.
Proof. reflexivity. Qed.

(** ** Query execution *)

Section ExecuteQuery.
Variable w : World.

(** The routing leaves the store state alone, neither its completion nor
    its trace depends on the state it runs in, and it refreshes no schema. *)
Lemma executeExternalQuery_pure q cc :
  exists r t, refreshes t = 0 /\ forall s', executeExternalQuery w q cc s' = (r, s', t).
Proof.
  unfold executeExternalQuery.
  destruct (negb _ || _); [pure_result|].
  unfold post, bind, await, emit, throw.
  destruct (w_btoa w _); [|pure_result].
  destruct (w_fetch w _ _ _) as [resp|e]; [|pure_result].
  destruct (negb (resp_ok resp)); pure_result.
Qed.

Lemma dispatchQuery_pure s0 q :
  exists r t, refreshes t = 0 /\ forall s', dispatchQuery w s0 q s' = (r, s', t).
Proof.
  unfold dispatchQuery.
  assert (exists r t, refreshes t = 0 /\ forall s',
             (wasmConnection <- await (validateConnection (connection s0));;
              emit (EvQuery q);;
              result <- await (w_query w q);;
              ret (resultToJSON w result))%eff s' = (r, s', t)) as Hwasm.
  { unfold bind, await, emit, ret.
    destruct (validateConnection _); [|pure_result].
    destruct (w_query w q); pure_result. }
  destruct (currentConnection s0) as [cc|]; [|done].
  destruct (c_scope cc); [done|]. apply executeExternalQuery_pure.
Qed.

Lemma dispatchQuery_outcome s0 q s' :
  exists t, refreshes t = 0 /\ dispatchQuery w s0 q s' = (query_outcome w s0 q, s', t).
Proof.
  destruct (dispatchQuery_pure s0 q) as (r & t & Ht & H).
  exists t. unfold query_outcome. by rewrite !H.
Qed.

(** [fetchDatabasesAndTablesInfo] completes normally whatever the
    introspection does, and it counts as one refresh. *)
Lemma fetchDatabasesAndTablesInfo_total s :
  outcome (fetchDatabasesAndTablesInfo w s) = Normal tt /\
  refreshes (trace (fetchDatabasesAndTablesInfo w s)) = 1.
Proof.
  unfold fetchDatabasesAndTablesInfo, fetchWasmDatabases, try_finally, try_catch,
    bind, await, emit, set, get, ret.
  destruct (is_external _); [done|].
  destruct (validateConnection _); [|done].
  by destruct (w_fetchWasmDatabases w).
Qed.

(** A refresh touches neither the tabs nor the history. *)
Lemma fetchDatabasesAndTablesInfo_frame s :
  tabs (final (fetchDatabasesAndTablesInfo w s)) = tabs s /\
  queryHistory (final (fetchDatabasesAndTablesInfo w s)) = queryHistory s.
Proof.
  unfold fetchDatabasesAndTablesInfo, fetchWasmDatabases, try_finally, try_catch,
    bind, await, emit, set, get, ret.
  destruct (is_external _); [done|].
  destruct (validateConnection _); [|done].
  by destruct (w_fetchWasmDatabases w).
Qed.

(** The state [executeQuery] leaves behind after a failure with message
    [msg], and after a success with result [qr] before any refresh. *)
Lemma executeQuery_failure s q tabId e :
  query_outcome w s q = Throw e ->
  exists t,
    refreshes t = 0 /\
    executeQuery w q tabId s =
      (Normal None,
       with_error (Some (error_message e))
         (with_isExecuting false
            (with_tabs (attach_result tabId (error_result (error_message e)) <$> tabs s)
               (with_queryHistory
                  (updateHistory w (queryHistory s) q (Some (error_message e)))
                  (with_error None (with_isExecuting true s))))),
       t).
Proof.
  intros Hfail.
  unfold executeQuery, try_catch, bind, get, set, ret. simpl.
  destruct (dispatchQuery_outcome s q (with_error None (with_isExecuting true s)))
    as (t & Ht & ->).
  rewrite Hfail. simpl. eexists. split; [|reflexivity].
  by rewrite app_nil_r.
Qed.

Lemma executeQuery_success s q tabId qr :
  query_outcome w s q = Normal qr ->
  let recorded_state :=
    with_isExecuting false
      (with_tabs (attach_result tabId qr <$> tabs s)
         (with_queryHistory (updateHistory w (queryHistory s) q None)
            (with_error None (with_isExecuting true s)))) in
  outcome (executeQuery w q tabId s) = Normal (if truthy_opt tabId then None else Some qr) /\
  refreshes (trace (executeQuery w q tabId s)) = (if isDDL q then 1 else 0) /\
  final (executeQuery w q tabId s) =
    (if isDDL q then final (fetchDatabasesAndTablesInfo w recorded_state)
     else recorded_state).
Proof.
  intros Hok recorded_state.
  unfold executeQuery, try_catch, bind, get, set, ret. simpl.
  destruct (dispatchQuery_outcome s q (with_error None (with_isExecuting true s)))
    as (t & Ht & ->).
  rewrite Hok. simpl. fold recorded_state.
  destruct (isDDL q).
  - pose proof (fetchDatabasesAndTablesInfo_total recorded_state) as [Hout Hone].
    destruct (fetchDatabasesAndTablesInfo w recorded_state) as [[r s1] t1].
    unfold outcome, trace, final in *. simpl in *. subst r. simpl.
    repeat split; try done.
    unfold refreshes in *. rewrite !List.filter_app, !length_app. simpl. lia.
  - unfold outcome, trace, final. simpl. repeat split; try done.
    unfold refreshes in *. rewrite !List.filter_app, !length_app. simpl. lia.
Qed.

End ExecuteQuery.




(** [String.prototype.trim] matters to the DDL test only through the
    leading whitespace it removes. *)
Lemma isWhiteSpace_canonicalize c : isWhiteSpace c = true -> canonicalize c = c.
Proof.
  unfold isWhiteSpace, canonicalize. intros H.
  destruct ((0x61 <=? c)%N && (c <=? 0x7A)%N) eqn:Hl; [|done].
  apply andb_true_iff in Hl as [H1%N.leb_le H2%N.leb_le].
  repeat (apply orb_true_iff in H as [H|H]);
    repeat match goal with
           | H : (_ && _) = true |- _ => apply andb_true_iff in H as [? ?]
           | H : (_ <=? _)%N = true |- _ => apply N.leb_le in H
           | H : (_ =? _)%N = true |- _ => apply N.eqb_eq in H
           end; lia.
Qed.

Lemma prefix_ci_app_whitespace kw t ws :
  solid kw -> Forall (fun c => isWhiteSpace c = true) ws ->
  (t = [] \/ exists t' c, t = t' ++ [c] /\ isWhiteSpace c = false) ->
  prefix_ci kw (t ++ ws) = prefix_ci kw t.
Proof.
  intros Hkw Hws. revert t. induction Hkw as [|k kw Hk Hkw IH]; intros t Ht.
  - by destruct (t ++ ws), t.
  - destruct t as [|c t]; simpl.
    + destruct ws as [|c ws]; [done|]. simpl.
      apply Forall_cons in Hws as [Hc _].
      rewrite (isWhiteSpace_canonicalize c Hc).
      destruct (c =? canonicalize k)%N eqn:Heq; [|done].
      apply N.eqb_eq in Heq. congruence.
    + f_equal. apply IH. destruct Ht as [|(t' & c' & Ht & Hc')]; [done|].
      destruct t' as [|c'' t'']; simplify_eq/=; [by left|].
      right. by exists t'', c'.
Qed.

Lemma trimStart_split s :
  exists ws,
    s = ws ++ trimStart s /\
    Forall (fun c => isWhiteSpace c = true) ws /\
    (trimStart s = [] \/ exists c t, trimStart s = c :: t /\ isWhiteSpace c = false).
Proof.
  induction s as [|c s (ws & Hs & Hws & Hhead)]; simpl.
  - exists []. by auto.
  - destruct (isWhiteSpace c) eqn:Hc.
    + exists (c :: ws). split; [by rewrite Hs at 1|]. split; [by constructor|done].
    + exists []. split; [done|]. split; [constructor|]. right. by exists c, s.
Qed.

Lemma trimEnd_split s :
  exists ws,
    s = trimEnd s ++ ws /\
    Forall (fun c => isWhiteSpace c = true) ws /\
    (trimEnd s = [] \/ exists t c, trimEnd s = t ++ [c] /\ isWhiteSpace c = false).
Proof.
  unfold trimEnd.
  destruct (trimStart_split (rev s)) as (ws & Hs & Hws & Hhead).
  exists (rev ws). split; [|split].
  - rewrite <- rev_app_distr, <- Hs. by rewrite rev_involutive.
  - by apply List.Forall_rev.
  - destruct Hhead as [->|(c & t & -> & Hc)]; [by left|].
    right. exists (rev t), c. by simpl.
Qed.

Lemma ddl_keywords_solid : Forall solid ddl_keywords.
Proof. repeat constructor. Qed.

(** The DDL test sees the query with its leading whitespace removed. *)
Lemma isDDL_leading_whitespace q :
  isDDL q = test_prefix_alt ddl_keywords (trimStart q).
Proof.
  unfold isDDL, trim. fold ddl_keywords.
  destruct (trimEnd_split (trimStart q)) as (ws & Hs & Hws & Hend).
  unfold test_prefix_alt.
  pose proof ddl_keywords_solid as Hsolid.
  induction Hsolid as [|kw kws Hkw _ IH]; [done|]. simpl.
  rewrite IH. f_equal.
  rewrite Hs at 2. symmetry. by apply prefix_ci_app_whitespace.
Qed.

(** C7. For every successfully executed query text, [executeQuery] triggers
    exactly one schema refresh when the text, leading whitespace removed,
    starts with CREATE, ALTER, DROP or ATTACH in any letter case, and none
    otherwise; whatever the refresh does, the query still completes with
    its result (returned, or attached to the tab when [tabId] is given) and
    is recorded in the history without an error. *)
Theorem executeQuery_refreshes_schema_on_ddl w s q tabId qr :
  query_outcome w s q = Normal qr ->
  let r := executeQuery w q tabId s in
  refreshes (trace r) =
    (if test_prefix_alt ddl_keywords (trimStart q) then 1 else 0) /\
  outcome r = Normal (if truthy_opt tabId then None else Some qr) /\
  tabs (final r) = attach_result tabId qr <$> tabs s /\
  queryHistory (final r) = updateHistory w (queryHistory s) q None.
Proof.
  intros Hok r.
  destruct (executeQuery_success w s q tabId qr Hok) as (Hout & Href & Hfinal).
  rewrite <- isDDL_leading_whitespace.
  subst r. split; [done|]. split; [done|]. rewrite Hfinal.
  destruct (isDDL q); [|done].
  by destruct (fetchDatabasesAndTablesInfo_frame w
                 (with_isExecuting false
                    (with_tabs (attach_result tabId qr <$> tabs s)
                       (with_queryHistory (updateHistory w (queryHistory s) q None)
                          (with_error None (with_isExecuting true s)))))) as [-> ->].
Qed.

(** C7 at work: [CREATE TABLE t(x INT)] against an engine whose schema
    introspection fails. *)
Lemma executeQuery_refreshes_schema_on_ddl_witness :
  query_outcome world_ok connected_state (js "CREATE TABLE t(x INT)")
    = Normal (resultToJSON world_ok empty_table) /\
  refreshes (trace (executeQuery world_ok (js "CREATE TABLE t(x INT)") None connected_state)) = 1 /\
  outcome (executeQuery world_ok (js "CREATE TABLE t(x INT)") None connected_state)
    = Normal (Some (resultToJSON world_ok empty_table)).
Proof.
  split; [reflexivity|].
  pose proof (executeQuery_refreshes_schema_on_ddl world_ok connected_state
                (js "CREATE TABLE t(x INT)") None (resultToJSON world_ok empty_table)
                eq_refl) as H.
  simpl in H. destruct H as (Href & Hout & _).
  split; [exact Href|exact Hout].
Defined.

(** The two scenarios of the specification, and two variations. *)
Example create_table_refreshes_once :
  refreshes (trace (executeQuery world_ok (js "CREATE TABLE t(x INT)") None connected_state)) = 1.
Proof. reflexivity. Qed.

Example select_refreshes_never :
  refreshes (trace (executeQuery world_ok (js "SELECT 1") None connected_state)) = 0.
Proof. reflexivity. Qed.

Example indented_lowercase_drop_refreshes_once :
  refreshes (trace (executeQuery world_ok (js "  drop table t") None connected_state)) = 1.
Proof. reflexivity. Qed.

Example explain_create_refreshes_never :
  refreshes (trace (executeQuery world_ok (js "EXPLAIN CREATE TABLE t(x INT)") None
                      connected_state)) = 0.
Proof. reflexivity. Qed.

(** ** Cleanup *)

(** The state after [cleanup] is the same whatever the release of the
    handles does. *)
Lemma cleanup_final w s :
  final (cleanup w s) =
    with_currentConnection None
      (with_activeTabId (Some (js "home"))
         (with_tabs [home_tab]
            (with_queryHistory []
               (with_error None
                  (with_currentDatabase (js "memory")
                     (with_databases []
                        (with_isInitialized false
                           (with_connection None (with_db None s))))))))).
Proof.
  unfold cleanup, try_finally, bind, get, set, emit, await, ret, final. simpl.
  destruct (connection s); simpl.
  - destruct (w_close w); simpl; [|done].
    destruct (db s); simpl; [|done]. by destruct (w_terminate w).
  - destruct (db s); simpl; [|done]. by destruct (w_terminate w).
Qed.

(** C10. For every session state, [cleanup] resets the session state to its
    initial values (no [db], no [connection], not initialized, no
    databases, empty history, the single home tab, active, current database
    ["memory"], no current connection, no error) whether or not releasing
    the handles throws; and a second [cleanup] right after releases nothing,
    completes normally and leaves the state as it is. *)
Theorem cleanup_resets_session w s :
  let s' := final (cleanup w s) in
  session_reset s' /\
  forall w', cleanup w' s' = (Normal tt, s', []).
Proof.
  intros s'. subst s'. rewrite cleanup_final. split.
  - by repeat split.
  - intros w'. reflexivity.
Qed.

(** When the release throws, the exception leaves [cleanup] after the
    reset. *)
Example cleanup_reset_despite_throw :
  outcome (cleanup world_stuck connected_state) = Throw (ErrorObj (js "connection busy")) /\
  session_reset (final (cleanup world_stuck connected_state)).
Proof. split; [reflexivity|]. by repeat split. Qed.

(** ** The connection registry *)

(** C6. For every registry state and every descriptor whose name equals,
    code unit for code unit, the name of a descriptor already there,
    [addConnection] ends in the duplicate-name error (stored in [error] and
    shown as an error toast), sends no HTTP request at all, so no liveness
    probe either, and leaves the connection list unchanged; this for every
    scope of the descriptor and whatever the endpoint would have answered. *)
Theorem addConnection_duplicate_name w s c :
  (exists c', c' ∈ connectionList s /\ c_name c' = c_name c) ->
  let r := addConnection w c s in
  outcome r = Normal tt /\
  error (final r) = Some (duplicate_name_error (c_name c)) /\
  trace r = [EvToastError (duplicate_name_error (c_name c))] /\
  requests (trace r) = 0 /\
  connectionList (final r) = connectionList s.
Proof.
  intros (c' & Hin & Hname) r. subst r.
  unfold addConnection, try_catch, bind, get, set, emit, throw, ret,
    outcome, final, trace. simpl.
  assert (existsb (fun c'0 => bool_decide (c_name c'0 = c_name c)) (connectionList s) = true)
    as ->.
  { apply existsb_exists. exists c'. split; [by apply list_elem_of_In|].
    by apply bool_decide_eq_true. }
  by simpl.
Qed.

(** C6 at work: a remote descriptor named like the embedded one. *)
Lemma addConnection_duplicate_name_witness :
  (exists c', c' ∈ connectionList initial_state /\ c_name c' = js "WASM") /\
  requests (trace (addConnection world0 (remote_descriptor (js "id-1") (js "WASM"))
                     initial_state)) = 0 /\
  connectionList (final (addConnection world0 (remote_descriptor (js "id-1") (js "WASM"))
                           initial_state)) = [wasm_descriptor].
Proof.
  assert (exists c', c' ∈ connectionList initial_state /\ c_name c' = js "WASM") as Hdup.
  { exists wasm_descriptor. split; [left|reflexivity]. }
  split; [exact Hdup|].
  pose proof (addConnection_duplicate_name world0 initial_state
                (remote_descriptor (js "id-1") (js "WASM")) Hdup) as H.
  simpl in H. destruct H as (_ & _ & _ & Hreq & Hlist).
  split; [exact Hreq|exact Hlist].
Defined.

(** The comparison of names is exact: another letter case is another name,
    and a remote descriptor with a fresh name is probed before it is added. *)
Example addConnection_other_case :
  let r := addConnection world0 (remote_descriptor (js "id-1") (js "wasm")) initial_state in
  requests (trace r) = 1 /\
  error (final r) = Some (js "Failed to add connection: Unknown error") /\
  connectionList (final r) = [wasm_descriptor].
Proof. vm_compute. done. Qed.

(** C2 as stated fails: the store functions have no guard. On the initial
    registry, [deleteConnection("WASM")] leaves no descriptor at all, and
    [updateConnection] with a descriptor that carries the reserved id puts
    that descriptor in the place of the embedded one. *)
Lemma reserved_descriptor_unguarded :
  connectionList (final (deleteConnection (js "WASM") initial_state)) = [] /\
  connectionList (final (updateConnection (remote_descriptor (js "WASM") (js "prod"))
                           initial_state))
    = [remote_descriptor (js "WASM") (js "prod")].
Proof. split; reflexivity. Qed.

(** C2 (as amended). For every registry state containing the reserved
    embedded descriptor: [deleteConnection] and [updateConnection] called
    with any other id leave it present and unmodified; the controls of the
    Connections page, which are disabled on the row of id ["WASM"], leave it
    present and unmodified on every row; the store functions themselves do
    not guard the reserved id: called with it, [deleteConnection] removes
    every descriptor of that id and [updateConnection] replaces each of them
    by its argument. *)
Theorem embedded_descriptor_kept s d :
  d ∈ connectionList s -> c_id d = js "WASM" ->
  (forall id, id <> js "WASM" -> d ∈ connectionList (final (deleteConnection id s))) /\
  (forall c, c_id c <> js "WASM" -> d ∈ connectionList (final (updateConnection c s))) /\
  (forall row, d ∈ connectionList (final (confirm_delete row s))) /\
  (forall row values, d ∈ connectionList (final (submit_edit row values s))) /\
  (forall c', c' ∈ connectionList (final (deleteConnection (js "WASM") s)) ->
              c_id c' <> js "WASM") /\
  (forall c, c_id c = js "WASM" ->
             c ∈ connectionList (final (updateConnection c s)) /\
             forall c', c' ∈ connectionList (final (updateConnection c s)) ->
                        c_id c' = js "WASM" -> c' = c).
Proof.
  intros Hin Hid.
  assert (forall id, id <> js "WASM" ->
                     d ∈ connectionList (final (deleteConnection id s))) as Hdel.
  { intros id Hne. unfold deleteConnection, set, final. simpl.
    apply list_elem_of_filter. split; [congruence|done]. }
  assert (forall c, c_id c <> js "WASM" ->
                    d ∈ connectionList (final (updateConnection c s))) as Hupd.
  { intros c Hne. unfold updateConnection, set, final. simpl.
    apply list_elem_of_fmap. exists d. split; [|done].
    rewrite bool_decide_eq_false_2; [done|congruence]. }
  split; [exact Hdel|]. split; [exact Hupd|]. split; [|split; [|split]].
  - intros row. unfold confirm_delete, controls_disabled.
    case_bool_decide as Hrow; [done|]. by apply Hdel.
  - intros row values. unfold submit_edit, controls_disabled, handleUpdateConnection.
    case_bool_decide as Hrow; [done|]. by apply Hupd.
  - intros c'. unfold deleteConnection, set, final. simpl.
    intros [Hne _]%list_elem_of_filter. done.
  - intros c Hc. unfold updateConnection, set, final. simpl. split.
    + apply list_elem_of_fmap. exists d. split; [|done].
      rewrite bool_decide_eq_true_2; [done|congruence].
    + intros c' (c0 & -> & _)%list_elem_of_fmap. case_bool_decide; [done|congruence].
Qed.

(** C2 at work on a registry of two descriptors. *)
Lemma embedded_descriptor_kept_witness :
  wasm_descriptor ∈ [wasm_descriptor; remote_descriptor (js "id-1") (js "prod")] /\
  connectionList
    (final (deleteConnection (js "id-1")
              (with_connectionList
                 [wasm_descriptor; remote_descriptor (js "id-1") (js "prod")]
                 initial_state)))
    = [wasm_descriptor] /\
  wasm_descriptor ∈
    connectionList
      (final (confirm_delete wasm_descriptor
                (with_connectionList
                   [wasm_descriptor; remote_descriptor (js "id-1") (js "prod")]
                   initial_state))).
Proof.
  assert (wasm_descriptor ∈ [wasm_descriptor; remote_descriptor (js "id-1") (js "prod")])
    as Hin by left.
  split; [exact Hin|]. split; [reflexivity|].
  exact (proj1 (proj2 (proj2
           (embedded_descriptor_kept
              (with_connectionList
                 [wasm_descriptor; remote_descriptor (js "id-1") (js "prod")]
                 initial_state)
              wasm_descriptor Hin eq_refl))) wasm_descriptor).
Defined.

(** ** Tabs *)

Lemma tab_ids_nonempty_filter (P : EditorTab -> Prop) `{!forall t, Decision (P t)} ts :
  tab_ids_nonempty ts -> tab_ids_nonempty (filter P ts).
Proof.
  unfold tab_ids_nonempty. rewrite !Forall_forall.
  intros Hall t [_ Ht]%list_elem_of_filter. by apply Hall.
Qed.

(** The ids of the tabs stay non-empty as long as UUIDs are. *)
Lemma closeTab_ids_nonempty w s tabId :
  w_randomUUID w <> [] -> tab_ids_nonempty (tabs s) ->
  tab_ids_nonempty (tabs (final (closeTab w tabId s))).
Proof.
  intros Huuid Hs. unfold closeTab, set, final. simpl.
  case_bool_decide.
  - simpl. by repeat constructor.
  - simpl. by apply tab_ids_nonempty_filter.
Qed.

Lemma createTab_ids_nonempty w s type content title :
  w_randomUUID w <> [] -> tab_ids_nonempty (tabs s) ->
  tab_ids_nonempty (tabs (final (createTab w type content title s))).
Proof.
  intros Huuid Hs. unfold createTab, set, final. simpl.
  apply Forall_app. split; [done|]. by repeat constructor.
Qed.

Lemma initial_ids_nonempty : tab_ids_nonempty (tabs initial_state).
Proof. by repeat constructor. Qed.

(** C5. For every tab collection (whose tab ids are non-empty strings, as
    ["home"] and UUIDs are) and every [tabId], after [closeTab(tabId)] there
    is at least one tab: if the removal leaves none, the tabs are one fresh
    default query tab and it is the active one; otherwise the tabs are those
    of another id, in order, and if the closed tab was the active one the
    first of them becomes active, else the active tab stays. *)
Theorem closeTab_keeps_a_tab w s tabId :
  tab_ids_nonempty (tabs s) ->
  let s' := final (closeTab w tabId s) in
  let updatedTabs := filter (fun tab => tab_id tab <> tabId) (tabs s) in
  1 <= length (tabs s') /\
  (updatedTabs = [] ->
   tabs s' = [default_query_tab w] /\ activeTabId s' = Some (tab_id (default_query_tab w))) /\
  (updatedTabs <> [] ->
   tabs s' = updatedTabs /\
   (activeTabId s = Some tabId -> activeTabId s' = tab_id <$> head (tabs s')) /\
   (activeTabId s <> Some tabId -> activeTabId s' = activeTabId s)).
Proof.
  intros Hids s' updatedTabs. subst s'.
  unfold closeTab, set, final. simpl. fold updatedTabs.
  assert (tab_ids_nonempty updatedTabs) as Hupd by (by apply tab_ids_nonempty_filter).
  destruct updatedTabs as [|t ts] eqn:Hu; simpl.
  - split; [lia|]. split; [done|]. by intros [].
  - split; [lia|]. split; [done|]. intros _. split; [done|].
    case_bool_decide as Hactive; simpl.
    + split; [|done]. intros _. unfold first_id_or_null. simpl.
      apply Forall_cons in Hupd as [Ht _]. by destruct (tab_id t).
    + split; [done|]. done.
Qed.

(** C5 at work: closing the only tab of the initial state. *)
Lemma closeTab_keeps_a_tab_witness :
  tab_ids_nonempty (tabs initial_state) /\
  tabs (final (closeTab world0 (js "home") initial_state)) = [default_query_tab world0] /\
  activeTabId (final (closeTab world0 (js "home") initial_state)) = Some (js "uuid-0").
Proof.
  split; [exact initial_ids_nonempty|].
  exact (proj1 (proj2 (closeTab_keeps_a_tab world0 initial_state (js "home")
                         initial_ids_nonempty)) eq_refl).
Defined.

(** [splice] at an index inside the array. *)
Lemma splice_remove_one {A} (l : list A) (i : nat) :
  i < length l ->
  splice l (Z.of_nat i) 1 [] = (take 1 (drop i l), delete i l).
Proof.
  intros Hi. unfold splice, actualStart.
  destruct (Z.ltb_spec (Z.of_nat i) 0) as [?|_]; [lia|].
  replace (Z.to_nat (Z.min (Z.of_nat i) (Z.of_nat (length l)))) with i by lia.
  replace (Z.to_nat (Z.min (Z.max 1 0) (Z.of_nat (length l - i)))) with 1 by lia.
  simpl. by rewrite delete_take_drop, Nat.add_1_r.
Qed.

Lemma splice_insert_one {A} (l : list A) (i : nat) (x : A) :
  i <= length l ->
  splice l (Z.of_nat i) 0 [x] = ([], take i l ++ x :: drop i l).
Proof.
  intros Hi. unfold splice, actualStart.
  destruct (Z.ltb_spec (Z.of_nat i) 0) as [?|_]; [lia|].
  replace (Z.to_nat (Z.min (Z.of_nat i) (Z.of_nat (length l)))) with i by lia.
  replace (Z.to_nat (Z.min (Z.max 0 0) (Z.of_nat (length l - i)))) with 0 by lia.
  simpl. by rewrite Nat.add_0_r.
Qed.

(** C9 as stated fails: no index is ever rejected. With the single home tab
    and [oldIndex = 5], nothing is removed, [movedTab] is [undefined], and
    the array stored back holds an [undefined] slot in front of the home
    tab; with [oldIndex = -1] the last tab is silently moved. *)
Lemma moveTab_out_of_range_unsignalled :
  moveTab [home_tab] 5 0 = Normal [None; Some home_tab] /\
  moveTab [home_tab; default_query_tab world0] (-1) 0
    = Normal [Some (default_query_tab world0); Some home_tab].
Proof. split; reflexivity. Qed.

(** C9 (as amended). [moveTab] checks no range and signals no error: it
    always completes normally. With both indices in [[0, tabs.length)] it
    takes the tab at [oldIndex] out and puts it back at [newIndex], the
    other tabs keeping their order, so that the result is a rearrangement of
    the tabs without any [undefined] slot. *)
Theorem moveTab_splices tabs oldIndex newIndex :
  (exists slots, moveTab tabs oldIndex newIndex = Normal slots) /\
  ((0 <= oldIndex < Z.of_nat (length tabs))%Z ->
   (0 <= newIndex < Z.of_nat (length tabs))%Z ->
   exists moved,
     tabs !! Z.to_nat oldIndex = Some moved /\
     let others := delete (Z.to_nat oldIndex) tabs in
     let moved_tabs :=
       take (Z.to_nat newIndex) others ++ moved :: drop (Z.to_nat newIndex) others in
     moveTab tabs oldIndex newIndex = Normal (Some <$> moved_tabs) /\
     moved_tabs !! Z.to_nat newIndex = Some moved /\
     moved_tabs ≡ₚ tabs).
Proof.
  split.
  { unfold moveTab. destruct (splice _ oldIndex 1 []) as [removed newTabs].
    destruct (splice newTabs newIndex 0 _) as [? slots]. by exists slots. }
  intros Hold Hnew.
  set (o := Z.to_nat oldIndex). set (n := Z.to_nat newIndex).
  assert (o < length tabs) as Ho by lia.
  assert (n < length tabs) as Hn by lia.
  destruct (lookup_lt_is_Some_2 tabs o Ho) as [moved Hmoved].
  exists moved. split; [done|]. intros others moved_tabs.
  assert (length others = length tabs - 1) as Hlen.
  { subst others. rewrite length_delete by eauto. done. }
  split; [|split].
  - unfold moveTab.
    replace oldIndex with (Z.of_nat o) by lia.
    replace newIndex with (Z.of_nat n) by lia.
    rewrite splice_remove_one by (by rewrite length_fmap).
    cbv beta iota zeta.
    assert (head (take 1 (drop o (Some <$> tabs))) = Some (Some moved)) as ->.
    { rewrite <- fmap_drop, <- fmap_take.
      rewrite (drop_S tabs moved o Hmoved). done. }
    cbn [default].
    rewrite splice_insert_one by (rewrite length_delete, length_fmap;
      [lia|by rewrite list_lookup_fmap, Hmoved]).
    f_equal. subst moved_tabs others.
    by rewrite fmap_app, fmap_cons, fmap_take, fmap_drop, list_fmap_delete.
  - subst moved_tabs. apply list_lookup_middle. rewrite length_take. lia.
  - subst moved_tabs. rewrite <- Permutation_middle, take_drop.
    subst others. symmetry. by apply delete_Permutation.
Qed.

(** C9 at work: the second of three tabs dragged to the front. *)
Lemma moveTab_splices_witness :
  (0 <= 1 < 3)%Z /\ (0 <= 0 < 3)%Z /\
  moveTab [home_tab; default_query_tab world0; default_query_tab world_ok] 1 0
    = Normal [Some (default_query_tab world0); Some home_tab;
              Some (default_query_tab world_ok)].
Proof.
  split; [lia|]. split; [lia|].
  destruct (proj2 (moveTab_splices
                     [home_tab; default_query_tab world0; default_query_tab world_ok] 1 0)
              ltac:(simpl; lia) ltac:(simpl; lia)) as (moved & Hmoved & Hmove & _).
  simpl in Hmoved. injection Hmoved as <-. exact Hmove.
Defined.

(** ** Result normalisation *)

Lemma map_throwing_length {A B} (f : A -> completion B) (l : list A) (ys : list B) :
  map_throwing f l = Normal ys -> length ys = length l.
Proof.
  revert ys. induction l as [|x l IH]; intros ys; simpl.
  - by intros [= <-].
  - destruct (f x) as [y|e]; [|done]. simpl.
    destruct (map_throwing f l) as [ys'|e]; [|done]. simpl.
    intros [= <-]. simpl. f_equal. by apply IH.
Qed.

Lemma map_throwing_Normal {A B} (f : A -> completion B) (g : A -> B) (l : list A) :
  Forall (fun x => f x = Normal (g x)) l ->
  map_throwing f l = Normal (g <$> l).
Proof.
  induction 1 as [|x l Hx _ IH]; [done|].
  simpl. by rewrite Hx, IH.
Qed.

Lemma isArray_elements (v : jsval) : isArray v = true -> v = VArr (elements v).
Proof. by destruct v. Qed.

(** What [rawResultToJSON] has read when it returns: [JSON.parse] gave an
    object whose [meta] and [data] are arrays, and the three loops ran to
    their end. *)
Lemma rawResultToJSON_Normal w rawResult qr :
  rawResultToJSON w rawResult = Normal qr ->
  exists props meta rows rowObjects,
    w_JSON_parse w rawResult = Normal (VObj props) /\
    props !! js "meta" = Some (VArr meta) /\
    props !! js "data" = Some (VArr rows) /\
    map_throwing (fun m => get_named w m (js "name")) meta = Normal (columns qr) /\
    map_throwing (fun m => get_named w m (js "type")) meta = Normal (columnTypes qr) /\
    map_throwing (rowObject_of w (columns qr)) rows = Normal rowObjects /\
    data qr = own <$> rowObjects.
Proof.
  unfold rawResultToJSON.
  destruct (w_JSON_parse w rawResult) as [parsed|e]; [|done].
  destruct parsed as [| | | | | | |props]; try done. cbn [and_then get_named].
  destruct (props !! js "meta") as [meta|] eqn:Hpm; [|done].
  destruct (props !! js "data") as [rows|] eqn:Hpd;
    [|by rewrite orb_true_r].
  cbn [from_option id].
  destruct (_ || _) eqn:Hformat; [done|].
  apply orb_false_iff in Hformat as [Hformat Hdata].
  apply orb_false_iff in Hformat as [_ Hmeta].
  apply negb_false_iff, isArray_elements in Hmeta.
  apply negb_false_iff, isArray_elements in Hdata.
  destruct (map_throwing _ (elements meta)) as [cols|e] eqn:Hcols; [|done]. cbn [and_then].
  destruct (map_throwing _ (elements meta)) as [types|e] eqn:Htypes in |- *; [|done].
  cbn [and_then].
  destruct (map_throwing _ (elements rows)) as [objs|e] eqn:Hobjs; [|done]. cbn [and_then].
  intros [= <-]. exists props, (elements meta), (elements rows), objs.
  by rewrite <- Hmeta, <- Hdata.
Qed.

(** Both normalisers give as many column types as columns. *)
Lemma rawResultToJSON_lengths w rawResult qr :
  rawResultToJSON w rawResult = Normal qr ->
  length (columns qr) = length (columnTypes qr).
Proof.
  intros (props & meta & rows & objs & _ & _ & _ & Hc & Ht & _)%rawResultToJSON_Normal.
  by rewrite (map_throwing_length _ _ _ Hc), (map_throwing_length _ _ _ Ht).
Qed.

Lemma resultToJSON_lengths w result :
  length (columns (resultToJSON w result)) = length (columnTypes (resultToJSON w result)).
Proof. unfold resultToJSON. simpl. by rewrite !length_fmap. Qed.

(** The loop of [rowObject_of] over columns that are strings other than
    [__proto__], on a row that is neither [null] nor [undefined]: every
    column becomes an own key and the prototype stays as it is. *)
Lemma forEachi_from_row w (row : jsval) (names : list (list N)) :
  row <> VNull -> row <> VUndefined ->
  js "__proto__" ∉ names ->
  forall (i : nat) (o : PlainObject),
  exists o',
    forEachi_from (assign_cell w row) i (VStr <$> names) (Normal o) = Normal o' /\
    dom (own o') = dom (own o) ∪ list_to_set names /\
    proto o' = proto o.
Proof.
  intros Hnull Hundef. induction names as [|name names IH]; intros Hproto i o.
  - exists o. simpl. split; [done|]. split; [set_solver|done].
  - apply not_elem_of_cons in Hproto as [Hname Hproto].
    rewrite fmap_cons. cbn [forEachi_from]. unfold assign_cell at 2.
    cbn [and_then toPropertyKey].
    assert (exists cell, get_index w row i = Normal cell) as [cell ->]
      by (destruct row; try done; simpl; eauto).
    cbn [and_then]. unfold assign.
    rewrite bool_decide_eq_false_2 by done. cbn [andb].
    destruct (IH Hproto (S i) {| own := <[name := cell]> (own o); proto := proto o |})
      as (o' & Ho' & Hdom & Hp).
    exists o'. split; [exact Ho'|]. split; [|exact Hp].
    rewrite Hdom. simpl. rewrite dom_insert_L. set_solver.
Qed.

(** So a row object has exactly the columns as its own keys when no column
    is named [__proto__]. *)
Lemma rowObject_of_keys w (names : list (list N)) (row : jsval) :
  row <> VNull -> row <> VUndefined ->
  js "__proto__" ∉ names ->
  exists o,
    rowObject_of w (VStr <$> names) row = Normal o /\
    dom (own o) = list_to_set names /\
    proto o = ObjectPrototype.
Proof.
  intros Hnull Hundef Hproto.
  destruct (forEachi_from_row w row names Hnull Hundef Hproto 0 empty_object)
    as (o & Ho & Hdom & Hp).
  exists o. split; [exact Ho|]. split; [|exact Hp].
  rewrite Hdom. simpl. set_solver.
Qed.

(** C8. The row objects of [rawResultToJSON] do not always have the columns
    as their keys. For the envelope of two columns [__proto__] and [id]
    and the one row [[1, 2]], the result has both columns and as many column
    types, but its row has the single key [id]: the assignment
    [rowObject["__proto__"] = 1] goes to the setter inherited from
    [Object.prototype], which stores nothing. *)
Theorem rawResultToJSON_drops_proto_column :
  exists qr row,
    rawResultToJSON world_proto (js "{...}") = Normal qr /\
    columns qr = [VStr (js "__proto__"); VStr (js "id")] /\
    length (columns qr) = length (columnTypes qr) /\
    data qr = [row] /\
    row !! js "id" = Some (VNum 2) /\
    row !! js "__proto__" = None /\
    dom row = {[ js "id" ]} /\
    dom row <> list_to_set [js "__proto__"; js "id"].
Proof.
  set (row := own (assign (assign empty_object (js "__proto__") (VNum 1))
                     (js "id") (VNum 2))).
  exists {| columns := [VStr (js "__proto__"); VStr (js "id")];
            columnTypes := [VStr (js "Int32"); VStr (js "Int32")];
            data := [row]; rowCount := VNum 1; qr_error := None |}, row.
  split; [reflexivity|]. cbn [columns columnTypes data].
  split; [reflexivity|]. split; [reflexivity|]. split; [reflexivity|].
  split; [reflexivity|]. split; [reflexivity|].
  assert (dom row = ({[ js "id" ]} : gset (list N))) as Hdom.
  { subst row. unfold assign. simpl. rewrite dom_insert_L. set_solver. }
  split; [exact Hdom|].
  rewrite Hdom. intros Heq.
  assert (js "__proto__" ∈ ({[ js "id" ]} : gset (list N))) as Hin
    by (rewrite Heq; set_solver).
  apply elem_of_singleton in Hin. discriminate Hin.
Qed.

(** On the embedded path temporal cells are materialised and the keys of
    the row stay what [toJSON()] gave. *)
Lemma convert_field_dom (w : World) (jsonRow : gmap (list N) jsval) (field : Field) :
  dom (convert_field w jsonRow field) = dom jsonRow.
Proof.
  unfold convert_field.
  destruct (jsonRow !! f_name field) as [v|] eqn:Hv; [|done].
  assert (f_name field ∈ dom jsonRow) as Hin by (apply elem_of_dom; eauto).
  destruct v; try done;
    repeat case_bool_decide; simpl; rewrite ?dom_insert_L; set_solver.
Qed.

(** ** The upload handler *)

Lemma in_flight_processing name c :
  (forall st, importStates c !! name = Some st -> busy st = false) ->
  in_flight (updateImportState name Processing None c) = S (in_flight c).
Proof.
  intros Hidle. unfold in_flight, updateImportState. simpl.
  rewrite map_filter_insert_True by done.
  apply map_size_insert_None, map_lookup_filter_None. right.
  intros st Hst. simpl. rewrite (Hidle st Hst). done.
Qed.

Lemma updateImportState_other name name' st err c :
  name <> name' ->
  importStates (updateImportState name st err c) !! name' = importStates c !! name'.
Proof. intros Hne. unfold updateImportState. simpl. by rewrite lookup_insert_ne. Qed.

(** Starting the callbacks of a list of files, none of them in flight yet,
    puts every one of them in flight. *)
Lemma map_async_in_flight closure fs : forall lv,
  NoDup (file_name <$> fs) ->
  Forall (fun f =>
            (forall st, importStates lv !! file_name f = Some st -> busy st = false) /\
            status <$> (importStates closure !! file_name f) <> Some Success /\
            exists t, tableNameSchema_parse (tableNames closure !! file_name f) = inr t)
         fs ->
  in_flight (map_async closure lv fs).1 = in_flight lv + length fs /\
  Forall (fun t => task_pc t = AwaitArrayBuffer) (map_async closure lv fs).2.
Proof.
  induction fs as [|f fs IH]; intros lv Hnd Hfs; simpl.
  - split; [lia|constructor].
  - apply NoDup_cons in Hnd as [Hf Hnd].
    apply Forall_cons in Hfs as [(Hidle & Hnew & t & Hname) Hfs].
    assert (start_upload closure lv f
            = (updateImportState (file_name f) Processing None lv,
               {| task_file := f; task_pc := AwaitArrayBuffer |})) as ->.
    { unfold start_upload. rewrite Hname.
      destruct (status <$> importStates closure !! file_name f) as [[]|]; done. }
    specialize (IH (updateImportState (file_name f) Processing None lv) Hnd).
    destruct IH as [IHn IHts].
    { apply Forall_forall. intros g Hg.
      rewrite Forall_forall in Hfs. destruct (Hfs g Hg) as (Hidle' & Hrest).
      split; [|exact Hrest].
      intros st. rewrite updateImportState_other; [apply Hidle'|].
      intros Heq. apply Hf. rewrite Heq. apply list_elem_of_fmap. by exists g. }
    destruct (map_async closure _ fs) as [lv2 ts]. cbn [fst snd] in *.
    rewrite IHn, in_flight_processing by done. split; [lia|by constructor].
Qed.

(** Whatever the size of the batch, the launch of [handleFileUpload] puts
    all of its files in flight at once. *)
Lemma handleFileUpload_all_in_flight c :
  ready c ->
  in_flight c = 0 ->
  in_flight (live (handleFileUpload c)) = length (files c).
Proof.
  intros (Hnd & Hidle & Hfs) Hzero. unfold handleFileUpload.
  pose proof (map_async_in_flight c (files c) (with_errors [] (with_isUploading true c)) Hnd)
    as Hlaunch.
  destruct Hlaunch as [Hn _].
  { eapply Forall_impl; [exact Hfs|]. intros f Hf. split; [|exact Hf].
    intros st. apply Hidle. }
  destruct (map_async c _ (files c)) as [lv ts]. cbn [fst snd live] in *.
  rewrite Hn. unfold in_flight in *. simpl. lia.
Qed.

Lemma ten_submitted_ready : ready ten_submitted /\ in_flight ten_submitted = 0.
Proof.
  split; [split; [|split]|reflexivity].
  - apply (bool_decide_unpack _). vm_compute. exact I.
  - intros k st Hst.
    assert (st ∈ (map_to_list (importStates ten_submitted)).*2) as Hin.
    { apply list_elem_of_fmap. exists (k, st). split; [done|].
      by apply elem_of_map_to_list. }
    vm_compute in Hin.
    repeat (apply elem_of_cons in Hin as [->|Hin]; [reflexivity|]).
    by apply elem_of_nil in Hin.
  - unfold ten_submitted, submitted, ten_files, ten_names. simpl.
    repeat (constructor; [split; [vm_compute; discriminate|eexists; vm_compute; reflexivity]|]).
    constructor.
Qed.

(** The chunks of three of ten promises: a regrouping, nothing more. *)
Example concurrencyQueue_of_ten :
  concurrencyQueue [0; 1; 2; 3; 4; 5; 6; 7; 8; 9]
  = [[0; 1; 2]; [3; 4; 5]; [6; 7; 8]; [9]].
Proof. reflexivity. Qed.

(** A run can go all the way: one file, its bytes read, its import done. *)
Example one_file_imported :
  exists r,
    reachable one_submitted r /\
    status <$> (importStates (live r) !! js "sales.csv") = Some Success /\
    in_flight (live r) = 0 /\
    Forall (fun t => task_pc t = Settled) (uploadPromises r).
Proof.
  eexists. split.
  - eapply reach_step; [eapply reach_step; [apply reach_start|]|].
    + eapply (arrayBuffer_fulfilled _ 0); reflexivity.
    + eapply (importFile_fulfilled _ 0); reflexivity.
  - split; [reflexivity|]. split; [reflexivity|]. by repeat constructor.
Qed.

(** C1, on the code: with ten submitted valid files, the run of
    [handleFileUpload] passes through an instant, right after [files.map]
    has started the callbacks, at which all ten jobs are in the
    [processing] state, above the cap of three, every callback being
    suspended at its [await file.arrayBuffer()]. *)
Theorem handleFileUpload_ten_in_flight :
  let r := handleFileUpload ten_submitted in
  length (files ten_submitted) = 10 /\
  reachable ten_submitted r /\
  in_flight (live r) = 10 /\
  MAX_CONCURRENT_UPLOADS < in_flight (live r) /\
  Forall (fun t => task_pc t = AwaitArrayBuffer) (uploadPromises r).
Proof.
  intros r. split; [reflexivity|]. split; [constructor|].
  destruct ten_submitted_ready as [Hready Hzero].
  assert (in_flight (live r) = 10) as Hten.
  { subst r. by rewrite handleFileUpload_all_in_flight. }
  split; [exact Hten|]. split; [rewrite Hten; unfold MAX_CONCURRENT_UPLOADS; lia|].
  subst r. unfold handleFileUpload.
  destruct Hready as (Hnd & Hidle & Hfs).
  pose proof (map_async_in_flight ten_submitted (files ten_submitted)
                (with_errors [] (with_isUploading true ten_submitted)) Hnd) as Hlaunch.
  destruct Hlaunch as [_ Hts].
  { eapply Forall_impl; [exact Hfs|]. intros f Hf. split; [|exact Hf].
    intros st. apply Hidle. }
  destruct (map_async ten_submitted _ (files ten_submitted)) as [lv ts].
  exact Hts.
Qed.

(** * Further properties of the store *)

(** ** Schema refresh *)

(** X1. [fetchDatabasesAndTablesInfo] never throws and always ends with
    the loading flag down. For a remote connection the snapshot is emptied
    without a statement being sent to the engine. Otherwise a failure (no
    valid connection, or the introspection rejects) leaves the previous
    snapshot in place and stores the message behind "Failed to load
    schema: ", and a success swaps the snapshot in and clears the error. *)
Theorem fetchDatabasesAndTablesInfo_snapshot w s :
  let r := fetchDatabasesAndTablesInfo w s in
  outcome r = Normal tt /\
  isLoadingDbTablesFetch (final r) = false /\
  (is_external (currentConnection s) = true ->
   databases (final r) = [] /\ error (final r) = None /\ engine_queries (trace r) = 0) /\
  (is_external (currentConnection s) = false ->
   match validateConnection (connection s), w_fetchWasmDatabases w with
   | Throw e, _ | Normal _, Throw e =>
       databases (final r) = databases s /\
       error (final r) = Some (js "Failed to load schema: " ++ error_message e)
   | Normal _, Normal dbs =>
       databases (final r) = dbs /\ error (final r) = None
   end).
Proof.
  unfold fetchDatabasesAndTablesInfo, fetchWasmDatabases, try_finally, try_catch,
    bind, await, emit, set, get, ret, outcome, final, trace. simpl.
  destruct (is_external (currentConnection s)); simpl.
  - by repeat split.
  - destruct (validateConnection (connection s)); simpl.
    + destruct (w_fetchWasmDatabases w); simpl; by repeat split.
    + by repeat split.
Qed.

(** ** Query routing *)

Lemma dispatchQuery_events w s q s' :
  let t := trace (dispatchQuery w s q s') in
  (is_external (currentConnection s) = true -> engine_queries t = 0 /\ requests t <= 1) /\
  (is_external (currentConnection s) = false -> requests t = 0 /\ engine_queries t <= 1).
Proof.
  unfold dispatchQuery, is_external.
  assert (forall s',
             let t := trace ((wasmConnection <- await (validateConnection (connection s));;
                              emit (EvQuery q);;
                              result <- await (w_query w q);;
                              ret (resultToJSON w result))%eff s') in
             requests t = 0 /\ engine_queries t <= 1) as Hwasm.
  { intros s0. unfold bind, await, emit, ret, trace.
    destruct (validateConnection _); [|count_events].
    destruct (w_query w q); count_events. }
  destruct (currentConnection s) as [cc|]; [|split; [done|intros _; apply Hwasm]].
  destruct (c_scope cc); [split; [done|intros _; apply Hwasm]|].
  split; [intros _|done].
  unfold executeExternalQuery, post, bind, await, emit, throw, trace.
  destruct (negb _ || _); [count_events|].
  destruct (w_btoa w _); [|count_events].
  destruct (w_fetch w _ _ _) as [resp|e]; [|count_events].
  destruct (negb (resp_ok resp)); [count_events|].
  destruct (rawResultToJSON w _); count_events.
Qed.

Lemma fetchDatabasesAndTablesInfo_events w s :
  let t := trace (fetchDatabasesAndTablesInfo w s) in
  requests t = 0 /\
  (is_external (currentConnection s) = true -> engine_queries t = 0).
Proof.
  unfold fetchDatabasesAndTablesInfo, fetchWasmDatabases, try_finally, try_catch,
    bind, await, emit, set, get, ret, trace. simpl.
  destruct (is_external (currentConnection s)); [count_events|].
  destruct (validateConnection (connection s)); [|count_events].
  destruct (w_fetchWasmDatabases w); count_events.
Qed.

(** The trace of [executeQuery] is that of the routing, followed by that
    of the refresh when there is one. *)
Lemma executeQuery_trace w s q tabId :
  exists t1 t2,
    trace (executeQuery w q tabId s) = t1 ++ t2 /\
    t1 = trace (dispatchQuery w s q (with_error None (with_isExecuting true s))) /\
    (t2 = [] \/
     exists s', currentConnection s' = currentConnection s /\
                t2 = trace (fetchDatabasesAndTablesInfo w s')).
Proof.
  unfold executeQuery, try_catch, bind, get, set, ret. simpl.
  destruct (dispatchQuery w s q (with_error None (with_isExecuting true s)))
    as [[[qr|e] s1] t1] eqn:Hd.
  - pose proof (dispatchQuery_pure w s q) as (r & t & _ & Hpure).
    rewrite Hpure in Hd. injection Hd as -> <- ->. simpl.
    destruct (isDDL q).
    + match goal with
      | |- context [fetchDatabasesAndTablesInfo w ?st] =>
          pose proof (fetchDatabasesAndTablesInfo_total w st) as [Hout _];
          destruct (fetchDatabasesAndTablesInfo w st) as [[r' s2] t2] eqn:Hf
      end.
      unfold outcome in Hout. simpl in Hout. subst r'. simpl.
      exists t1, t2. split; [by rewrite app_nil_r|]. split; [done|].
      right. eexists. split; [|by rewrite Hf]. done.
    + simpl. exists t1, []. split; [by rewrite !app_nil_r|]. split; [done|by left].
  - simpl. exists t1, []. split; [done|]. split; [done|by left].
Qed.

(** X2. [executeQuery] routes by the scope of the current connection: with
    a remote one it sends no statement to the embedded engine, not even for
    the schema refresh after a DDL statement, and at most one HTTP request;
    with the embedded one, or none, it sends no HTTP request at all. *)
Theorem executeQuery_routing w s q tabId :
  let t := trace (executeQuery w q tabId s) in
  (is_external (currentConnection s) = true -> engine_queries t = 0 /\ requests t <= 1) /\
  (is_external (currentConnection s) = false -> requests t = 0).
Proof.
  intros t. subst t.
  destruct (executeQuery_trace w s q tabId) as (t1 & t2 & -> & -> & Ht2).
  pose proof (dispatchQuery_events w s q (with_error None (with_isExecuting true s)))
    as [Hext Hwasm].
  unfold engine_queries, requests in *. rewrite !List.filter_app, !length_app.
  destruct Ht2 as [->|(s' & Hcc & ->)].
  - simpl. split; intros H; [destruct (Hext H)|destruct (Hwasm H)]; lia.
  - pose proof (fetchDatabasesAndTablesInfo_events w s') as [Hreq Hq].
    unfold engine_queries, requests in *. rewrite Hcc in Hq.
    split; intros H; [destruct (Hext H); specialize (Hq H)|destruct (Hwasm H)]; lia.
Qed.

(** X1 at work: the introspection fails on a connected session. *)
Lemma fetchDatabasesAndTablesInfo_snapshot_witness :
  is_external (currentConnection connected_state) = false /\
  databases (final (fetchDatabasesAndTablesInfo world_ok connected_state))
    = databases connected_state /\
  error (final (fetchDatabasesAndTablesInfo world_ok connected_state))
    = Some (js "Failed to load schema: catalog unavailable").
Proof.
  split; [reflexivity|].
  exact (proj2 (proj2 (proj2 (fetchDatabasesAndTablesInfo_snapshot world_ok connected_state)))
           eq_refl).
Defined.

(** X2 at work: a DDL statement over a remote connection. *)
Lemma executeQuery_routing_witness :
  is_external (currentConnection remote_state) = true /\
  engine_queries (trace (executeQuery world_remote (js "CREATE TABLE t(x INT)") None
                           remote_state)) = 0 /\
  requests (trace (executeQuery world_remote (js "CREATE TABLE t(x INT)") None
                     remote_state)) <= 1.
Proof.
  split; [reflexivity|].
  exact (proj1 (executeQuery_routing world_remote remote_state
                  (js "CREATE TABLE t(x INT)") None) eq_refl).
Defined.

(** ** The remote path *)

(** X3. [executeExternalQuery] sends nothing when the host is missing or
    empty or the port is missing or zero, and fails with "Host and port
    must be defined for external connections."; otherwise, once the
    credentials are encoded, it sends exactly one request, to
    [host:port/], with the query text as its body and the encoded
    credentials behind "Basic ". *)
Theorem executeExternalQuery_request w q c s :
  let r := executeExternalQuery w q c s in
  (endpoint_missing c = true ->
   trace r = [] /\
   outcome r = Throw (ErrorObj (js "Host and port must be defined for external connections."))) /\
  (endpoint_missing c = false ->
   forall encoded, w_btoa w (basic_credentials c) = Normal encoded ->
                   trace r = [request_of c encoded q]).
Proof.
  unfold executeExternalQuery, endpoint_missing, request_of.
  destruct (negb _ || _); simpl.
  - split; [done|]. done.
  - split; [done|]. intros _ encoded Henc.
    unfold post, bind, await, emit, throw, trace. rewrite Henc. simpl.
    destruct (w_fetch w _ _ _) as [resp|e]; [|done].
    destruct (negb (resp_ok resp)); [done|].
    by destruct (rawResultToJSON w _).
Qed.

(** X3 at work: port 0 counts as no port. *)
Lemma executeExternalQuery_request_witness :
  let c := {| c_id := js "id-1"; c_name := js "prod"; c_scope := External;
              c_host := Some (js "http://localhost"); c_port := Some 0%N;
              c_user := None; c_password := None; c_database := None;
              c_authMode := None |} in
  endpoint_missing c = true /\
  trace (executeExternalQuery world_remote (js "SELECT 1") c remote_state) = [].
Proof.
  intros c. split; [reflexivity|].
  exact (proj1 (proj1 (executeExternalQuery_request world_remote (js "SELECT 1") c
                         remote_state) eq_refl)).
Defined.

Lemma map_throwing_Throw {A B} (f : A -> completion B) (l : list A) (e : thrown) :
  map_throwing f l = Throw e -> Exists (fun x => f x = Throw e) l.
Proof.
  induction l as [|x l IH]; simpl; [done|].
  destruct (f x) as [y|e'] eqn:Hx; simpl.
  - destruct (map_throwing f l) as [ys|e']; simpl; [done|].
    intros [= ->]. right. by apply IH.
  - intros [= ->]. by left.
Qed.

Lemma map_throwing_Forall {A B} (f : A -> completion B) (l : list A) (ys : list B) :
  map_throwing f l = Normal ys -> Forall (fun x => exists y, f x = Normal y) l.
Proof.
  revert ys. induction l as [|x l IH]; intros ys; simpl; [by constructor|].
  destruct (f x) as [y|e'] eqn:Hx; simpl; [|done].
  destruct (map_throwing f l) as [ys'|e']; simpl; [|done].
  intros _. constructor; [eauto|]. by eapply IH.
Qed.

Lemma get_named_nullish w (v : jsval) (name : list N) :
  get_named w v name
  = if nullish v then Throw (ErrorObj (w_TypeError_read w v name))
    else Normal (property v name).
Proof. by destruct v. Qed.

Lemma get_index_nullish w (v : jsval) (i : nat) :
  if nullish v then get_index w v i = Throw (ErrorObj (w_TypeError_read w v (js (pretty i))))
  else exists cell, get_index w v i = Normal cell.
Proof. destruct v; simpl; eauto. Qed.

(** Once an assignment of the loop has thrown, the loop is over. *)
Lemma forEachi_from_thrown w (row : jsval) (cols : list jsval) (i : nat) (e : thrown) :
  forEachi_from (assign_cell w row) i cols (Throw e) = Throw e.
Proof. revert i. induction cols as [|c cols IH]; intros i; simpl; [done|apply IH]. Qed.

(** A row object fails to be built only on a row that is [null] or
    [undefined], or on a column whose conversion to a key throws. *)
Lemma forEachi_from_Throw w (row : jsval) (cols : list jsval) (e : thrown) :
  forall (i : nat) (o : PlainObject),
    forEachi_from (assign_cell w row) i cols (Normal o) = Throw e ->
    nullish row = true \/ Exists (fun c => toPropertyKey w c = Throw e) cols.
Proof.
  induction cols as [|c cols IH]; intros i o; simpl; [done|].
  pose proof (get_index_nullish w row i) as Hcell.
  destruct (nullish row); [by left|].
  destruct Hcell as [cell ->]. cbn [and_then].
  destruct (toPropertyKey w c) as [key|e'] eqn:Hkey; cbn [and_then].
  - intros [Hrow|Hcols]%IH; [done|]. right. by right.
  - rewrite forEachi_from_thrown. intros [= ->]. right. by left.
Qed.

Lemma rowObject_of_nullish w (c : jsval) (cols : list jsval) (row : jsval) :
  nullish row = true ->
  rowObject_of w (c :: cols) row
  = Throw (ErrorObj (w_TypeError_read w row (js "0"))).
Proof.
  intros Hrow. unfold rowObject_of, forEachi. simpl.
  pose proof (get_index_nullish w row 0) as Hcell. rewrite Hrow in Hcell.
  rewrite Hcell. cbn [and_then]. apply forEachi_from_thrown.
Qed.

(** With columns that are strings, a row object is built for every row
    that is neither [null] nor [undefined]. *)
Lemma forEachi_from_total w (row : jsval) (names : list (list N)) :
  nullish row = false ->
  forall (i : nat) (o : PlainObject),
    exists o', forEachi_from (assign_cell w row) i (VStr <$> names) (Normal o) = Normal o'.
Proof.
  intros Hrow. induction names as [|name names IH]; intros i o; [by exists o|].
  rewrite fmap_cons. cbn [forEachi_from]. unfold assign_cell at 2. cbn [and_then].
  pose proof (get_index_nullish w row i) as Hcell. rewrite Hrow in Hcell.
  destruct Hcell as [cell ->]. cbn [and_then toPropertyKey]. apply IH.
Qed.

Lemma format_check (m d : jsval) :
  negb (truthy_value m) || negb (truthy_value d) || negb (isArray m) || negb (isArray d)
  = negb (isArray m && isArray d).
Proof.
  destruct (isArray m) eqn:Hm; [|simpl; by rewrite orb_true_r].
  destruct (isArray d) eqn:Hd; [|simpl; by rewrite orb_true_r].
  apply isArray_elements in Hm. apply isArray_elements in Hd. by rewrite Hm, Hd.
Qed.

Lemma map_get_named w (name : list N) (l ys : list jsval) :
  map_throwing (fun m => get_named w m name) l = Normal ys ->
  ys = (fun m => property m name) <$> l /\ Forall (fun m => nullish m = false) l.
Proof.
  revert ys. induction l as [|m l IH]; intros ys; simpl.
  - intros [= <-]. by split.
  - rewrite get_named_nullish. destruct (nullish m) eqn:Hm; [done|]. cbn [and_then].
    destruct (map_throwing _ l) as [ys'|e]; [|done]. cbn [and_then].
    intros [= <-]. destruct (IH ys' eq_refl) as [-> Hl]. split; [done|by constructor].
Qed.

Lemma map_get_named_Throw w (name : list N) (l : list jsval) (e : thrown) :
  map_throwing (fun m => get_named w m name) l = Throw e ->
  Exists (fun m => nullish m = true) l.
Proof.
  intros He%map_throwing_Throw. eapply Exists_impl; [exact He|].
  intros m. simpl. rewrite get_named_nullish. by destruct (nullish m).
Qed.

Lemma map_throwing_total {A B} (f : A -> completion B) (l : list A) :
  Forall (fun x => exists y, f x = Normal y) l ->
  exists ys, map_throwing f l = Normal ys /\ length ys = length l.
Proof.
  induction 1 as [|x l [y Hx] _ (ys & IH & Hlen)]; [by exists []|].
  exists (y :: ys). simpl. rewrite Hx, IH. simpl. by rewrite Hlen.
Qed.

Lemma named_entries (meta : list jsval) :
  Forall named_entry meta ->
  Forall (fun m => nullish m = false) meta /\
  exists names, (fun m => property m (js "name")) <$> meta = VStr <$> names.
Proof.
  induction 1 as [|m meta [name Hm] _ (IH & names & Hnames)].
  - split; [constructor|]. by exists [].
  - split.
    + constructor; [by destruct m|exact IH].
    + exists (name :: names). by rewrite !fmap_cons, Hm, Hnames.
Qed.

(** Every failure of [rawResultToJSON] leaves through its catch block. *)
Lemma rawResultToJSON_prefix w rawResult e :
  rawResultToJSON w rawResult = Throw e ->
  exists cause, e = ErrorObj (js "Failed to parse raw result: " ++ cause).
Proof.
  unfold rawResultToJSON. destruct (and_then _ _) as [r|e']; [done|].
  intros [= <-]. eauto.
Qed.

(** What the envelope was like when [rawResultToJSON] returns. *)
Lemma rawResultToJSON_returned w rawResult qr :
  rawResultToJSON w rawResult = Normal qr ->
  exists parsed meta rows,
    w_JSON_parse w rawResult = Normal parsed /\
    property parsed (js "meta") = VArr meta /\
    property parsed (js "data") = VArr rows /\
    Forall (fun m => nullish m = false) meta /\
    (meta <> [] -> Forall (fun row => nullish row = false) rows) /\
    length (columns qr) = length meta /\
    length (data qr) = length rows.
Proof.
  intros (props & meta & rows & objs & Hparse & Hm & Hd & Hc & Ht & Ho & Hdata)
    %rawResultToJSON_Normal.
  exists (VObj props), meta, rows. split; [done|]. simpl. rewrite Hm, Hd.
  split; [done|]. split; [done|].
  destruct (map_get_named _ _ _ _ Hc) as [Hcols Hmeta].
  split; [exact Hmeta|]. split; [|split].
  - intros Hne. apply map_throwing_Forall in Ho.
    eapply Forall_impl; [exact Ho|]. intros row [o Hrow]. simpl in Hrow.
    destruct (nullish row) eqn:Hnull; [|done].
    rewrite Hcols in Hrow. destruct meta as [|m meta']; [done|].
    rewrite fmap_cons in Hrow. by rewrite rowObject_of_nullish in Hrow.
  - by rewrite (map_throwing_length _ _ _ Hc).
  - by rewrite Hdata, length_fmap, (map_throwing_length _ _ _ Ho).
Qed.

(** X4. [rawResultToJSON] throws nothing but an [Error] whose message
    starts with "Failed to parse raw result: ". What follows is the message
    of [JSON.parse]; or the platform's [TypeError] message when [JSON.parse]
    gives [null]; or the message about the format when [meta] or [data] is
    missing or is not an array; and when both are arrays, the failure comes
    from a [null] entry of [meta], from a [null] row, or from a column name
    that cannot be converted to a key. When it returns, [meta] and [data]
    were arrays without a [null] entry in [meta] and, with a column at
    least, without a [null] row. So an envelope whose [meta] entries have a
    string for a name and whose rows are not [null] gives a result, with
    one row object per row, and a [null] row under a column makes it
    throw. *)
Theorem rawResultToJSON_failures w rawResult :
  match rawResultToJSON w rawResult with
  | Normal qr =>
      exists parsed meta rows,
        w_JSON_parse w rawResult = Normal parsed /\
        property parsed (js "meta") = VArr meta /\
        property parsed (js "data") = VArr rows /\
        Forall (fun m => nullish m = false) meta /\
        (meta <> [] -> Forall (fun row => nullish row = false) rows) /\
        length (columns qr) = length meta /\
        length (data qr) = length rows
  | Throw e =>
      exists cause,
        e = ErrorObj (js "Failed to parse raw result: " ++ cause) /\
        match w_JSON_parse w rawResult with
        | Throw e' => cause = error_message e'
        | Normal parsed =>
            if nullish parsed then cause = w_TypeError_read w parsed (js "meta")
            else if isArray (property parsed (js "meta"))
                    && isArray (property parsed (js "data"))
            then Exists (fun m => nullish m = true) (elements (property parsed (js "meta")))
                 \/ Exists (fun row => nullish row = true)
                      (elements (property parsed (js "data")))
                 \/ Exists (fun m => exists e',
                                toPropertyKey w (property m (js "name")) = Throw e')
                      (elements (property parsed (js "meta")))
            else cause = format_message
        end
  end /\
  (forall parsed meta rows,
     w_JSON_parse w rawResult = Normal parsed ->
     property parsed (js "meta") = VArr meta ->
     property parsed (js "data") = VArr rows ->
     Forall named_entry meta ->
     (Forall (fun row => nullish row = false) rows ->
      exists qr,
        rawResultToJSON w rawResult = Normal qr /\
        columns qr = (fun m => property m (js "name")) <$> meta /\
        length (data qr) = length rows) /\
     (meta <> [] -> Exists (fun row => nullish row = true) rows ->
      exists cause,
        rawResultToJSON w rawResult
        = Throw (ErrorObj (js "Failed to parse raw result: " ++ cause)))).
Proof.
  split.
  - destruct (rawResultToJSON w rawResult) as [qr|e] eqn:Hr;
      [by apply rawResultToJSON_returned|].
    destruct (rawResultToJSON_prefix _ _ _ Hr) as [cause ->].
    exists cause. split; [done|].
    unfold rawResultToJSON in Hr.
    destruct (w_JSON_parse w rawResult) as [parsed|e'] eqn:Hparse;
      [|cbn [and_then] in Hr; injection Hr as Hr; by simplify_list_eq].
    cbn [and_then] in Hr. rewrite get_named_nullish in Hr.
    destruct (nullish parsed) eqn:Hnull;
      [cbn [and_then] in Hr; injection Hr as Hr; by simplify_list_eq|].
    cbn [and_then] in Hr. rewrite get_named_nullish, Hnull in Hr.
    cbn [and_then] in Hr. rewrite format_check in Hr.
    destruct (isArray _ && isArray _) eqn:Hformat; cbn [negb] in Hr;
      [|injection Hr as Hr; by simplify_list_eq].
    destruct (map_throwing _ (elements (property parsed (js "meta"))))
      as [cols|e1] eqn:Hcols in Hr;
      [|left; by eapply map_get_named_Throw].
    cbn [and_then] in Hr. destruct (map_get_named _ _ _ _ Hcols) as [-> Hmeta].
    destruct (map_throwing _ (elements (property parsed (js "meta"))))
      as [types|e2] eqn:Htypes in Hr;
      [|left; by eapply map_get_named_Throw].
    cbn [and_then] in Hr.
    destruct (map_throwing _ (elements (property parsed (js "data"))))
      as [objs|e3] eqn:Hobjs in Hr.
    { cbn [and_then] in Hr. rewrite get_named_nullish, Hnull in Hr. done. }
    right. apply map_throwing_Throw in Hobjs.
    apply Exists_exists in Hobjs as (row & Hrow & Hthrown).
    apply forEachi_from_Throw in Hthrown as [Hnullish|Hkey].
    + left. apply Exists_exists. eauto.
    + right. apply Exists_fmap in Hkey. eapply Exists_impl; [exact Hkey|].
      simpl. eauto.
  - intros parsed meta rows Hparse Hm Hd Hnamed.
    destruct (named_entries _ Hnamed) as (Hmeta & names & Hnames).
    assert (nullish parsed = false) as Hnull by (by destruct parsed).
    split.
    + intros Hrows. unfold rawResultToJSON. rewrite Hparse. cbn [and_then].
      rewrite !get_named_nullish, Hnull. cbn [and_then].
      rewrite format_check, Hm, Hd. cbn [isArray andb negb elements].
      rewrite (map_throwing_Normal _ (fun m => property m (js "name")));
        [|eapply Forall_impl; [exact Hmeta|];
          intros m Hn; simpl; by rewrite get_named_nullish, Hn].
      cbn [and_then].
      rewrite (map_throwing_Normal _ (fun m => property m (js "type")));
        [|eapply Forall_impl; [exact Hmeta|];
          intros m Hn; simpl; by rewrite get_named_nullish, Hn].
      cbn [and_then]. rewrite Hnames.
      destruct (map_throwing_total (rowObject_of w (VStr <$> names)) rows)
        as (objs & -> & Hlen).
      { eapply Forall_impl; [exact Hrows|]. intros row Hrow. simpl.
        apply (forEachi_from_total w row names Hrow 0 empty_object). }
      cbn [and_then]. eexists. split; [reflexivity|]. simpl.
      by rewrite length_fmap.
    + intros Hne Hex.
      destruct (rawResultToJSON w rawResult) as [qr|e] eqn:Hr.
      * apply rawResultToJSON_returned in Hr
          as (parsed' & meta' & rows' & Hparse' & Hm' & Hd' & _ & Hrows' & _).
        rewrite Hparse in Hparse'. injection Hparse' as <-.
        rewrite Hm in Hm'. injection Hm' as <-.
        rewrite Hd in Hd'. injection Hd' as <-.
        apply Exists_exists in Hex as (row & Hin & Hrow).
        pose proof (proj1 (Forall_forall _ _) (Hrows' Hne) row Hin) as Hrow'.
        simpl in Hrow'. congruence.
      * destruct (rawResultToJSON_prefix _ _ _ Hr) as [cause ->]. eauto.
Qed.

(** X4 at work: the envelope of two columns and two rows is normalised,
    the short second row included; an envelope whose only row is [null]
    makes the normaliser throw, and so does a parsed [null]. *)
Lemma rawResultToJSON_failures_witness :
  (exists qr,
     rawResultToJSON world_remote (js "{...}") = Normal qr /\
     columns qr = [VStr (js "id"); VStr (js "name")] /\
     length (data qr) = 2) /\
  rawResultToJSON (world_parsing envelope_null_row) (js "{...}")
  = Throw (ErrorObj (js "Failed to parse raw result: "
                     ++ js "Cannot read properties of null (reading '0')")) /\
  rawResultToJSON (world_parsing VNull) (js "null")
  = Throw (ErrorObj (js "Failed to parse raw result: "
                     ++ js "Cannot read properties of null (reading 'meta')")).
Proof.
  split; [|split; reflexivity].
  destruct (proj2 (rawResultToJSON_failures world_remote (js "{...}")) envelope2
              [meta_entry (js "id") (js "Int32"); meta_entry (js "name") (js "String")]
              [VArr [VNum 1; VStr (js "duck")]; VArr [VNum 2]]
              eq_refl eq_refl eq_refl) as [Hok _].
  - repeat constructor; eexists; reflexivity.
  - apply Hok. by repeat constructor.
Defined.

(** ** The embedded path *)

Lemma convert_field_frame (w : World) (jsonRow : gmap (list N) jsval) (field : Field) (k : list N) :
  (f_name field = k -> ~ temporal (f_type field)) ->
  convert_field w jsonRow field !! k = jsonRow !! k.
Proof.
  unfold convert_field, temporal. intros Hk.
  destruct (jsonRow !! f_name field) as [v|] eqn:Hv; [|done].
  destruct (decide (f_name field = k)) as [Heq|Hne].
  - specialize (Hk Heq).
    destruct v; try done;
      rewrite !bool_decide_eq_false_2 by tauto; done.
  - destruct v; try done;
      repeat case_bool_decide; simpl; rewrite ?lookup_insert_ne by done; done.
Qed.

Lemma convert_field_null (w : World) (jsonRow : gmap (list N) jsval) (field : Field) (k : list N) :
  jsonRow !! k = Some VNull \/ jsonRow !! k = Some VUndefined \/ jsonRow !! k = None ->
  convert_field w jsonRow field !! k = jsonRow !! k.
Proof.
  unfold convert_field. intros Hk.
  destruct (decide (f_name field = k)) as [->|Hne].
  - destruct Hk as [H|[H|H]]; rewrite H; simpl; by rewrite H.
  - destruct (jsonRow !! f_name field) as [v|] eqn:Hv; [|done].
    destruct v; try done;
      repeat case_bool_decide; simpl; rewrite ?lookup_insert_ne by done; done.
Qed.

Lemma convert_fields_row (w : World) (fields : list Field) : forall (jsonRow : gmap (list N) jsval),
  let row' := fold_left (convert_field w) fields jsonRow in
  dom row' = dom jsonRow /\
  forall k,
    (Forall (fun f => f_name f = k -> ~ temporal (f_type f)) fields
     \/ jsonRow !! k = Some VNull \/ jsonRow !! k = Some VUndefined) ->
    row' !! k = jsonRow !! k.
Proof.
  induction fields as [|f fields IH]; intros jsonRow; simpl; [done|].
  destruct (IH (convert_field w jsonRow f)) as [Hdom Hframe].
  split; [by rewrite Hdom, convert_field_dom|].
  intros k Hk. rewrite Hframe.
  - destruct Hk as [Hall|Hnull].
    + apply convert_field_frame. by apply Forall_cons in Hall as [? _].
    + apply convert_field_null. tauto.
  - destruct Hk as [Hall|Hnull].
    + left. by apply Forall_cons in Hall as [_ ?].
    + right. rewrite convert_field_null by tauto. done.
Qed.

(** X5. [resultToJSON] keeps the rows in number and order, the keys of
    every row, and every cell that is null, undefined, or in a column whose
    type is none of [Date32<DAY>], [Date64<MILLISECOND>] and
    [Timestamp<MICROSECOND>]; [rowCount] is the engine's [numRows]. *)
Theorem resultToJSON_cells w result :
  let qr := resultToJSON w result in
  rowCount qr = numRows result /\
  length (data qr) = length (table_rows result) /\
  forall i row,
    table_rows result !! i = Some row ->
    exists row',
      data qr !! i = Some row' /\
      dom row' = dom row /\
      forall k,
        (Forall (fun f => f_name f = k -> ~ temporal (f_type f)) (schema_fields result)
         \/ row !! k = Some VNull \/ row !! k = Some VUndefined) ->
        row' !! k = row !! k.
Proof.
  intros qr. subst qr. unfold resultToJSON. simpl.
  split; [done|]. split; [by rewrite length_fmap|].
  intros i row Hrow. eexists. rewrite list_lookup_fmap, Hrow. simpl.
  split; [done|]. apply convert_fields_row.
Qed.

(** X5 at work: the integer cell beside a date cell is left as it is. *)
Lemma resultToJSON_cells_witness :
  table_rows dated_table !! 0 = Some {[ js "day" := VNum 19000; js "n" := VNum 7 ]} /\
  exists row',
    data (resultToJSON world0 dated_table) !! 0 = Some row' /\
    row' !! js "n" = Some (VNum 7).
Proof.
  split; [reflexivity|].
  destruct (proj2 (proj2 (resultToJSON_cells world0 dated_table)) 0 _ eq_refl)
    as (row' & Hrow' & _ & Hcells).
  exists row'. split; [exact Hrow'|].
  rewrite Hcells; [reflexivity|].
  left. repeat constructor; simpl; intros Hk; try discriminate Hk.
  unfold temporal. intros [H|[H|H]]; discriminate H.
Defined.

(** * Further properties of the connection registry *)

(** What [addConnection] can do to the list: nothing, or append. *)
Lemma addConnection_list w c s :
  connectionList (final (addConnection w c s)) = connectionList s \/
  (connectionList (final (addConnection w c s)) = connectionList s ++ [c] /\
   existsb (fun c' => bool_decide (c_name c' = c_name c)) (connectionList s) = false).
Proof.
  unfold addConnection, try_catch, bind, get, set, emit, throw, ret, final. simpl.
  destruct (existsb _ (connectionList s)) eqn:Hdup; simpl; [by left|].
  destruct (c_scope c); simpl; [by right|].
  unfold testExternalConnection, post, bind, await, emit, throw, ret.
  destruct (w_btoa w _); simpl; [|by left].
  destruct (w_fetch w _ _ _) as [resp|e]; simpl; [|by left].
  destruct (negb (resp_ok resp)); simpl; [by left|by right].
Qed.

(** X6. [addConnection] keeps the names of the registry unique, and it
    never touches a descriptor already there: the list after the call is
    the list before, or the list before with the new descriptor at its
    end. *)
Theorem addConnection_keeps_names_unique w c s :
  names_unique s ->
  names_unique (final (addConnection w c s)) /\
  (connectionList (final (addConnection w c s)) = connectionList s \/
   connectionList (final (addConnection w c s)) = connectionList s ++ [c]).
Proof.
  unfold names_unique. intros Hnd.
  destruct (addConnection_list w c s) as [->|[-> Hfresh]]; [by auto|].
  split; [|by right].
  rewrite fmap_app. apply NoDup_app. split; [done|]. split; [|by apply NoDup_singleton].
  intros name Hname [->|[]%elem_of_nil]%elem_of_cons.
  apply list_elem_of_fmap in Hname as (c' & Hc' & Hin).
  assert (existsb (fun c'0 => bool_decide (c_name c'0 = c_name c)) (connectionList s) = true)
    as Htrue; [|congruence].
  apply existsb_exists. exists c'. split; [by apply list_elem_of_In|].
  by apply bool_decide_eq_true.
Qed.

Lemma addConnection_keeps_names_unique_witness :
  names_unique two_connections /\
  names_unique (final (addConnection world_online
                         (remote_descriptor (js "id-2") (js "staging")) two_connections)) /\
  length (connectionList
            (final (addConnection world_online
                      (remote_descriptor (js "id-2") (js "staging")) two_connections))) = 3.
Proof.
  assert (names_unique two_connections) as Hu.
  { apply (bool_decide_unpack _). vm_compute. exact I. }
  split; [exact Hu|]. split; [|reflexivity].
  exact (proj1 (addConnection_keeps_names_unique world_online
                  (remote_descriptor (js "id-2") (js "staging")) two_connections Hu)).
Defined.

(** X7. For a remote descriptor whose name is free and whose credentials
    encode, [addConnection] sends exactly one request, the probe: a POST of
    [SELECT 1] to [host:port/]; the descriptor is added, with a success
    toast, exactly when the endpoint answers with a success status, and
    otherwise the list is unchanged and [error] starts with "Failed to add
    connection: ". *)
Theorem addConnection_probe w c s encoded :
  c_scope c = External ->
  existsb (fun c' => bool_decide (c_name c' = c_name c)) (connectionList s) = false ->
  w_btoa w (basic_credentials c) = Normal encoded ->
  let r := addConnection w c s in
  requests (trace r) = 1 /\
  head (trace r) = Some (request_of c encoded (js "SELECT 1")) /\
  match w_fetch w (endpoint_url c) (js "Basic " ++ encoded) (js "SELECT 1") with
  | Normal resp =>
      if resp_ok resp
      then connectionList (final r) = connectionList s ++ [c] /\ error (final r) = None
      else connectionList (final r) = connectionList s /\
           exists cause, error (final r) = Some (js "Failed to add connection: " ++ cause)
  | Throw e =>
      connectionList (final r) = connectionList s /\
      error (final r) = Some (js "Failed to add connection: " ++ error_message e)
  end.
Proof.
  intros Hscope Hfresh Henc r. subst r.
  unfold addConnection, try_catch, bind, get, set, emit, throw, ret, final, trace,
    request_of. simpl.
  rewrite Hfresh, Hscope. simpl.
  unfold testExternalConnection, post, bind, await, emit, throw, ret.
  rewrite Henc. simpl.
  destruct (w_fetch w _ _ _) as [resp|e]; simpl; [|count_events].
  destruct (resp_ok resp); simpl; [count_events|].
  unfold requests. simpl. repeat split; try done. by eexists.
Qed.

Lemma addConnection_probe_witness :
  let c := remote_descriptor (js "id-2") (js "staging") in
  c_scope c = External /\
  requests (trace (addConnection world_online c two_connections)) = 1 /\
  connectionList (final (addConnection world_online c two_connections))
    = connectionList two_connections ++ [c].
Proof.
  intros c. split; [reflexivity|].
  pose proof (addConnection_probe world_online c two_connections
                (basic_credentials c) eq_refl eq_refl eq_refl) as H.
  simpl in H. destruct H as (Hreq & _ & Hlist & _).
  split; [exact Hreq|exact Hlist].
Defined.

Lemma getConnection_app_fresh id (l : list ConnectionProvider) c s :
  Forall (fun c' => c_id c' <> id) l -> c_id c = id ->
  getConnection id (with_connectionList (l ++ [c]) s) = Some c.
Proof.
  intros Hl Hc. unfold getConnection. simpl.
  induction Hl as [|c' l Hc' _ IH]; simpl.
  - by rewrite decide_True.
  - rewrite decide_False by done. simpl in *.
    destruct (list_find _ (l ++ [c])) as [[i x]|]; simpl in *; congruence.
Qed.

(** X8. Add, look up, delete: when [addConnection] has added a descriptor
    whose id was not in the registry, [getConnection] of that id finds it,
    and [deleteConnection] of that id brings the connection list back to
    what it was, after which [getConnection] finds nothing. *)
Theorem registry_round_trip w c s :
  Forall (fun c' => c_id c' <> c_id c) (connectionList s) ->
  connectionList (final (addConnection w c s)) = connectionList s ++ [c] ->
  let s1 := final (addConnection w c s) in
  let s2 := final (deleteConnection (c_id c) s1) in
  getConnection (c_id c) s1 = Some c /\
  connectionList s2 = connectionList s /\
  getConnection (c_id c) s2 = None.
Proof.
  intros Hfresh Hadded s1 s2.
  assert (connectionList s2 = connectionList s) as Hback.
  { subst s2. unfold deleteConnection, set, final. simpl. fold s1.
    unfold s1 at 1. rewrite Hadded, filter_app, filter_cons_False, filter_nil, app_nil_r
      by (intros H; by apply H).
    clear Hadded s1. induction Hfresh as [|c' l Hc' _ IH]; [done|].
    by rewrite filter_cons_True, IH. }
  split; [|split; [done|]].
  - unfold getConnection. subst s1. rewrite Hadded.
    pose proof (getConnection_app_fresh (c_id c) (connectionList s) c s Hfresh eq_refl) as H.
    unfold getConnection in H. simpl in H. exact H.
  - unfold getConnection. rewrite Hback.
    destruct (list_find _ (connectionList s)) as [[i x]|] eqn:Hfind; [|done].
    apply list_find_Some in Hfind as (Hi & Hx & _).
    rewrite Forall_forall in Hfresh. exfalso. eapply Hfresh; [|exact Hx].
    by eapply list_elem_of_lookup_2.
Qed.

Lemma registry_round_trip_witness :
  let c := remote_descriptor (js "id-2") (js "staging") in
  Forall (fun c' => c_id c' <> c_id c) (connectionList two_connections) /\
  getConnection (js "id-2") (final (addConnection world_online c two_connections)) = Some c /\
  connectionList (final (deleteConnection (js "id-2")
                           (final (addConnection world_online c two_connections))))
    = connectionList two_connections.
Proof.
  intros c.
  assert (Forall (fun c' => c_id c' <> c_id c) (connectionList two_connections)) as Hf.
  { repeat constructor; discriminate. }
  split; [exact Hf|].
  destruct (registry_round_trip world_online c two_connections Hf eq_refl) as (H1 & H2 & _).
  split; [exact H1|exact H2].
Defined.

(** X9. [updateConnection] keeps the ids of the registry, in order, and so
    its size; when no descriptor has the id asked for, neither
    [updateConnection] nor [deleteConnection] changes the list. *)
Theorem updateConnection_keeps_ids c s :
  c_id <$> connectionList (final (updateConnection c s)) = c_id <$> connectionList s /\
  (Forall (fun c' => c_id c' <> c_id c) (connectionList s) ->
   connectionList (final (updateConnection c s)) = connectionList s /\
   connectionList (final (deleteConnection (c_id c) s)) = connectionList s).
Proof.
  unfold updateConnection, deleteConnection, set, final. simpl. split.
  - rewrite <- list_fmap_compose. apply list_fmap_ext. intros i c' _. simpl.
    by case_bool_decide.
  - intros Hfresh. induction Hfresh as [|c' l Hc' _ [IH1 IH2]]; [done|].
    rewrite fmap_cons, filter_cons_True by done.
    rewrite bool_decide_eq_false_2 by done. by rewrite IH1, IH2.
Qed.

Lemma updateConnection_keeps_ids_witness :
  Forall (fun c' => c_id c' <> js "id-9") (connectionList two_connections) /\
  connectionList (final (updateConnection (remote_descriptor (js "id-9") (js "ghost"))
                           two_connections))
    = connectionList two_connections.
Proof.
  assert (Forall (fun c' => c_id c' <> js "id-9") (connectionList two_connections)) as Hf.
  { repeat constructor; discriminate. }
  split; [exact Hf|].
  exact (proj1 (proj2 (updateConnection_keeps_ids
                         (remote_descriptor (js "id-9") (js "ghost")) two_connections) Hf)).
Defined.

(** Unlike [addConnection], [updateConnection] does not look at names:
    renaming the remote descriptor to "WASM" leaves two descriptors of that
    name. *)
Example updateConnection_duplicates_name :
  c_name <$> connectionList
               (final (updateConnection (remote_descriptor (js "id-1") (js "WASM"))
                         two_connections))
  = [js "WASM"; js "WASM"].
Proof. reflexivity. Qed.

(** * Further properties of the tabs *)

Section FilterFacts.
Context {A : Type} (P : A -> Prop) `{!forall x, Decision (P x)}.

Lemma filter_all (l : list A) : Forall P l -> filter P l = l.
Proof.
  induction 1 as [|x l Hx _ IH]; [done|]. by rewrite filter_cons_True, IH.
Qed.

Lemma filter_none (l : list A) : filter P l = [] <-> Forall (fun x => ~ P x) l.
Proof.
  induction l as [|x l IH]; [by split; [constructor|]|].
  destruct (decide (P x)) as [Hx|Hx].
  - rewrite filter_cons_True by done. split; [done|].
    intros [Hnx _]%Forall_cons. done.
  - rewrite filter_cons_False by done. rewrite IH. split.
    + by constructor.
    + by intros [_ ?]%Forall_cons.
Qed.

End FilterFacts.

(** X10. As long as tab ids are non-empty, [closeTab] and [createTab] keep
    the active tab among the tabs: whichever tab is closed, and whatever
    tab is created, [activeTabId] names a tab of the list afterwards. *)
Theorem active_tab_kept w s :
  tab_ids_nonempty (tabs s) ->
  active_tab_exists s ->
  (forall tabId, active_tab_exists (final (closeTab w tabId s))) /\
  (forall type content title,
     active_tab_exists (final (createTab w type content title s))).
Proof.
  intros Hids (t & Ht & Hactive). split.
  - intros tabId. unfold active_tab_exists, closeTab, set, final. simpl.
    pose proof (tab_ids_nonempty_filter (fun tab => tab_id tab <> tabId) (tabs s) Hids)
      as Hupd.
    destruct (filter _ (tabs s)) as [|u us] eqn:Hu; simpl.
    + eexists. split; [left|done].
    + case_bool_decide as Hclosed; simpl.
      * exists u. split; [left|]. unfold first_id_or_null. simpl.
        apply Forall_cons in Hupd as [Hne _]. by destruct (tab_id u).
      * exists t. split; [|done]. rewrite <- Hu. apply list_elem_of_filter.
        split; [|done]. intros Heq. apply Hclosed. by rewrite Hactive, Heq.
  - intros type content title.
    unfold active_tab_exists, createTab, set, final. simpl.
    eexists. split; [apply elem_of_app; right; left|done].
Qed.

Lemma initial_active_tab : active_tab_exists initial_state.
Proof. exists home_tab. split; [left|reflexivity]. Defined.

Lemma active_tab_kept_witness :
  tab_ids_nonempty (tabs initial_state) /\
  active_tab_exists initial_state /\
  active_tab_exists (final (closeTab world0 (js "home") initial_state)).
Proof.
  split; [exact initial_ids_nonempty|]. split; [exact initial_active_tab|].
  exact (proj1 (active_tab_kept world0 initial_state initial_ids_nonempty
                  initial_active_tab) (js "home")).
Defined.

(** X11. Closing a tab right after creating it, its id being new, gives
    back the tabs as they were; the active tab is then the first tab, not
    the tab that was active before the creation. *)
Theorem createTab_closeTab w w' s type content title :
  (w_randomUUID w ∉ tab_id <$> tabs s) ->
  tabs s <> [] ->
  let s1 := final (createTab w type content title s) in
  let s2 := final (closeTab w' (w_randomUUID w) s1) in
  tabs s2 = tabs s /\ activeTabId s2 = first_id_or_null (tabs s).
Proof.
  intros Hfresh Hne s1 s2. subst s1 s2.
  unfold createTab, closeTab, set, final. simpl.
  assert (filter (fun tab => tab_id tab <> w_randomUUID w) (tabs s) = tabs s) as Hkeep.
  { apply filter_all. apply Forall_forall. intros t Ht Heq. apply Hfresh.
    apply list_elem_of_fmap. by exists t. }
  rewrite filter_app, Hkeep, filter_cons_False, filter_nil, app_nil_r
    by (simpl; intros H; by apply H).
  rewrite bool_decide_eq_false_2 by (by destruct (tabs s)).
  by rewrite bool_decide_eq_true_2.
Qed.

Lemma createTab_closeTab_witness :
  (w_randomUUID world0 ∉ tab_id <$> tabs initial_state) /\
  tabs (final (closeTab world0 (js "uuid-0")
                 (final (createTab world0 sql (ContentText []) None initial_state))))
    = [home_tab].
Proof.
  assert (w_randomUUID world0 ∉ tab_id <$> tabs initial_state) as Hfresh.
  { simpl. intros [H|H%elem_of_nil]%elem_of_cons; [discriminate H|done]. }
  split; [exact Hfresh|].
  exact (proj1 (createTab_closeTab world0 world0 initial_state sql (ContentText []) None
                  Hfresh ltac:(discriminate))).
Defined.

(** X12. [closeAllTabs] keeps the home tabs, in order, and nothing else,
    and makes ["home"] the active id. It leaves no tab at all exactly when
    there was no home tab, which is a state [closeTab] can produce. *)
Theorem closeAllTabs_keeps_home w s :
  let s' := final (closeAllTabs s) in
  tabs s' = filter (fun tab => tab_type tab = home) (tabs s) /\
  Forall (fun tab => tab_type tab = home) (tabs s') /\
  activeTabId s' = Some (js "home") /\
  (tabs s' = [] <-> Forall (fun tab => tab_type tab <> home) (tabs s)) /\
  tabs (final (closeAllTabs (final (closeTab w (js "home") initial_state)))) = [].
Proof.
  unfold closeAllTabs, bind, set, emit, final. simpl.
  split; [done|]. split; [|split; [done|split; [|done]]].
  - apply Forall_forall. by intros t [Ht _]%list_elem_of_filter.
  - apply filter_none.
Qed.

Lemma closeAllTabs_keeps_home_witness :
  Forall (fun tab => tab_type tab <> home)
         (tabs (final (closeTab world0 (js "home") initial_state))) /\
  tabs (final (closeAllTabs (final (closeTab world0 (js "home") initial_state)))) = [].
Proof.
  assert (Forall (fun tab => tab_type tab <> home)
                 (tabs (final (closeTab world0 (js "home") initial_state)))) as Hno.
  { repeat constructor. discriminate. }
  split; [exact Hno|].
  exact (proj2 (proj1 (proj2 (proj2 (proj2
           (closeAllTabs_keeps_home world0
              (final (closeTab world0 (js "home") initial_state))))))) Hno).
Defined.

Lemma fmap_unchanged {A B} (f : A -> B) (g : A -> A) (l : list A) :
  (forall x, f (g x) = f x) -> f <$> (g <$> l) = f <$> l.
Proof.
  intros H. rewrite <- list_fmap_compose. apply list_fmap_ext. intros i x _. apply H.
Qed.

Lemma filter_unchanged {A} (P : A -> Prop) `{!forall x, Decision (P x)}
    (g : A -> A) (l : list A) :
  (forall x, P x -> g x = x) -> (forall x, P (g x) -> P x) ->
  filter P (g <$> l) = filter P l.
Proof.
  intros Hid Hback. induction l as [|x l IH]; [done|]. rewrite fmap_cons.
  destruct (decide (P x)) as [Hx|Hx].
  - rewrite (Hid x Hx), !filter_cons_True by done. by rewrite IH.
  - rewrite !filter_cons_False by (done || (intros Hgx; by apply Hx, Hback)). done.
Qed.

(** X13. [updateTabQuery] and [updateTabTitle] keep the tabs in number and
    order with their ids, types and results; [updateTabQuery] also keeps
    every title and never changes a home tab, [updateTabTitle] keeps every
    content; and a tab of another id is left as it is by both. *)
Theorem updateTab_frame s tabId text :
  let q := tabs (final (updateTabQuery tabId text s)) in
  let t := tabs (final (updateTabTitle tabId text s)) in
  tab_id <$> q = tab_id <$> tabs s /\ tab_id <$> t = tab_id <$> tabs s /\
  tab_type <$> q = tab_type <$> tabs s /\ tab_type <$> t = tab_type <$> tabs s /\
  tab_result <$> q = tab_result <$> tabs s /\ tab_result <$> t = tab_result <$> tabs s /\
  tab_title <$> q = tab_title <$> tabs s /\
  tab_content <$> t = tab_content <$> tabs s /\
  filter (fun tab => tab_type tab = home) q = filter (fun tab => tab_type tab = home) (tabs s) /\
  filter (fun tab => tab_id tab <> tabId) q = filter (fun tab => tab_id tab <> tabId) (tabs s) /\
  filter (fun tab => tab_id tab <> tabId) t = filter (fun tab => tab_id tab <> tabId) (tabs s).
Proof.
  intros q t. subst q t. unfold updateTabQuery, updateTabTitle, set, final. simpl.
  repeat match goal with |- _ /\ _ => split end;
    try (apply fmap_unchanged; intros [i ti ty co re]; simpl;
         by destruct (bool_decide _), ty).
  - apply filter_unchanged; intros tab; simpl.
    + intros ->. by rewrite andb_false_r.
    + destruct tab as [i ti ty co re]; simpl. by destruct (bool_decide _), ty.
  - apply filter_unchanged; intros tab; simpl.
    + intros Hne. by rewrite bool_decide_eq_false_2.
    + destruct tab as [i ti ty co re]; simpl. by destruct (bool_decide _), ty.
  - apply filter_unchanged; intros tab; simpl.
    + intros Hne. by rewrite bool_decide_eq_false_2.
    + by destruct (bool_decide _).
Qed.

(** The state [executeQuery] leaves holds the tabs it found, a result
    attached to the one named by [tabId]. *)
Lemma executeQuery_tabs w s q tabId :
  exists r, tabs (final (executeQuery w q tabId s)) = attach_result tabId r <$> tabs s.
Proof.
  destruct (query_outcome w s q) as [qr|e] eqn:Hout.
  - destruct (executeQuery_success w s q tabId qr Hout) as (_ & _ & ->).
    exists qr. destruct (isDDL q); [|done].
    by destruct (fetchDatabasesAndTablesInfo_frame w
                   (with_isExecuting false
                      (with_tabs (attach_result tabId qr <$> tabs s)
                         (with_queryHistory (updateHistory w (queryHistory s) q None)
                            (with_error None (with_isExecuting true s)))))) as [-> _].
  - destruct (executeQuery_failure w s q tabId e Hout) as (t & _ & ->).
    by eexists.
Qed.

(** X14. Query results never reach the persisted snapshot: whatever
    [executeQuery] does, the tabs that [partialize] persists after it are
    those it would have persisted before, and none of them has a result;
    the persisted registry and current connection are untouched too. *)
Theorem partialize_drops_results w s q tabId :
  let before := partialize s in
  let after := partialize (final (executeQuery w q tabId s)) in
  p_tabs after = p_tabs before /\
  Forall (fun tab => tab_result tab = None) (p_tabs after) /\
  tab_id <$> p_tabs after = tab_id <$> tabs s.
Proof.
  intros before after. subst before after. unfold partialize. simpl.
  destruct (executeQuery_tabs w s q tabId) as [r ->].
  assert (strip_result <$> (attach_result tabId r <$> tabs s) = strip_result <$> tabs s)
    as ->.
  { rewrite <- list_fmap_compose. apply list_fmap_ext. intros i tab _.
    unfold attach_result. simpl. by case_bool_decide. }
  split; [done|]. split.
  - apply Forall_fmap, Forall_forall. by intros tab _.
  - rewrite <- list_fmap_compose. by apply list_fmap_ext.
Qed.

(** * Further properties of the session *)

#[local] Arguments js : simpl never.

(** A refresh completes normally and touches only the snapshot, the error
    and its loading flag. *)
Lemma fetchDatabasesAndTablesInfo_shape w s :
  exists s' t,
    fetchDatabasesAndTablesInfo w s = (Normal tt, s', t) /\
    refreshes t = 1 /\ requests t = 0 /\
    db s' = db s /\ connection s' = connection s /\
    isInitialized s' = isInitialized s /\
    currentConnection s' = currentConnection s /\
    isLoading s' = isLoading s /\
    (is_external (currentConnection s) = true -> databases s' = []).
Proof.
  unfold fetchDatabasesAndTablesInfo, fetchWasmDatabases, try_finally, try_catch,
    bind, await, emit, set, get, ret. simpl.
  destruct (is_external (currentConnection s)); simpl.
  - eexists _, _. split; [reflexivity|]. by repeat split.
  - destruct (validateConnection (connection s)); simpl.
    + destruct (w_fetchWasmDatabases w); simpl;
        eexists _, _; (split; [reflexivity|]); by repeat split.
    + eexists _, _. split; [reflexivity|]. by repeat split.
Qed.

(** Replaces the refresh in the goal by its result. *)
Ltac refresh_done :=
  match goal with
  | |- context [fetchDatabasesAndTablesInfo ?w ?st] =>
      let s' := fresh "s'" in
      let t := fresh "t" in
      let H := fresh "Hrefresh" in
      let Hr := fresh "Hrefreshes" in
      let Hq := fresh "Hrequests" in
      let Hdb := fresh "Hdb" in
      let Hconn := fresh "Hconn" in
      let Hini := fresh "Hini" in
      let Hcc := fresh "Hcc" in
      let Hload := fresh "Hload" in
      let Hext := fresh "Hext" in
      destruct (fetchDatabasesAndTablesInfo_shape w st)
        as (s' & t & H & Hr & Hq & Hdb & Hconn & Hini & Hcc & Hload & Hext);
      rewrite H; clear H; simpl in Hdb, Hconn, Hini, Hcc, Hload, Hext; simpl
  end.

(** Reads the handles of the state after a refresh off the state before. *)
Ltac ready_after_refresh :=
  unfold handles_ready; simpl;
  try match goal with
      | Hdb : db ?s' = _, Hconn : connection ?s' = _, Hini : isInitialized ?s' = _ |- _ =>
          rewrite Hdb, Hconn, Hini
      end.

(** X15. An initialized session has its handles: if [isInitialized]
    implies that [db] and a connection that can be queried are set, it
    still does after [initialize], after [setCurrentConnection] and after
    [cleanup], whatever the engine and the network do. *)
Theorem handles_ready_kept w en s :
  handles_ready s ->
  handles_ready (final (initialize w en s)) /\
  (forall connectionId, handles_ready (final (setCurrentConnection w en connectionId s))) /\
  handles_ready (final (cleanup w s)).
Proof.
  intros Hs. split; [|split].
  - unfold initialize, initializeWasmConnection, query_all, promise_all, rejections,
      fulfilments, validateConnection, try_catch, bind, await, emit, set, get, ret,
      throw, final. simpl.
    destruct (isInitialized s) eqn:Hinit; [by simpl|]. simpl.
    destruct (e_boot en) as [[d c]|e]; simpl; [|by intros ?].
    destruct (conn_has_query c) eqn:Hq; simpl; [|by intros ?].
    destruct (w_query w (js "INSTALL excel")), (w_query w (js "LOAD excel")); simpl;
      try (by intros ?).
    refresh_done. ready_after_refresh. eauto.
  - intros connectionId.
    unfold setCurrentConnection, connection_for, initializeWasmConnection, query_all,
      promise_all, rejections, fulfilments, validateConnection, try_finally, try_catch,
      bind, await, emit, set, get, ret, throw, final. simpl.
    destruct (list_find _ (connectionList s)) as [[i provider]|]; simpl; [|done].
    destruct (c_scope provider); simpl.
    + destruct (isInitialized s) eqn:Hinit; simpl.
      * destruct (connection s) as [nc|] eqn:Hnc; simpl;
          [|exfalso; destruct (Hs Hinit) as [_ (c0 & Hc0 & _)]; congruence].
        refresh_done. ready_after_refresh.
        intros Hi. destruct (Hs Hi) as [Hd (c0 & Hc0 & Hq)]. split; [done|].
        exists c0. split; [congruence|done].
      * destruct (e_boot en) as [[d c]|e]; simpl; [|by unfold handles_ready; simpl; rewrite Hinit].
        destruct (conn_has_query c) eqn:Hq; simpl;
          [|by unfold handles_ready; simpl; rewrite Hinit].
        destruct (w_query w (js "INSTALL excel")), (w_query w (js "LOAD excel")); simpl;
          try (by unfold handles_ready; simpl; rewrite Hinit).
        rewrite Hq. simpl.
        destruct (w_query w (js "SET enable_http_metadata_cache=true")),
          (w_query w (js "INSTALL arrow")), (w_query w (js "INSTALL parquet")); simpl;
          try (unfold handles_ready; simpl; by eauto).
        refresh_done. ready_after_refresh. eauto.
    + destruct (connection s) as [nc|] eqn:Hnc; simpl.
      * ready_after_refresh.
        intros Hi. destruct (Hs Hi) as [Hd (c0 & Hc0 & Hq)]. split; [done|].
        exists c0. split; [congruence|done].
      * unfold handles_ready. simpl. intros Hi. apply (Hs Hi).
  - rewrite cleanup_final. by intros ?.
Qed.

Lemma initial_handles_ready : handles_ready initial_state.
Proof. intros Hinit. discriminate Hinit. Defined.

(** X15 at work: booting from the initial state. *)
Lemma handles_ready_kept_witness :
  handles_ready initial_state /\
  isInitialized (final (initialize world_ok engine0 initial_state)) = true /\
  handles_ready (final (initialize world_ok engine0 initial_state)).
Proof.
  split; [exact initial_handles_ready|]. split; [reflexivity|].
  exact (proj1 (handles_ready_kept world_ok engine0 initial_state initial_handles_ready)).
Defined.

(** X16. [initialize] never throws and never leaves a half-initialized
    session. On an initialized session it does nothing. Otherwise it ends
    with [isLoading] down and either initialized, with both handles, the
    embedded descriptor current and one schema refresh triggered, or not
    initialized, with no handle, no refresh, and an [error] that starts
    with "Initialization failed: ". *)
Theorem initialize_all_or_nothing w en s :
  let r := initialize w en s in
  (isInitialized s = true -> r = (Normal tt, s, [])) /\
  (isInitialized s = false ->
   outcome r = Normal tt /\
   isLoading (final r) = false /\
   (isInitialized (final r) = true /\
    is_Some (db (final r)) /\ is_Some (connection (final r)) /\
    currentConnection (final r) = Some wasm_descriptor /\
    refreshes (trace r) = 1
    \/
    isInitialized (final r) = false /\
    db (final r) = None /\ connection (final r) = None /\
    refreshes (trace r) = 0 /\
    exists cause, error (final r) = Some (js "Initialization failed: " ++ cause))).
Proof.
  unfold initialize, initializeWasmConnection, query_all, promise_all, rejections,
    fulfilments, validateConnection, try_catch, bind, await, emit, set, get, ret,
    throw, final, outcome, trace. simpl.
  destruct (isInitialized s) eqn:Hinit; [by split|]. split; [done|]. intros _. simpl.
  destruct (e_boot en) as [[d c]|e]; simpl;
    [|repeat split; right; repeat split; by eexists].
  destruct (conn_has_query c) eqn:Hq; simpl;
    [|repeat split; right; repeat split; by eexists].
  destruct (w_query w (js "INSTALL excel")), (w_query w (js "LOAD excel")); simpl;
    try (repeat split; right; repeat split; by eexists).
  refresh_done. split; [done|]. split; [congruence|]. left.
  rewrite Hdb, Hconn, Hini, Hcc. repeat split; eauto.
Qed.

(** X16 at work: a boot that fails. *)
Lemma initialize_all_or_nothing_witness :
  let en := {| e_boot := Throw (ErrorObj (js "no worker"));
               e_first_rejection := e_first_rejection engine0;
               e_dropFile := e_dropFile engine0;
               e_registerFileBuffer := e_registerFileBuffer engine0;
               e_first_cell := e_first_cell engine0;
               e_not_a_function := e_not_a_function engine0;
               e_toLowerCase := e_toLowerCase engine0 |} in
  isInitialized initial_state = false /\
  outcome (initialize world_ok en initial_state) = Normal tt /\
  error (final (initialize world_ok en initial_state))
    = Some (js "Initialization failed: no worker").
Proof.
  intros en. split; [reflexivity|].
  split; [|reflexivity].
  exact (proj1 (proj2 (initialize_all_or_nothing world_ok en initial_state) eq_refl)).
Defined.

(** X17. [setCurrentConnection] with an id that is not in the registry
    contacts nothing and does not throw: it stores "Failed to set current
    connection: Connection with ID ... not found." in [error], puts
    [isLoading] down and leaves the handles and the current connection as
    they were. *)
Theorem setCurrentConnection_unknown w en connectionId s :
  Forall (fun c => c_id c <> connectionId) (connectionList s) ->
  let r := setCurrentConnection w en connectionId s in
  outcome r = Normal tt /\
  trace r = [] /\
  error (final r)
    = Some (js "Failed to set current connection: "
            ++ (js "Connection with ID " ++ connectionId ++ js " not found.")) /\
  isLoading (final r) = false /\
  currentConnection (final r) = currentConnection s /\
  connection (final r) = connection s /\
  db (final r) = db s /\
  isInitialized (final r) = isInitialized s.
Proof.
  intros Hnone r. subst r.
  unfold setCurrentConnection, try_finally, try_catch, bind, get, set, throw,
    outcome, final, trace. simpl.
  assert (list_find (fun c => c_id c = connectionId) (connectionList s) = None) as ->.
  { apply list_find_None. eapply Forall_impl; [exact Hnone|]. by intros c Hc. }
  by simpl.
Qed.

Lemma setCurrentConnection_unknown_witness :
  Forall (fun c => c_id c <> js "id-9") (connectionList two_connections) /\
  currentConnection (final (setCurrentConnection world_ok engine0 (js "id-9") two_connections))
    = Some wasm_descriptor /\
  trace (setCurrentConnection world_ok engine0 (js "id-9") two_connections) = [].
Proof.
  assert (Forall (fun c => c_id c <> js "id-9") (connectionList two_connections)) as Hf.
  { repeat constructor; discriminate. }
  split; [exact Hf|].
  destruct (setCurrentConnection_unknown world_ok engine0 (js "id-9") two_connections Hf)
    as (_ & Htrace & _ & _ & Hcc & _).
  split; [exact Hcc|exact Htrace].
Defined.

(** X18. Switching to a remote descriptor never boots or queries the
    embedded engine and sends no request. If the session holds a
    connection, the descriptor becomes the current connection with all its
    fields, the handle stays the same and the schema snapshot is emptied;
    queries are routed over HTTP from then on. If the session holds no
    connection yet, the switch fails with "Failed to establish a new
    connection." and the current connection is unchanged. *)
Theorem setCurrentConnection_remote w en connectionId provider s :
  getConnection connectionId s = Some provider ->
  c_scope provider = External ->
  let r := setCurrentConnection w en connectionId s in
  outcome r = Normal tt /\
  engine_queries (trace r) = 0 /\ requests (trace r) = 0 /\
  connection (final r) = connection s /\
  isLoading (final r) = false /\
  match connection s with
  | Some _ =>
      currentConnection (final r) = Some provider /\
      is_external (currentConnection (final r)) = true /\
      databases (final r) = [] /\
      error (final r) = None
  | None =>
      currentConnection (final r) = currentConnection s /\
      error (final r)
        = Some (js "Failed to set current connection: "
                ++ js "Failed to establish a new connection.")
  end.
Proof.
  intros Hfound Hscope r. subst r.
  unfold getConnection in Hfound.
  unfold setCurrentConnection, connection_for, try_finally, try_catch, bind, await, emit,
    set, get, ret, throw, outcome, final, trace. simpl.
  destruct (list_find _ (connectionList s)) as [[i p]|]; [|done].
  simpl in Hfound. injection Hfound as ->. rewrite Hscope. simpl.
  destruct (connection s) as [nc|] eqn:Hnc; simpl.
  - destruct provider. simpl in *. subst. by count_events.
  - by count_events.
Qed.

Lemma setCurrentConnection_remote_witness :
  getConnection (js "id-1") two_connections = Some (remote_descriptor (js "id-1") (js "prod")) /\
  currentConnection (final (setCurrentConnection world_ok engine0 (js "id-1") two_connections))
    = Some (remote_descriptor (js "id-1") (js "prod")) /\
  connection (final (setCurrentConnection world_ok engine0 (js "id-1") two_connections))
    = connection two_connections.
Proof.
  split; [reflexivity|].
  pose proof (setCurrentConnection_remote world_ok engine0 (js "id-1")
                (remote_descriptor (js "id-1") (js "prod")) two_connections
                eq_refl eq_refl) as H.
  simpl in H. destruct H as (_ & _ & _ & Hconn & _ & Hcc & _).
  split; [exact Hcc|exact Hconn].
Defined.

(** * Further properties of table import and deletion *)

(** Counting the refreshes of a computation, by its structure. *)
Section Counting.
Context {A B : Type}.

Lemma counts_ret (a : A) err : counts (ret a) 0 err.
Proof. by intros s. Qed.

Lemma counts_throw (e : thrown) ok : counts (@throw A e) ok 0.
Proof. by intros s. Qed.

Lemma counts_await (c : completion A) : counts (await c) 0 0.
Proof. intros s. unfold await. by destruct c. Qed.

Lemma counts_bind (m : Eff A) (k : A -> Eff B) a b ea eb :
  counts m a ea -> (forall x, counts (k x) b eb) -> ea = a + eb ->
  counts (bind m k) (a + b) ea.
Proof.
  intros Hm Hk Hea s. unfold bind. specialize (Hm s).
  destruct (m s) as [[[x|e] s1] t1]; [|done].
  specialize (Hk x s1). destruct (k x s1) as [[[y|e] s2] t2];
    unfold refreshes in *; rewrite List.filter_app, length_app; lia.
Qed.

Lemma counts_try_catch (body : Eff A) (handler : thrown -> Eff A) ok err herr :
  counts body ok err -> (forall e, counts (handler e) (ok - err) herr) -> err <= ok ->
  counts (try_catch body handler) ok (err + herr).
Proof.
  intros Hbody Hhandler Hle s. unfold try_catch. specialize (Hbody s).
  destruct (body s) as [[[x|e] s1] t1]; [done|].
  specialize (Hhandler e s1). destruct (handler e s1) as [[[y|e'] s2] t2];
    unfold refreshes in *; rewrite List.filter_app, length_app; lia.
Qed.

End Counting.

Lemma counts_set f err : counts (set f) 0 err.
Proof. by intros s. Qed.

Lemma counts_get err : counts get 0 err.
Proof. by intros s. Qed.

Lemma counts_query sqltext err : counts (emit (EvQuery sqltext)) 0 err.
Proof. by intros s. Qed.

Lemma counts_refresh w err : counts (fetchDatabasesAndTablesInfo w) 1 err.
Proof.
  intros s. by destruct (fetchDatabasesAndTablesInfo_shape w s) as (s' & t & -> & Hr & _).
Qed.

(** A step that sends one statement to the engine refreshes nothing. *)
Lemma counts_engine_query w en conn sqltext : counts (query w en conn sqltext) 0 0.
Proof.
  unfold query. destruct (conn_has_query conn); [|apply counts_throw].
  apply (counts_bind _ _ 0 0 0 0); [by intros s|intros _; apply counts_await|done].
Qed.

(** The [try] block of [importFile]: one refresh when it completes, none
    before it throws. *)
Lemma importFile_body_counts w en fileName_ fileContent tableName fileType database :
  counts
    (s <- get;;
     match db s, connection s with
     | Some _, Some conn =>
         dropFile_quietly en fileName_;;
         await (e_registerFileBuffer en fileName_ fileContent);;
         if bool_decide (fileType = js "duckdb")
         then
           _ <- query w en conn (attach_sql fileName_ tableName);;
           fetchDatabasesAndTablesInfo w
         else
           _ <- query w en conn (create_sql en fileName_ tableName fileType);;
           verification <- query w en conn (verify_sql tableName database);;
           count <- await (e_first_cell en verification);;
           (match count with
            | VNum 0 => throw (ErrorObj (js "Table creation verification failed"))
            | _ => ret tt
            end);;
           fetchDatabasesAndTablesInfo w
     | _, _ => throw (ErrorObj (js "Database not initialized"))
     end)%eff 1 0.
Proof.
  apply (counts_bind _ _ 0 1 0 0); [apply counts_get| |done]. intros s.
  destruct (db s); [destruct (connection s) as [conn|]|]; try apply counts_throw.
  apply (counts_bind _ _ 0 1 0 0); [| |done].
  { unfold dropFile_quietly. intros s0. unfold try_catch, await, ret.
    by destruct (e_dropFile en fileName_). }
  intros _. apply (counts_bind _ _ 0 1 0 0); [apply counts_await| |done]. intros _.
  case_bool_decide.
  - apply (counts_bind _ _ 0 1 0 0); [apply counts_engine_query| |done].
    intros _. apply counts_refresh.
  - apply (counts_bind _ _ 0 1 0 0); [apply counts_engine_query| |done]. intros _.
    apply (counts_bind _ _ 0 1 0 0); [apply counts_engine_query| |done]. intros v.
    apply (counts_bind _ _ 0 1 0 0); [apply counts_await| |done]. intros count.
    apply (counts_bind _ _ 0 1 0 0); [|intros _; apply counts_refresh|done].
    destruct count as [| | |[| |]| | | |]; (apply counts_throw || apply counts_ret).
Qed.

(** X19. [importFile] triggers exactly one schema refresh on every path,
    success or failure; it either completes normally or throws an [Error]
    whose message starts with "Import failed: "; and on a session without
    [db] or without [connection] it throws "Import failed: Database not
    initialized". *)
Theorem importFile_refreshes_once w en fileName_ fileContent tableName fileType database s :
  let r := importFile w en fileName_ fileContent tableName fileType database s in
  refreshes (trace r) = 1 /\
  (outcome r = Normal tt \/
   exists cause, outcome r = Throw (ErrorObj (js "Import failed: " ++ cause))) /\
  (db s = None \/ connection s = None ->
   outcome r = Throw (ErrorObj (js "Import failed: " ++ js "Database not initialized"))).
Proof.
  intros r. split; [|split].
  - assert (counts (importFile w en fileName_ fileContent tableName fileType database) 1 1)
      as Hcounts.
    { unfold importFile.
      apply (counts_try_catch _ _ 1 0 1); [apply importFile_body_counts| |lia].
      intros e. apply (counts_bind _ _ 1 0 1 0);
        [apply counts_refresh|intros _; apply counts_throw|done]. }
    specialize (Hcounts s). subst r. unfold trace.
    by destruct (importFile _ _ _ _ _ _ _ s) as [[[|] ?] ?].
  - subst r. unfold importFile, try_catch, outcome.
    match goal with |- context [bind get ?k s] => destruct (bind get k s) as [[[[]|e] s1] t1] end;
      [by left|].
    right. unfold bind. refresh_done. by eexists.
  - intros Hnone. subst r.
    unfold importFile, try_catch, bind, get, throw, outcome. simpl.
    destruct Hnone as [-> | Hc].
    + refresh_done. done.
    + rewrite Hc. destruct (db s); refresh_done; done.
Qed.

(** X19 at work: a session that was never initialized. *)
Lemma importFile_refreshes_once_witness :
  db initial_state = None /\
  outcome (importFile world_ok engine0 (js "sales.csv") [] (js "sales") (js "csv")
             (js "memory") initial_state)
    = Throw (ErrorObj (js "Import failed: Database not initialized")).
Proof.
  split; [reflexivity|].
  exact (proj2 (proj2 (importFile_refreshes_once world_ok engine0 (js "sales.csv") []
                         (js "sales") (js "csv") (js "memory") initial_state))
           (or_introl eq_refl)).
Defined.

(** X20. [deleteTable] always ends with [isLoading] down. Without a valid
    connection it sends nothing; with one it sends exactly the statement
    [DROP TABLE IF EXISTS "database"."table"] first. When the validation or
    the statement fails, the very error is thrown again after being stored
    in [error] behind "Failed to delete table: ", and no refresh happens;
    when the statement succeeds, one schema refresh follows and the call
    completes normally. *)
Theorem deleteTable_rethrows w tableName database s :
  let r := deleteTable w tableName database s in
  isLoading (final r) = false /\
  match validateConnection (connection s) with
  | Throw e =>
      outcome r = Throw e /\ trace r = [] /\
      error (final r) = Some (js "Failed to delete table: " ++ error_message e)
  | Normal _ =>
      head (trace r) = Some (EvQuery (drop_sql tableName database)) /\
      match w_query w (drop_sql tableName database) with
      | Throw e =>
          outcome r = Throw e /\ refreshes (trace r) = 0 /\
          error (final r) = Some (js "Failed to delete table: " ++ error_message e)
      | Normal _ => outcome r = Normal tt /\ refreshes (trace r) = 1
      end
  end.
Proof.
  unfold deleteTable, try_catch, bind, await, emit, set, get, ret, throw,
    outcome, final, trace. simpl.
  destruct (validateConnection (connection s)); simpl; [|done].
  destruct (w_query w (drop_sql tableName database)); simpl; [|done].
  refresh_done. repeat split; try done.
  unfold refreshes in *. simpl. rewrite ?List.filter_app, ?length_app, ?app_nil_r.
  simpl. lia.
Qed.

(** * Further properties of the file importer *)

(** ** Default table names *)

Lemma isWordChar_not_whitespace c : isWordChar c = true -> isWhiteSpace c = false.
Proof.
  unfold isWordChar, isWhiteSpace. intros H.
  repeat (apply orb_true_iff in H as [H|H]);
    repeat match goal with
           | H : (_ && _) = true |- _ => apply andb_true_iff in H as [? ?]
           | H : (_ <=? _)%N = true |- _ => apply N.leb_le in H
           | H : (_ =? _)%N = true |- _ => apply N.eqb_eq in H
           end;
    repeat (apply orb_false_iff; split);
    try (apply andb_false_iff);
    rewrite ?N.leb_gt, ?N.eqb_neq; lia.
Qed.

Lemma isWordChar_ascii_lower c : isWordChar c = true -> isWordChar (ascii_lower c) = true.
Proof.
  unfold ascii_lower. destruct ((0x41 <=? c)%N && (c <=? 0x5A)%N) eqn:Hup; [|done].
  intros _. apply andb_true_iff in Hup as [H1%N.leb_le H2%N.leb_le].
  unfold isWordChar. apply orb_true_iff. left. apply orb_true_iff. left.
  apply orb_true_iff. left. apply andb_true_iff. rewrite !N.leb_le. lia.
Qed.

Lemma sanitize_words s : forallb isWordChar (sanitize s) = true.
Proof.
  induction s as [|c s IH]; [done|]. simpl. rewrite IH, andb_true_r.
  by destruct (isWordChar c) eqn:Hc.
Qed.

Lemma trimStart_words s : forallb isWordChar s = true -> trimStart s = s.
Proof.
  destruct s as [|c s]; [done|]. simpl. intros [Hc _]%andb_true_iff.
  by rewrite (isWordChar_not_whitespace c Hc).
Qed.

Lemma forallb_rev {A} (p : A -> bool) (l : list A) : forallb p (rev l) = forallb p l.
Proof.
  induction l as [|x l IH]; [done|]. simpl.
  rewrite forallb_app, IH. simpl. rewrite andb_true_r. apply andb_comm.
Qed.

Lemma trim_words s : forallb isWordChar s = true -> trim s = s.
Proof.
  intros Hs. unfold trim, trimEnd. rewrite (trimStart_words s Hs).
  rewrite trimStart_words by (by rewrite forallb_rev). apply rev_involutive.
Qed.

Lemma forallb_ascii_lower (l : list N) :
  forallb isWordChar l = true -> forallb isWordChar (ascii_lower <$> l) = true.
Proof.
  induction l as [|c l IH]; [done|]. rewrite fmap_cons. cbn [forallb].
  intros [Hc Hl]%andb_true_iff. by rewrite (isWordChar_ascii_lower c Hc), IH.
Qed.

Lemma isLowerWordChar_ascii_lower c :
  isWordChar c = true -> isLowerWordChar (ascii_lower c) = true.
Proof.
  unfold isWordChar, isLowerWordChar, ascii_lower. intros H.
  destruct ((0x41 <=? c)%N && (c <=? 0x5A)%N) eqn:Hup.
  - apply andb_true_iff in Hup as [H1%N.leb_le H2%N.leb_le].
    apply orb_true_iff. left. apply orb_true_iff. left.
    apply andb_true_iff. rewrite !N.leb_le. lia.
  - by rewrite orb_false_r in H.
Qed.

Lemma forallb_lower_words (l : list N) :
  forallb isWordChar l = true -> forallb isLowerWordChar (ascii_lower <$> l) = true.
Proof.
  induction l as [|c l IH]; [done|]. rewrite fmap_cons. cbn [forallb].
  intros [Hc Hl]%andb_true_iff. by rewrite (isLowerWordChar_ascii_lower c Hc), IH.
Qed.

(** The default name is made of word characters, and the schema accepts
    it when it is not empty. *)
Lemma default_table_name_words toLowerCase name :
  lowers_words toLowerCase ->
  let d := default_table_name toLowerCase name in
  d = ascii_lower <$> sanitize (strip_extension name) /\
  forallb isWordChar d = true /\
  (d <> [] -> tableNameSchema_parse (Some d) = inr d).
Proof.
  intros Hlow d. subst d. unfold default_table_name.
  rewrite (Hlow _ (sanitize_words _)).
  assert (forallb isWordChar (ascii_lower <$> sanitize (strip_extension name)) = true)
    as Hwords by apply forallb_ascii_lower, sanitize_words.
  split; [done|]. split; [done|].
  intros Hne. unfold tableNameSchema_parse, test_word. rewrite (trim_words _ Hwords).
  rewrite Hwords. by destruct (ascii_lower <$> _).
Qed.

(** X21. The default table name of a file is made of lower-case letters,
    digits and underscores only, no capital among them, so [tableNameSchema]
    accepts it as it is, unless it is empty, which is what a name like
    [.csv] gives. *)
Theorem default_table_name_accepted toLowerCase name :
  lowers_words toLowerCase ->
  let d := default_table_name toLowerCase name in
  forallb isLowerWordChar d = true /\
  (d <> [] -> tableNameSchema_parse (Some d) = inr d) /\
  (d = [] <-> strip_extension name = []) /\
  (d = [] -> tableNameSchema_parse (Some d) = inl (js "Table name cannot be empty")).
Proof.
  intros Hlow d.
  destruct (default_table_name_words toLowerCase name Hlow) as (Heq & Hwords & Hparse).
  subst d. split; [rewrite Heq; apply forallb_lower_words, sanitize_words|].
  split; [done|]. split.
  - rewrite Heq. unfold sanitize. by destruct (strip_extension name).
  - by intros ->.
Qed.

Lemma lower_ascii_lowers_words : lowers_words lower_ascii.
Proof. by intros s _. Defined.

(** X21 at work: a name with a space and capitals, and a name that is all
    extension. *)
Lemma default_table_name_accepted_witness :
  lowers_words lower_ascii /\
  default_table_name lower_ascii (js "Sales 2024.CSV") = js "sales_2024" /\
  forallb isLowerWordChar (default_table_name lower_ascii (js "Sales 2024.CSV")) = true /\
  tableNameSchema_parse (Some (default_table_name lower_ascii (js "Sales 2024.CSV")))
    = inr (js "sales_2024") /\
  default_table_name lower_ascii (js ".csv") = [].
Proof.
  split; [exact lower_ascii_lowers_words|]. split; [reflexivity|].
  split; [exact (proj1 (default_table_name_accepted lower_ascii (js "Sales 2024.CSV")
                          lower_ascii_lowers_words))|].
  split; [|reflexivity].
  exact (proj1 (proj2 (default_table_name_accepted lower_ascii (js "Sales 2024.CSV")
                         lower_ascii_lowers_words)) ltac:(discriminate)).
Defined.

(** ** Intake *)

Section IntakeFacts.
Variable toLowerCase : jsstring -> jsstring.

Lemma validateFile_passes file :
  validateFile toLowerCase file = [] <-> passes toLowerCase file = true.
Proof.
  unfold validateFile, passes.
  destruct (bool_decide (extension_of toLowerCase file ∈ SUPPORTED_FILE_EXTENSIONS)) eqn:Hext.
  - assert (truthy (extension_of toLowerCase file) = true) as ->.
    { apply bool_decide_eq_true in Hext.
      unfold SUPPORTED_FILE_EXTENSIONS in Hext.
      repeat (apply elem_of_cons in Hext as [->|Hext]; [reflexivity|]).
      by apply elem_of_nil in Hext. }
    simpl. destruct (N.leb_spec (file_size file) MAX_FILE_SIZE) as [Hle|Hgt].
    + by rewrite (proj2 (N.ltb_ge _ _) Hle).
    + by rewrite (proj2 (N.ltb_lt _ _) Hgt).
  - rewrite orb_true_r. simpl. by split.
Qed.

Lemma sort_files_spec newFiles : forall newErrors validFiles,
  sort_files toLowerCase newFiles newErrors validFiles
  = (newErrors ++ concat (validateFile toLowerCase <$> newFiles),
     validFiles ++ filter (fun f => passes toLowerCase f = true) newFiles).
Proof.
  induction newFiles as [|f fs IH]; intros errs valid; simpl.
  - by rewrite !app_nil_r.
  - destruct (validateFile toLowerCase f) as [|e es] eqn:Hv.
    + rewrite IH, filter_cons_True by (by apply validateFile_passes).
      by rewrite <- app_assoc.
    + rewrite IH, filter_cons_False.
      * by rewrite <- app_assoc.
      * intros Hp. apply validateFile_passes in Hp. congruence.
Qed.

Lemma fold_insert_lookup_other {V} (key : File -> list N) (val : File -> V)
    (l : list File) : forall (m : gmap (list N) V) k,
  Forall (fun f => key f <> k) l ->
  fold_left (fun acc f => <[key f := val f]> acc) l m !! k = m !! k.
Proof.
  induction l as [|f l IH]; intros m k Hl; [done|]. simpl.
  apply Forall_cons in Hl as [Hf Hl]. by rewrite IH, lookup_insert_ne.
Qed.

Lemma fold_insert_lookup_in {V} (key : File -> list N) (val : File -> V)
    (l : list File) : forall (m : gmap (list N) V) f,
  f ∈ l ->
  exists f', f' ∈ l /\ key f' = key f /\
             fold_left (fun acc f => <[key f := val f]> acc) l m !! key f = Some (val f').
Proof.
  induction l as [|g l IH]; intros m f Hf; [by apply elem_of_nil in Hf|]. simpl.
  destruct (decide (Exists (fun f' => key f' = key f) l)) as [Hex|Hno].
  - apply Exists_exists in Hex as (f1 & Hf1 & Hkey).
    destruct (IH (<[key g := val g]> m) f1 Hf1) as (f' & Hf' & Hk & Hlook).
    exists f'. split; [by right|]. split; [congruence|]. by rewrite <- Hkey.
  - apply not_Exists_Forall in Hno; [|intros x; apply _].
    apply elem_of_cons in Hf as [->|Hf].
    + exists g. split; [left|]. split; [done|].
      rewrite fold_insert_lookup_other by done. by rewrite lookup_insert_eq.
    + exfalso. rewrite Forall_forall in Hno. by apply (Hno f Hf).
Qed.

(** X22. [onFileChange] appends to the queue, in their order, exactly the
    new files whose lower-cased extension is one of [csv], [json],
    [parquet], [arrow], [duckdb] and whose size is at most 2 GiB. Each of
    them is pending under its default table name; each of the others is
    reported in [errors]; and the entries of other file names are left as
    they were. *)
Theorem onFileChange_intake newFiles c :
  let c' := onFileChange toLowerCase newFiles c in
  files c' = files c ++ filter (fun f => passes toLowerCase f = true) newFiles /\
  (forall f, f ∈ newFiles -> passes toLowerCase f = true ->
             status <$> (importStates c' !! file_name f) = Some Pending /\
             tableNames c' !! file_name f
               = Some (default_table_name toLowerCase (file_name f))) /\
  (forall f, f ∈ newFiles -> passes toLowerCase f = false ->
             exists e, e ∈ errors c' /\ ue_file e = Some (file_name f)) /\
  (forall k, Forall (fun f => passes toLowerCase f = true -> file_name f <> k) newFiles ->
             importStates c' !! k = importStates c !! k /\
             tableNames c' !! k = tableNames c !! k).
Proof.
  intros c'. subst c'. unfold onFileChange. rewrite sort_files_spec. simpl.
  set (valid := filter (fun f => passes toLowerCase f = true) newFiles).
  split; [done|]. split; [|split].
  - intros f Hf Hp.
    assert (f ∈ valid) as Hv by (by apply list_elem_of_filter).
    split.
    + destruct (fold_insert_lookup_in file_name pending_state valid ∅ f Hv)
        as (f' & _ & _ & Hlook).
      by rewrite (lookup_union_Some_l _ _ _ _ Hlook).
    + destruct (fold_insert_lookup_in file_name
                  (fun file => default_table_name toLowerCase (file_name file)) valid ∅ f Hv)
        as (f' & _ & Hk & Hlook).
      rewrite (lookup_union_Some_l _ _ _ _ Hlook). by rewrite Hk.
  - intros f Hf Hp.
    assert (validateFile toLowerCase f <> []) as Hne.
    { intros Hv. apply validateFile_passes in Hv. congruence. }
    assert (Forall (fun e => ue_file e = Some (file_name f)) (validateFile toLowerCase f))
      as Hall.
    { unfold validateFile. apply Forall_app. split; by case_match; repeat constructor. }
    destruct (validateFile toLowerCase f) as [|e es] eqn:Hv; [done|].
    exists e. split; [|by apply Forall_cons in Hall as [? _]].
    apply list_elem_of_In, in_concat. exists (e :: es). split; [|left; done].
    apply list_elem_of_In, list_elem_of_fmap. exists f. by rewrite Hv.
  - intros k Hk.
    assert (Forall (fun f => file_name f <> k) valid) as Hother.
    { apply Forall_forall. intros f [Hp Hf]%list_elem_of_filter.
      rewrite Forall_forall in Hk. by apply Hk. }
    split; rewrite lookup_union_r; try done;
      by rewrite fold_insert_lookup_other.
Qed.

End IntakeFacts.

(** X22 at work: a CSV file beside a text file. *)
Lemma onFileChange_intake_witness :
  let notes := {| file_name := js "notes.txt"; file_size := 10%N |} in
  passes lower_ascii sales_csv = true /\ passes lower_ascii notes = false /\
  files (onFileChange lower_ascii [notes; sales_csv] empty_importer) = [sales_csv] /\
  status <$> (importStates (onFileChange lower_ascii [notes; sales_csv] empty_importer)
                !! js "sales.csv") = Some Pending.
Proof.
  intros notes. split; [reflexivity|]. split; [reflexivity|]. split; [reflexivity|].
  exact (proj1 (proj1 (proj2 (onFileChange_intake lower_ascii [notes; sales_csv]
                                empty_importer))
                  sales_csv ltac:(right; left) eq_refl)).
Defined.

(** ** Removal and retry *)

Lemma size_delete_le {V} (m : gmap (list N) V) (k : list N) :
  size (delete k m) <= size m.
Proof.
  destruct (m !! k) eqn:Hl.
  - rewrite <- (insert_delete_id _ _ _ Hl) at 2.
    rewrite map_size_insert_None by apply lookup_delete_eq. lia.
  - by rewrite delete_id.
Qed.

Lemma in_flight_delete name c :
  in_flight (with_importStates (delete name (importStates c)) c) <= in_flight c.
Proof. unfold in_flight. simpl. rewrite map_filter_delete. apply size_delete_le. Qed.

(** A job that leaves the [processing] state, or never enters it, does not
    add to the jobs in flight. *)
Lemma in_flight_idle name st err c :
  st <> Processing -> st <> Uploading ->
  in_flight (updateImportState name st err c) <= in_flight c.
Proof.
  intros H1 H2. unfold in_flight, updateImportState. simpl.
  rewrite map_filter_insert_False by (simpl; by destruct st).
  rewrite map_filter_delete. apply size_delete_le.
Qed.

Lemma in_flight_push_error msg file c : in_flight (push_error msg file c) = in_flight c.
Proof. done. Qed.

(** X23. [removeFile] removes the file from the queue with its table name,
    its import state and the errors reported for it, so that no job of that
    name is in flight any more; the files, table names and import states of
    other names are left as they were. *)
Theorem removeFile_forgets name c :
  let c' := removeFile name c in
  Forall (fun f => file_name f <> name) (files c') /\
  tableNames c' !! name = None /\
  importStates c' !! name = None /\
  Forall (fun e => ue_file e <> Some name) (errors c') /\
  files c' = filter (fun f => file_name f <> name) (files c) /\
  (forall k, k <> name ->
             tableNames c' !! k = tableNames c !! k /\
             importStates c' !! k = importStates c !! k) /\
  in_flight c' <= in_flight c.
Proof.
  intros c'. subst c'. unfold removeFile. simpl.
  split; [apply Forall_forall; by intros f [? _]%list_elem_of_filter|].
  split; [apply lookup_delete_eq|]. split; [apply lookup_delete_eq|].
  split; [apply Forall_forall; by intros e [? _]%list_elem_of_filter|].
  split; [done|]. split; [|apply (in_flight_delete name c)].
  intros k Hk. by rewrite !lookup_delete_ne.
Qed.

Lemma removeFile_forgets_witness :
  js "notes.csv" <> js "sales.csv" /\
  tableNames (removeFile (js "sales.csv")
                (onFileChange lower_ascii [sales_csv] empty_importer))
    !! js "notes.csv"
  = tableNames (onFileChange lower_ascii [sales_csv] empty_importer)
      !! js "notes.csv".
Proof.
  assert (Hk : js "notes.csv" <> js "sales.csv") by (vm_compute; discriminate).
  split; [exact Hk|].
  pose proof (removeFile_forgets (js "sales.csv")
                (onFileChange lower_ascii [sales_csv] empty_importer)) as H.
  cbv zeta in H. destruct H as (_ & _ & _ & _ & _ & H & _).
  exact (proj1 (H _ Hk)).
Defined.

(** X24. Adding a file and removing it again: for a file that passes the
    intake and whose name is new to the component, [removeFile] after
    [onFileChange] gives back the queue, the table names and the import
    states as they were. *)
Theorem onFileChange_removeFile toLowerCase f c :
  passes toLowerCase f = true ->
  Forall (fun g => file_name g <> file_name f) (files c) ->
  tableNames c !! file_name f = None ->
  importStates c !! file_name f = None ->
  let c' := removeFile (file_name f) (onFileChange toLowerCase [f] c) in
  files c' = files c /\ tableNames c' = tableNames c /\ importStates c' = importStates c.
Proof.
  intros Hp Hnew Hnames Hstates c'. subst c'.
  unfold removeFile, onFileChange. rewrite sort_files_spec. simpl.
  rewrite filter_cons_True, filter_nil by done. simpl.
  split; [|split].
  - rewrite filter_app, filter_cons_False, filter_nil, app_nil_r
      by (intros H; by apply H).
    by apply filter_all.
  - rewrite insert_empty, <- insert_union_singleton_l, delete_insert_id by done. done.
  - rewrite insert_empty, <- insert_union_singleton_l, delete_insert_id by done. done.
Qed.

Lemma onFileChange_removeFile_witness :
  passes lower_ascii sales_csv = true /\
  removeFile (js "sales.csv") (onFileChange lower_ascii [sales_csv] empty_importer)
  = empty_importer.
Proof.
  split; [reflexivity|].
  destruct (onFileChange_removeFile lower_ascii sales_csv empty_importer eq_refl
              ltac:(constructor) eq_refl eq_refl) as (Hf & Ht & Hs).
  unfold removeFile, onFileChange in *. simpl in *.
  unfold empty_importer. f_equal; assumption.
Defined.

(** X25. [retryFileUpload] makes a job pending and clears its error,
    whatever its status was, and touches no other job; the next
    [handleFileUpload] then starts the file again, provided its table name
    is accepted: its job goes to [processing] and its callback awaits the
    bytes of the file. *)
Theorem retryFileUpload_restarts f c t :
  tableNameSchema_parse (tableNames c !! file_name f) = inr t ->
  let c1 := retryFileUpload (file_name f) c in
  (status <$> (importStates c1 !! file_name f)) = Some Pending /\
  (importStates c1 !! file_name f) ≫= fis_error = None /\
  (forall k, k <> file_name f -> importStates c1 !! k = importStates c !! k) /\
  (start_upload c1 c1 f).2 = {| task_file := f; task_pc := AwaitArrayBuffer |} /\
  status <$> (importStates (start_upload c1 c1 f).1 !! file_name f) = Some Processing.
Proof.
  intros Hname c1. subst c1. unfold retryFileUpload, start_upload. simpl.
  rewrite lookup_insert_eq. simpl. rewrite Hname. simpl.
  rewrite !lookup_insert_eq. simpl.
  repeat split; try done. intros k Hk. by rewrite lookup_insert_ne.
Qed.

Lemma retryFileUpload_restarts_witness :
  let failed := updateImportState (js "sales.csv") Error (Some (js "Import failed: boom"))
                  one_submitted in
  tableNameSchema_parse (tableNames failed !! js "sales.csv") = inr (js "sales") /\
  status <$> (importStates failed !! js "sales.csv") = Some Error /\
  (start_upload (retryFileUpload (js "sales.csv") failed)
     (retryFileUpload (js "sales.csv") failed) sales_csv).2
  = {| task_file := sales_csv; task_pc := AwaitArrayBuffer |}.
Proof.
  intros failed. split; [reflexivity|]. split; [reflexivity|].
  exact (proj1 (proj2 (proj2 (proj2
           (retryFileUpload_restarts sales_csv failed (js "sales") eq_refl))))).
Defined.

(** ** The run of the upload handler *)

Lemma map_async_all_success closure fs : forall lv,
  Forall (fun f => status <$> (importStates closure !! file_name f) = Some Success) fs ->
  (map_async closure lv fs).1 = lv /\
  Forall (fun t => task_pc t = Settled) (map_async closure lv fs).2.
Proof.
  induction fs as [|f fs IH]; intros lv Hfs; simpl; [by split|].
  apply Forall_cons in Hfs as [Hf Hfs].
  assert (start_upload closure lv f = (lv, {| task_file := f; task_pc := Settled |})) as ->
    by (unfold start_upload; by rewrite Hf).
  destruct (IH lv Hfs) as [Hlv Hts].
  destruct (map_async closure lv fs) as [lv2 ts]. cbn [fst snd] in *. subst lv2.
  split; [done|]. by constructor.
Qed.

(** X26. Resuming is idempotent: when every file of the queue is already
    imported, [handleFileUpload] starts nothing. No import state changes,
    no job is put in flight, every promise is settled from the start, and
    the end of the run then closes the sheet and clears the queue. *)
Theorem handleFileUpload_skips_imported c :
  files c <> [] ->
  Forall (fun f => status <$> (importStates c !! file_name f) = Some Success) (files c) ->
  let r := handleFileUpload c in
  importStates (live r) = importStates c /\
  in_flight (live r) = in_flight c /\
  all_settled r /\
  files (finish c (live r)) = [] /\
  isSheetOpen (finish c (live r)) = false.
Proof.
  intros Hne Hall r. subst r. unfold handleFileUpload, all_settled.
  destruct (map_async_all_success c (files c) (with_errors [] (with_isUploading true c)) Hall)
    as [Hlv Hts].
  destruct (map_async c _ (files c)) as [lv ts]. simpl in *. subst lv.
  split; [done|]. split; [done|]. split; [done|].
  assert (allFilesSuccess c = true) as Hsuccess.
  { unfold allFilesSuccess. rewrite bool_decide_eq_false_2 by (by destruct (files c)).
    apply forallb_forall. intros f Hf. apply list_elem_of_In in Hf.
    rewrite Forall_forall in Hall. by rewrite (Hall f Hf). }
  unfold finish. by rewrite Hsuccess.
Qed.

Lemma handleFileUpload_skips_imported_witness :
  let done := updateImportState (js "sales.csv") Success None one_submitted in
  files done <> [] /\
  all_settled (handleFileUpload done) /\
  files (finish done (live (handleFileUpload done))) = [].
Proof.
  intros done.
  assert (files done <> []) as Hne by discriminate.
  split; [exact Hne|].
  destruct (handleFileUpload_skips_imported done Hne ltac:(by repeat constructor))
    as (_ & _ & Hsettled & Hfiles & _).
  split; [exact Hsettled|exact Hfiles].
Defined.

(** X27. A table name that [tableNameSchema] rejects fails the job at
    once: the callback is settled without awaiting anything, the job is in
    the [error] state with the message of the schema, which is one of its
    three messages, the message is added to [errors] under the name of the
    file, and the number of jobs in flight does not grow. *)
Theorem start_upload_invalid_name closure lv f msg :
  status <$> (importStates closure !! file_name f) <> Some Success ->
  tableNameSchema_parse (tableNames closure !! file_name f) = inl msg ->
  let lv' := (start_upload closure lv f).1 in
  (start_upload closure lv f).2 = {| task_file := f; task_pc := Settled |} /\
  status <$> (importStates lv' !! file_name f) = Some Error /\
  (importStates lv' !! file_name f) ≫= fis_error = Some msg /\
  errors lv' = errors lv ++ [{| ue_message := msg; ue_file := Some (file_name f) |}] /\
  msg ∈ schema_messages /\
  in_flight lv' <= in_flight lv.
Proof.
  intros Hnew Hname lv'. subst lv'. unfold start_upload. rewrite Hname.
  assert (msg ∈ schema_messages) as Hmsg.
  { unfold tableNameSchema_parse in Hname. unfold schema_messages.
    destruct (tableNames closure !! file_name f) as [n|]; [|injection Hname as <-; left].
    destruct (negb (truthy (trim n))); [injection Hname as <-; right; left|].
    destruct (negb (test_word (trim n))); [|done].
    injection Hname as <-. right; right; left. }
  assert (in_flight (updateImportState (file_name f) Error (Some msg)
                       (push_error msg (Some (file_name f)) lv)) <= in_flight lv) as Hle.
  { etrans; [by apply in_flight_idle|]. by rewrite in_flight_push_error. }
  destruct (status <$> importStates closure !! file_name f) as [[]|] eqn:Hst; try done;
    cbn [fst snd]; (split; [done|]);
    unfold updateImportState at 1 2 3, push_error at 1 2 3; simpl;
    rewrite !lookup_insert_eq; simpl; by repeat split.
Qed.

Lemma start_upload_invalid_name_witness :
  let renamed := with_tableNames {[ js "sales.csv" := js "my table" ]} one_submitted in
  tableNameSchema_parse (tableNames renamed !! js "sales.csv")
    = inl (js "Table name can only contain letters, numbers, and underscores") /\
  (start_upload renamed renamed sales_csv).2
    = {| task_file := sales_csv; task_pc := Settled |}.
Proof.
  intros renamed. split; [reflexivity|].
  exact (proj1 (start_upload_invalid_name renamed renamed sales_csv _
                  ltac:(discriminate) eq_refl)).
Defined.

(** The queue, the table names and the sheet are out of reach of a run. *)
Lemma start_upload_frame closure lv f :
  let lv' := (start_upload closure lv f).1 in
  files lv' = files lv /\ tableNames lv' = tableNames lv /\ isSheetOpen lv' = isSheetOpen lv.
Proof.
  unfold start_upload.
  destruct (status <$> importStates closure !! file_name f) as [[]|];
    destruct (tableNameSchema_parse (tableNames closure !! file_name f)); done.
Qed.

Lemma map_async_frame closure fs : forall lv,
  let lv' := (map_async closure lv fs).1 in
  files lv' = files lv /\ tableNames lv' = tableNames lv /\ isSheetOpen lv' = isSheetOpen lv.
Proof.
  induction fs as [|f fs IH]; intros lv; simpl; [done|].
  pose proof (start_upload_frame closure lv f) as (H1 & H2 & H3).
  destruct (start_upload closure lv f) as [lv1 t]. cbn [fst] in *.
  specialize (IH lv1). destruct (map_async closure lv1 fs) as [lv2 ts]. cbn [fst] in *.
  destruct IH as (I1 & I2 & I3). split; [congruence|]. split; congruence.
Qed.

Lemma reachable_frame c r :
  reachable c r ->
  files (live r) = files c /\ tableNames (live r) = tableNames c /\
  isSheetOpen (live r) = isSheetOpen c.
Proof.
  induction 1 as [|r r' _ IH Hstep].
  - unfold handleFileUpload.
    pose proof (map_async_frame c (files c) (with_errors [] (with_isUploading true c))) as H.
    destruct (map_async c _ (files c)) as [lv ts]. exact H.
  - destruct Hstep; exact IH.
Qed.

(** X28. The end of a run looks at [allFilesSuccess] as it was when the
    handler was created. So when some file of the queue was not yet
    imported at that moment, the run never clears the queue, the table
    names or the sheet, not even after every job has succeeded; it only
    puts [isUploading] down. *)
Theorem finish_keeps_queue c r :
  reachable c r ->
  Exists (fun f => status <$> (importStates c !! file_name f) <> Some Success) (files c) ->
  let e := finish c (live r) in
  files e = files c /\ tableNames e = tableNames c /\
  isSheetOpen e = isSheetOpen c /\ isUploading e = false /\
  importStates e = importStates (live r).
Proof.
  intros Hreach Hpending e. subst e.
  assert (allFilesSuccess c = false) as Hstale.
  { unfold allFilesSuccess. case_bool_decide; [done|].
    apply not_true_is_false. intros Hall.
    apply Exists_exists in Hpending as (f & Hf & Hnot).
    rewrite forallb_forall in Hall. specialize (Hall f (proj1 (list_elem_of_In _ _) Hf)).
    by destruct (status <$> importStates c !! file_name f) as [[]|]. }
  unfold finish. rewrite Hstale. simpl.
  destruct (reachable_frame c r Hreach) as (H1 & H2 & H3). by repeat split.
Qed.

Lemma finish_keeps_queue_witness :
  exists r,
    reachable one_submitted r /\
    status <$> (importStates (live r) !! js "sales.csv") = Some Success /\
    files (finish one_submitted (live r)) = [sales_csv].
Proof.
  eexists. split; [|split].
  - eapply reach_step; [eapply reach_step; [apply reach_start|]|].
    + eapply (arrayBuffer_fulfilled _ 0); reflexivity.
    + eapply (importFile_fulfilled _ 0); reflexivity.
  - reflexivity.
  - refine (proj1 (finish_keeps_queue one_submitted _ _ _)).
    + eapply reach_step; [eapply reach_step; [apply reach_start|]|].
      * eapply (arrayBuffer_fulfilled _ 0); reflexivity.
      * eapply (importFile_fulfilled _ 0); reflexivity.
    + left. discriminate.
Defined.

Lemma in_flight_processing_le name c :
  in_flight (updateImportState name Processing None c) <= S (in_flight c).
Proof.
  unfold in_flight, updateImportState. simpl.
  rewrite map_filter_insert_True by done.
  destruct (filter (fun kv => busy kv.2 = true) (importStates c) !! name) eqn:Hl.
  - erewrite map_size_insert_Some by eauto. lia.
  - rewrite map_size_insert_None by done. lia.
Qed.

Lemma start_upload_in_flight closure lv f :
  in_flight (start_upload closure lv f).1 <= S (in_flight lv).
Proof.
  unfold start_upload.
  assert (forall msg, in_flight (updateImportState (file_name f) Error (Some msg)
                                   (push_error msg (Some (file_name f)) lv))
                      <= S (in_flight lv)) as Herr.
  { intros msg. etrans; [by apply in_flight_idle|]. rewrite in_flight_push_error. lia. }
  pose proof (in_flight_processing_le (file_name f) lv) as Hproc.
  destruct (status <$> importStates closure !! file_name f) as [[]|];
    destruct (tableNameSchema_parse (tableNames closure !! file_name f));
    cbn [fst]; auto.
Qed.

Lemma map_async_in_flight_le closure fs : forall lv,
  in_flight (map_async closure lv fs).1 <= in_flight lv + length fs.
Proof.
  induction fs as [|f fs IH]; intros lv; simpl; [lia|].
  pose proof (start_upload_in_flight closure lv f) as Hf.
  destruct (start_upload closure lv f) as [lv1 t]. cbn [fst] in *.
  specialize (IH lv1). destruct (map_async closure lv1 fs) as [lv2 ts]. cbn [fst] in *.
  lia.
Qed.

Lemma step_in_flight r r' : step r r' -> in_flight (live r') <= in_flight (live r).
Proof.
  destruct 1; unfold settle, fail_task; cbn [live];
    rewrite ?in_flight_push_error; try done; by apply in_flight_idle.
Qed.

(** X29. What does bound the jobs in flight: after the launch no turn of
    the event loop puts another job in flight, and at every instant of a
    run their number is at most the number in flight before it plus the
    number of files in the queue. *)
Theorem in_flight_bounded c r :
  reachable c r ->
  in_flight (live r) <= in_flight c + length (files c) /\
  forall r', step r r' -> in_flight (live r') <= in_flight (live r).
Proof.
  intros Hreach. split; [|apply step_in_flight].
  induction Hreach as [|r r' _ IH Hstep].
  - unfold handleFileUpload.
    pose proof (map_async_in_flight_le c (files c) (with_errors [] (with_isUploading true c)))
      as H.
    destruct (map_async c _ (files c)) as [lv ts]. cbn [fst live] in *.
    unfold in_flight in *. simpl in *. lia.
  - pose proof (step_in_flight r r' Hstep). lia.
Qed.

Lemma in_flight_bounded_witness :
  reachable ten_submitted (handleFileUpload ten_submitted) /\
  in_flight (live (handleFileUpload ten_submitted)) <= 0 + 10.
Proof.
  split; [apply reach_start|].
  exact (proj1 (in_flight_bounded ten_submitted _ (reach_start ten_submitted))).
Defined.

(** ** From the intake to the launch *)

Lemma fold_insert_list_to_map {V} (key : File -> list N) (val : File -> V)
    (l : list File) : forall (m : gmap (list N) V),
  NoDup (key <$> l) ->
  fold_left (fun acc f => <[key f := val f]> acc) l m
  = list_to_map ((fun f => (key f, val f)) <$> l) ∪ m.
Proof.
  induction l as [|f l IH]; intros m Hnd.
  - simpl. by rewrite (left_id_L ∅ (∪)).
  - rewrite fmap_cons in Hnd. apply NoDup_cons in Hnd as [Hf Hnd].
    cbn [fold_left]. rewrite IH by done. rewrite fmap_cons, list_to_map_cons.
    cbn [fst snd]. rewrite <- insert_union_l. symmetry. apply insert_union_r.
    apply not_elem_of_list_to_map_1. rewrite <- list_fmap_compose. exact Hf.
Qed.

Lemma zip_fmap_same {X Y Z} (g : X -> Y) (h : X -> Z) (l : list X) :
  zip (g <$> l) (h <$> l) = (fun x => (g x, h x)) <$> l.
Proof.
  induction l as [|x l IH]; [done|].
  rewrite !fmap_cons. cbn [zip_with]. by rewrite IH.
Qed.

(** X30. From the drop of the files to the launch: for files with distinct
    names that all pass the intake and whose names do not reduce to an
    extension, [onFileChange] on a fresh component gives a batch in which
    every file is pending under its default table name, and
    [handleFileUpload] on that batch puts every one of them in flight at
    once, however many they are. *)
Theorem intake_then_upload toLowerCase fs :
  lowers_words toLowerCase ->
  NoDup (file_name <$> fs) ->
  Forall (fun f => passes toLowerCase f = true /\ strip_extension (file_name f) <> []) fs ->
  let c := onFileChange toLowerCase fs empty_importer in
  c = submitted fs ((fun f => default_table_name toLowerCase (file_name f)) <$> fs) /\
  in_flight c = 0 /\
  in_flight (live (handleFileUpload c)) = length fs.
Proof.
  intros Hlow Hnd Hfs c.
  assert (c = submitted fs ((fun f => default_table_name toLowerCase (file_name f)) <$> fs))
    as Hc.
  { subst c. unfold onFileChange, submitted. rewrite sort_files_spec.
    assert (filter (fun f => passes toLowerCase f = true) fs = fs) as ->.
    { apply filter_all. eapply Forall_impl; [exact Hfs|]. by intros f [? _]. }
    assert (concat (validateFile toLowerCase <$> fs) = []) as ->.
    { clear Hnd. induction Hfs as [|f l [Hp _] _ IH]; [done|].
      rewrite fmap_cons. cbn [concat].
      by rewrite (proj2 (validateFile_passes toLowerCase f) Hp), IH. }
    simpl. rewrite !fold_insert_list_to_map by done.
    rewrite !(right_id_L ∅ (∪)), zip_fmap_same. done. }
  split; [exact Hc|].
  assert (forall k st, importStates c !! k = Some st -> busy st = false) as Hidle.
  { rewrite Hc. unfold submitted. simpl. intros k st Hst.
    apply elem_of_list_to_map_2 in Hst.
    by apply list_elem_of_fmap in Hst as (f & [= _ ->] & _). }
  assert (in_flight c = 0) as Hzero.
  { unfold in_flight. apply map_size_empty_iff, map_empty. intros k.
    apply map_lookup_filter_None. right. intros st Hst. simpl.
    rewrite (Hidle k st Hst). done. }
  split; [exact Hzero|].
  rewrite handleFileUpload_all_in_flight; [by rewrite Hc| |exact Hzero].
  split; [by rewrite Hc|]. split; [exact Hidle|].
  rewrite Hc at 1. unfold submitted at 1. cbn [files].
  apply Forall_forall. intros f Hf.
  rewrite Forall_forall in Hfs. destruct (Hfs f Hf) as [_ Hname].
  assert (importStates c !! file_name f = Some (pending_state f)) as Hst.
  { rewrite Hc. unfold submitted. simpl. apply elem_of_list_to_map_1.
    - by rewrite <- list_fmap_compose.
    - apply list_elem_of_fmap. by exists f. }
  assert (tableNames c !! file_name f
          = Some (default_table_name toLowerCase (file_name f))) as Htn.
  { rewrite Hc. unfold submitted. simpl. rewrite zip_fmap_same.
    apply elem_of_list_to_map_1.
    - by rewrite <- list_fmap_compose.
    - apply list_elem_of_fmap. by exists f. }
  rewrite Hst, Htn. split; [done|].
  destruct (default_table_name_words toLowerCase (file_name f) Hlow) as (Heq & _ & Hparse).
  eexists. apply Hparse. rewrite Heq. unfold sanitize.
  by destruct (strip_extension (file_name f)).
Qed.

Lemma intake_then_upload_witness :
  let fs := [sales_csv; {| file_name := js "Q1 report.JSON"; file_size := 2048%N |}] in
  NoDup (file_name <$> fs) /\
  in_flight (live (handleFileUpload (onFileChange lower_ascii fs empty_importer))) = 2.
Proof.
  intros fs.
  assert (NoDup (file_name <$> fs)) as Hnd.
  { apply (bool_decide_unpack _). vm_compute. exact I. }
  split; [exact Hnd|].
  refine (proj2 (proj2 (intake_then_upload lower_ascii fs lower_ascii_lowers_words Hnd _))).
  repeat constructor; discriminate.
Defined.
